(** * Scene lifecycle and particle shader of the portfolio's 3D views

    A shallow embedding of [RoboticsScene] (the instanced particle
    background with its [ParticleSystem] entity and GLSL program) and of
    [Portrait] (the lit portrait view), followed by the properties the
    specification states about them and by further properties of the code:
    the vertex stage, the contents of the attribute buffers, the lifecycle
    of the two views under events and renders, and the class helper.

    Numbers: JavaScript numbers and GLSL [highp float] values are read as
    real numbers ([R]); rounding is not modelled, except in [Float32], the
    binary32 arithmetic in which the phase of the vertex stage is computed
    a second time.  Pixel dimensions and colour codes are integers ([Z]). *)

From Stdlib Require Import Reals Lra Lia ZArith List.
From stdpp Require Import base option list strings gmap.

Local Open Scope R_scope.

(** ** GLSL built-ins used by the shader program *)

Module Glsl.

(** [floor(x)]: the greatest integer not above [x]. *)
Definition floor (x : R) : R := IZR (Int_part x).

(** [mod(x, y) = x - y * floor(x / y)]. *)
Definition mod_ (x y : R) : R := x - y * floor (x / y).

(** [clamp(x, minVal, maxVal) = min(max(x, minVal), maxVal)]; the
    arguments are positional: the clamped value comes first. *)
Definition clamp (x minVal maxVal : R) : R := Rmin (Rmax x minVal) maxVal.

(** The other evaluation order drivers use, [max(min(x, maxVal), minVal)];
    it agrees with [clamp] whenever [minVal <= maxVal]. *)
Definition clamp_alt (x minVal maxVal : R) : R := Rmax (Rmin x maxVal) minVal.

End Glsl.

(** ** The shader program of [ParticleSystem] *)

Module Shader.

(** Vertex stage: [lifeProgress = mod(time+timeOffset,1.0);]. *)
Definition lifeProgress (time timeOffset : R) : R :=
  Glsl.mod_ (time + timeOffset) 1.0.

(** The fragment coordinate, of which the fragment stage reads [z], [w]. *)
Record FragCoord := { fc_z : R; fc_w : R }.

(** [float depth = gl_FragCoord.z / gl_FragCoord.w / 5.0;] *)
Definition depth (fc : FragCoord) : R := fc_z fc / fc_w fc / 5.0.

(** [float opacity = clamp(0.2, 1.0, depth);] *)
Definition opacity (depth : R) : R := Glsl.clamp 0.2 1.0 depth.

(** [color.a = sin(lifeProgress*100.0)*opacity;] *)
Definition alpha (lifeProgress depth : R) : R :=
  sin (lifeProgress * 100.0) * opacity depth.

(** The whole fragment stage: [gl_FragColor = color] with [color = vColor]
    and the alpha channel overwritten. *)
Definition fragment (vColor : R * R * R * R) (lifeProgress : R) (fc : FragCoord)
  : R * R * R * R :=
  let '(r, g, b, _) := vColor in (r, g, b, alpha lifeProgress (depth fc)).

(** What the specification describes: the depth clamped to [0.2, 1.0]. *)
Definition opacity_spec (depth : R) : R := Glsl.clamp depth 0.2 1.0.

Definition alpha_spec (lifeProgress depth : R) : R :=
  sin (lifeProgress * 100.0) * opacity_spec depth.

End Shader.

(** ** Binary32 arithmetic, as the shader program computes *)

Module Float32.

(** A finite value [mantissa * 2 ^ exponent]. Signed zeros, infinities and
    NaN are not modelled: the sign of a zero is never read, and the
    operations round as if the exponent had no upper bound, which is what
    binary32 does as long as the result stays within [max_value]. *)
Record T := { mantissa : Z; exponent : Z }.

Definition zero : T := {| mantissa := 0; exponent := 0 |}.

Definition one : T := {| mantissa := 1; exponent := 0 |}.

(** The exponent of the smallest subnormal number. *)
Definition emin : Z := -149.



(** The value as a fraction [numerator / denominator] of integers. *)
Definition numerator (x : T) : Z := mantissa x * 2 ^ Z.max 0 (exponent x).

Definition denominator (x : T) : Z := 2 ^ Z.max 0 (- exponent x).


(** The integer nearest to [n / d], for [d > 0]; a tie goes to the even one. *)
Definition round_half_even (n d : Z) : Z :=
  let q := (n / d)%Z in
  match (2 * (n mod d) ?= d)%Z with
  | Lt => q
  | Gt => (q + 1)%Z
  | Eq => if Z.even q then q else (q + 1)%Z
  end.

(** [2 ^ e <= |n| / d], for [d > 0]. *)
Definition at_least_pow2 (n d e : Z) : bool :=
  (d * 2 ^ Z.max 0 e <=? Z.abs n * 2 ^ Z.max 0 (- e))%Z.

(** The exponent of the leading bit of [n / d]: the [e] with
    [2 ^ e <= |n| / d < 2 ^ (e + 1)], for [n <> 0] and [d > 0]. *)
Definition leading_exponent (n d : Z) : Z :=
  let e := (Z.log2 (Z.abs n) - Z.log2 d)%Z in
  if at_least_pow2 n d e then e else (e - 1)%Z.

(** Rounding to nearest, ties to even: the binary32 value nearest to
    [n / d], for [d > 0], with 24 significant bits, or fewer in the
    subnormal range. *)
Definition round (n d : Z) : T :=
  if (n =? 0)%Z then zero
  else
    let e := Z.max (leading_exponent n d - 23) emin in
    {| mantissa := round_half_even (n * 2 ^ Z.max 0 (- e)) (d * 2 ^ Z.max 0 e);
       exponent := e |}.

(** The arithmetic operations: the exact result, rounded. *)
Definition add (x y : T) : T :=
  round (numerator x * denominator y + numerator y * denominator x)
        (denominator x * denominator y).

Definition sub (x y : T) : T :=
  round (numerator x * denominator y - numerator y * denominator x)
        (denominator x * denominator y).

Definition mul (x y : T) : T :=
  round (numerator x * numerator y) (denominator x * denominator y).

(** Division by zero has no finite result. *)
Definition div (x y : T) : option T :=
  if (numerator y =? 0)%Z then None
  else Some (round (Z.sgn (numerator y) * numerator x * denominator y)
                   (Z.abs (numerator y) * denominator x)).

(** [floor(x)]: exact, the integers nearest to a binary32 value being
    binary32 values themselves. *)
Definition floor (x : T) : T :=
  {| mantissa := (numerator x / denominator x)%Z; exponent := 0 |}.

(** [mod(x, y) = x - y * floor(x / y)], each operation rounded. *)
Definition mod_ (x y : T) : option T :=
  match div x y with
  | Some q => Some (sub x (mul y (floor q)))
  | None => None
  end.


Definition leb (x y : T) : bool :=
  (numerator x * denominator y <=? numerator y * denominator x)%Z.



End Float32.

(** ** The vertex stage's phase in binary32 *)

Module Shader32.

(** [lifeProgress = mod(time+timeOffset,1.0);] *)
Definition lifeProgress (time timeOffset : Float32.T) : option Float32.T :=
  Float32.mod_ (Float32.add time timeOffset) Float32.one.

End Shader32.

(** ** The JavaScript runtime the constructors run in *)

Module Js.

Inductive Error :=
| TypeError (msg : string)
| RangeError (msg : string).

(** What a [new] expression allocated; an object's identity is its
    position in the allocation log. *)
Inductive Alloc :=
| AFloat32Array (len : nat)
| AObject (class : string).

Record Runtime := {
  entropy : nat -> R;     (* the values [Math.random()] will return *)
  draws : nat;            (* calls of [Math.random()] made so far *)
  heap : list Alloc       (* allocations made so far, oldest first *)
}.

(** [Math.random()] returns values in [0, 1). *)
Definition entropy_in_range (rt : Runtime) : Prop :=
  forall k : nat, 0 <= entropy rt k < 1.

Definition is_buffer (a : Alloc) : bool :=
  match a with AFloat32Array _ => true | AObject _ => false end.

(** The typed arrays among the allocations. *)
Definition buffers (rt : Runtime) : list Alloc := List.filter is_buffer (heap rt).

(** A computation either returns a value or throws; both leave a state. *)
Inductive Res (St A : Type) :=
| Ok (a : A) (s : St)
| Throw (e : Error) (s : St).
Arguments Ok {St A} a s.
Arguments Throw {St A} e s.

Definition M (St A : Type) : Type := St -> Res St A.

Definition ret {St A} (a : A) : M St A := fun s => Ok a s.

Definition bind {St A B} (m : M St A) (k : A -> M St B) : M St B :=
  fun s => match m s with
           | Ok a s' => k a s'
           | Throw e s' => Throw e s'
           end.

Definition throw {St A} (e : Error) : M St A := fun s => Throw e s.

(** [for (let i = start; i < start + n; i++) a = body(i, a)], the loop
    variables other than [i] carried in [a]. *)
Fixpoint for_ {St A} (body : nat -> A -> M St A) (start n : nat) (a : A) : M St A :=
  match n with
  | O => ret a
  | S n' => bind (body start a) (fun a' => for_ body (S start) n' a')
  end.

Definition gets {St A} (f : St -> A) : M St A := fun s => Ok (f s) s.

Definition modify {St} (f : St -> St) : M St unit := fun s => Ok tt (f s).

(** Reading a property of a reference that may be [undefined]. *)
Definition deref {St A} (o : option A) : M St A :=
  match o with
  | Some a => ret a
  | None => throw (TypeError "Cannot read properties of undefined")
  end.

(** A computation on a part of the state, run on the whole. *)
Definition zoom {St St' A} (get : St -> St') (set : St -> St' -> St) (m : M St' A)
  : M St A :=
  fun s => match m (get s) with
           | Ok a s' => Ok a (set s s')
           | Throw e s' => Throw e (set s s')
           end.

(** Runs [body] on each element in turn. *)
Fixpoint for_each {St A} (body : A -> M St unit) (l : list A) : M St unit :=
  match l with
  | [] => ret tt
  | a :: l' => bind (body a) (fun _ => for_each body l')
  end.

Definition Math_random : M Runtime R :=
  fun rt => Ok (entropy rt (draws rt))
               {| entropy := entropy rt; draws := S (draws rt); heap := heap rt |}.

(** [new C()]: a fresh identity. *)
Definition new_object (class : string) : M Runtime nat :=
  fun rt => Ok (length (heap rt))
               {| entropy := entropy rt; draws := draws rt;
                  heap := heap rt ++ [AObject class] |}.

(** [new Float32Array(len)]: zero-filled; a negative length is a
    [RangeError]. The identity is returned with the contents. *)
Definition new_Float32Array (len : Z) : M Runtime (nat * list R) :=
  fun rt =>
    if (len <? 0)%Z then Throw (RangeError "Invalid typed array length") rt
    else Ok (length (heap rt), replicate (Z.to_nat len) 0)
            {| entropy := entropy rt; draws := draws rt;
               heap := heap rt ++ [AFloat32Array (Z.to_nat len)] |}.

End Js.

Notation "'do' x <- m ; k" := (Js.bind m (fun x => k))
  (at level 10, x pattern, m at level 100, k at level 200, only parsing).

(** ** The parts of three.js the constructor uses *)

Module Three.

(** [BufferAttribute] / [InstancedBufferAttribute]: a flat typed array
    read in groups of [itemSize]. *)
Record BufferAttribute := {
  array_id : nat;
  array : list R;
  itemSize : nat;
  meshPerAttribute : option nat   (* [Some _] for the instanced kind *)
}.

(** [this.count = array.length / itemSize]. *)
Definition count (attr : BufferAttribute) : nat :=
  (length (array attr) / itemSize attr)%nat.

Definition with_array (attr : BufferAttribute) (a : list R) : BufferAttribute :=
  {| array_id := array_id attr; array := a; itemSize := itemSize attr;
     meshPerAttribute := meshPerAttribute attr |}.

(** Writes to a typed array past its end are ignored, as list insertion
    out of range is. *)
Definition setX (attr : BufferAttribute) (index : nat) (x : R) : BufferAttribute :=
  with_array attr (<[(index * itemSize attr)%nat := x]> (array attr)).

Definition setXYZ (attr : BufferAttribute) (index : nat) (x y z : R) : BufferAttribute :=
  let index := (index * itemSize attr)%nat in
  with_array attr
    (<[(index + 2)%nat := z]> (<[(index + 1)%nat := y]> (<[(index + 0)%nat := x]> (array attr)))).

Definition setXYZW (attr : BufferAttribute) (index : nat) (x y z w : R) : BufferAttribute :=
  let index := (index * itemSize attr)%nat in
  with_array attr
    (<[(index + 3)%nat := w]> (<[(index + 2)%nat := z]>
      (<[(index + 1)%nat := y]> (<[(index + 0)%nat := x]> (array attr))))).

(** [getX], ..., [getW]: component [k] of entry [index]; reading past the
    end gives [undefined]. *)
Definition get (attr : BufferAttribute) (index k : nat) : option R :=
  array attr !! (index * itemSize attr + k)%nat.

(** [Color.setHex]: the three bytes of the code, scaled to [0, 1]. *)
Record Color := { r : R; g : R; b : R }.

Definition setHex (hex : Z) : Color :=
  {| r := IZR (Z.land (Z.shiftr hex 16) 255) / 255;
     g := IZR (Z.land (Z.shiftr hex 8) 255) / 255;
     b := IZR (Z.land hex 255) / 255 |}.

(** [Vector4]. *)
Record Vector4 := { x : R; y : R; z : R; w : R }.

Definition length4 (v : Vector4) : R :=
  sqrt (x v * x v + y v * y v + z v * z v + w v * w v).

Definition multiplyScalar (v : Vector4) (s : R) : Vector4 :=
  {| x := x v * s; y := y v * s; z := z v * s; w := w v * s |}.

Definition divideScalar (v : Vector4) (s : R) : Vector4 := multiplyScalar v (1 / s).

(** [normalize() { return this.divideScalar(this.length() || 1); }]:
    a zero vector is left as it is. *)
Definition normalize (v : Vector4) : Vector4 :=
  divideScalar v (if Req_dec_T (length4 v) 0 then 1 else length4 v).

Inductive Side := FrontSide | BackSide | DoubleSide.

Record Uniforms := { u_time : R; u_sineTime : R }.

Record Material := {
  material_id : nat;
  uniforms : Uniforms;
  side : Side;
  transparent : bool
}.

Record Geometry := {
  geometry_id : nat;
  attributes : gmap string BufferAttribute
}.

(** [geometry.addAttribute(name, attribute)]. *)
Definition addAttribute (geo : Geometry) (name : string) (attr : BufferAttribute)
  : Geometry :=
  {| geometry_id := geometry_id geo; attributes := <[name := attr]> (attributes geo) |}.

Record Mesh := {
  mesh_id : nat;
  geometry : Geometry;
  material : Material;
  frustumCulled : bool;
  position_y : R
}.

Definition new_BufferAttribute (len : Z) (itemSize : nat)
  : Js.M Js.Runtime BufferAttribute :=
  do (id, arr) <- Js.new_Float32Array len;
  Js.ret {| array_id := id; array := arr; itemSize := itemSize;
            meshPerAttribute := None |}.

Definition new_InstancedBufferAttribute (len : Z) (itemSize : nat) (meshPerAttribute : nat)
  : Js.M Js.Runtime BufferAttribute :=
  do (id, arr) <- Js.new_Float32Array len;
  Js.ret {| array_id := id; array := arr; itemSize := itemSize;
            meshPerAttribute := Some meshPerAttribute |}.

End Three.

(** ** The particle-system entity of [RoboticsScene] *)

Module ParticleSystem.
Import Three.

(** The two palettes held in the [green] and [orange] refs. *)
Record Palette := {
  mainColor : Z; mainEmissive : Z;
  secondaryColor : Z; secondaryEmissive : Z;
  detailColor : Z; detailEmissive : Z
}.

Definition green : Palette :=
  {| mainColor := 0x8eb934; mainEmissive := 0;
     secondaryColor := 0xfec23e; secondaryEmissive := 0;
     detailColor := 0xfec23e; detailEmissive := 0 |}.

Definition orange : Palette :=
  {| mainColor := 0xfec23e; mainEmissive := 0;
     secondaryColor := 0x8eb934; secondaryEmissive := 0;
     detailColor := 0x8eb934; detailEmissive := 0 |}.

Record T := { time : R; mesh : Mesh }.

(** [classCallCheck(this, ParticleSystem)]; [instance_of] is whether
    [this instanceof ParticleSystem], which [new] makes true. *)
Definition classCallCheck (instance_of : bool) : Js.M Js.Runtime unit :=
  if instance_of then Js.ret tt else Js.throw (Js.TypeError "Class already exists.").

(** A random 4-vector with components in [-1, 1), normalised. *)
Definition random_orientation : Js.M Js.Runtime Vector4 :=
  do x <- Js.Math_random;
  do y <- Js.Math_random;
  do z <- Js.Math_random;
  do w <- Js.Math_random;
  Js.ret (normalize {| x := x * 2 - 1; y := y * 2 - 1; z := z * 2 - 1; w := w * 2 - 1 |}).

(** The loop filling [orientationsStart], and again [orientationsEnd]. *)
Definition fill_orientations (attr : BufferAttribute) : Js.M Js.Runtime BufferAttribute :=
  Js.for_ (fun i attr =>
             do vector <- random_orientation;
             Js.ret (setXYZW attr i (x vector) (y vector) (z vector) (w vector)))
          0 (count attr) attr.

(** The constructor body, with the local constant [instances] (2000 in
    the source) taken as an argument. *)
Definition construct (instance_of : bool) (instances : Z) : Js.M Js.Runtime T :=
  do _ <- classCallCheck instance_of;
  let this_time := 0.0 in
  let triangles := 1%Z in
  do gid <- Js.new_object "InstancedBufferGeometry";
  let geometry := {| geometry_id := gid; attributes := ∅ |} in

  do vertices <- new_BufferAttribute (triangles * 3 * 3) 3;
  let unit := 0.055 in
  let vertices := setXYZ vertices 0 unit (- unit) 0 in
  let vertices := setXYZ vertices 1 (- unit) unit 0 in
  let vertices := setXYZ vertices 2 0 0 unit in
  let geometry := addAttribute geometry "position" vertices in

  do offsets <- new_InstancedBufferAttribute (instances * 3) 3 1;
  do offsets <-
    (let dist := 60 in
     Js.for_ (fun i offsets =>
                do x <- Js.Math_random;
                do y <- Js.Math_random;
                do z <- Js.Math_random;
                Js.ret (setXYZ offsets i ((x - 0.5) * dist) ((y - 0.5) * dist)
                               ((z - 0.5) * dist)))
             0 (count offsets) offsets);
  let geometry := addAttribute geometry "offset" offsets in

  do colors <- new_InstancedBufferAttribute (instances * 4) 4 1;
  do _threeColor <- Js.new_object "Color";
  do (_, colors) <-
    Js.for_ (fun _i '(count, colors) =>
               if (count =? 1)%Z then
                 let c := setHex (mainColor green) in
                 Js.ret (0%Z, setXYZW colors _i (r c) (g c) (b c) 1)
               else
                 let c := setHex (mainColor orange) in
                 Js.ret (1%Z, setXYZW colors _i (r c) (g c) (b c) 1))
            0 (Three.count colors) (1%Z, colors);
  let geometry := addAttribute geometry "color" colors in

  do timeOffsets <- new_InstancedBufferAttribute (instances * 1) 1 1;
  do timeOffsets <-
    Js.for_ (fun _i2 timeOffsets =>
               do x <- Js.Math_random;
               Js.ret (setX timeOffsets _i2 x))
            0 (count timeOffsets) timeOffsets;
  let geometry := addAttribute geometry "timeOffset" timeOffsets in

  do _vector <- Js.new_object "Vector4";
  do orientationsStart <- new_InstancedBufferAttribute (instances * 4) 4 1;
  do orientationsStart <- fill_orientations orientationsStart;
  let geometry := addAttribute geometry "orientationStart" orientationsStart in

  do orientationsEnd <- new_InstancedBufferAttribute (instances * 4) 4 1;
  do orientationsEnd <- fill_orientations orientationsEnd;
  let geometry := addAttribute geometry "orientationEnd" orientationsEnd in

  do mat_id <- Js.new_object "RawShaderMaterial";
  let material :=
    {| material_id := mat_id;
       uniforms := {| u_time := 5.0; u_sineTime := 5.0 |};
       side := DoubleSide; transparent := true |} in

  do m_id <- Js.new_object "Mesh";
  let mesh :=
    {| mesh_id := m_id; geometry := geometry; material := material;
       frustumCulled := false; position_y := 0 |} in
  Js.ret {| time := this_time; mesh := mesh |}.

(** [new ParticleSystem()]. *)
Definition new : Js.M Js.Runtime T := construct true 2000.

Definition set_uniform_time (m : Mesh) (v : R) : Mesh :=
  {| mesh_id := mesh_id m; geometry := geometry m;
     material :=
       {| material_id := material_id (material m);
          uniforms := {| u_time := v; u_sineTime := u_sineTime (uniforms (material m)) |};
          side := side (material m); transparent := transparent (material m) |};
     frustumCulled := frustumCulled m; position_y := position_y m |}.

(** [update(dt) { this.time += 0.0001;
     this.mesh.material.uniforms.time.value = Math.sin(this.time); }] *)
Definition update (dt : R) (this : T) : T :=
  let time' := time this + 0.0001 in
  {| time := time'; mesh := set_uniform_time (mesh this) (sin time') |}.

(** Successive frames, each with its own [dt]. *)
Definition updates (dts : list R) (this : T) : T :=
  fold_left (fun ps dt => update dt ps) dts this.

(** The published [time] uniform. *)
Definition time_uniform (this : T) : R := u_time (uniforms (material (mesh this))).

(** The per-instance attribute [name] of the geometry. *)
Definition attribute (this : T) (name : string) : option BufferAttribute :=
  attributes (geometry (mesh this)) !! name.

(** Entry [i] of a 4-component attribute. *)
Definition quaternion (attr : BufferAttribute) (i : nat) : option Vector4 :=
  match get attr i 0, get attr i 1, get attr i 2, get attr i 3 with
  | Some x, Some y, Some z, Some w => Some {| x := x; y := y; z := z; w := w |}
  | _, _, _, _ => None
  end.

End ParticleSystem.

(** ** The host: window, frame pacing and the calls made on three.js objects *)

Module Host.

(** The calls on the renderer and camera worth observing, and markers
    for the entry and return of the resize routines. *)
Inductive Call :=
| SetSize (renderer : nat) (w h : Z)
| UpdateProjectionMatrix (camera : nat)
| Render (renderer scene camera : nat)
| Enter (routine : string)
| Leave (routine : string).

Definition is_render (c : Call) : bool :=
  match c with Render _ _ _ => true | _ => false end.

Definition is_enter (c : Call) : bool :=
  match c with Enter _ => true | _ => false end.

Definition is_leave (c : Call) : bool :=
  match c with Leave _ => true | _ => false end.

(** How many calls of a kind a log holds. *)
Definition count_calls (p : Call -> bool) (l : list Call) : nat :=
  length (List.filter p l).

(** The calls made after the first return of a resize routine. *)
Fixpoint after_first_leave (l : list Call) : list Call :=
  match l with
  | [] => []
  | c :: l' => if is_leave c then l' else after_first_leave l'
  end.

(** [Cb] is the type of the closures handed to [requestAnimationFrame]. *)
Record T (Cb : Type) := {
  rt : Js.Runtime;
  now : R;                         (* the host clock, in milliseconds *)
  innerWidth : Z;
  innerHeight : Z;
  devicePixelRatio : R;
  raf_queue : list (nat * Cb);     (* pending ticks: handle and closure *)
  raf_next : nat;                  (* the next handle to hand out *)
  calls : list Call                (* oldest first *)
}.
Arguments rt {Cb}. Arguments now {Cb}. Arguments innerWidth {Cb}.
Arguments innerHeight {Cb}. Arguments devicePixelRatio {Cb}.
Arguments raf_queue {Cb}. Arguments raf_next {Cb}. Arguments calls {Cb}.

Section Ops.
Context {Cb : Type}.

Definition set_rt (h : T Cb) (rt' : Js.Runtime) : T Cb :=
  {| rt := rt'; now := now h; innerWidth := innerWidth h; innerHeight := innerHeight h;
     devicePixelRatio := devicePixelRatio h; raf_queue := raf_queue h;
     raf_next := raf_next h; calls := calls h |}.

Definition set_now (h : T Cb) (t : R) : T Cb :=
  {| rt := rt h; now := t; innerWidth := innerWidth h; innerHeight := innerHeight h;
     devicePixelRatio := devicePixelRatio h; raf_queue := raf_queue h;
     raf_next := raf_next h; calls := calls h |}.

Definition set_window (h : T Cb) (w' h' : Z) : T Cb :=
  {| rt := rt h; now := now h; innerWidth := w'; innerHeight := h';
     devicePixelRatio := devicePixelRatio h; raf_queue := raf_queue h;
     raf_next := raf_next h; calls := calls h |}.

Definition set_raf (h : T Cb) (q : list (nat * Cb)) (next : nat) : T Cb :=
  {| rt := rt h; now := now h; innerWidth := innerWidth h; innerHeight := innerHeight h;
     devicePixelRatio := devicePixelRatio h; raf_queue := q;
     raf_next := next; calls := calls h |}.

Definition add_call (h : T Cb) (c : Call) : T Cb :=
  {| rt := rt h; now := now h; innerWidth := innerWidth h; innerHeight := innerHeight h;
     devicePixelRatio := devicePixelRatio h; raf_queue := raf_queue h;
     raf_next := raf_next h; calls := calls h ++ [c] |}.

(** A host on which nothing was scheduled or called yet. *)
Definition fresh (rt : Js.Runtime) (now : R) (w h : Z) (ratio : R) : T Cb :=
  {| rt := rt; now := now; innerWidth := w; innerHeight := h;
     devicePixelRatio := ratio; raf_queue := []; raf_next := 1; calls := [] |}.

(** [requestAnimationFrame(cb)]: queues the closure, returns its handle. *)
Definition requestAnimationFrame (cb : Cb) (h : T Cb) : nat * T Cb :=
  (raf_next h, set_raf h (raf_queue h ++ [(raf_next h, cb)]) (S (raf_next h))).

(** [cancelAnimationFrame(handle)]: drops the tick with that handle;
    [undefined] or a handle no longer pending changes nothing, and
    no call of it throws. *)
Definition cancelAnimationFrame (handle : option nat) (h : T Cb) : T Cb :=
  match handle with
  | None => h
  | Some n =>
      set_raf h (List.filter (fun e => negb (Nat.eqb (fst e) n)) (raf_queue h))
              (raf_next h)
  end.

End Ops.

(** The objects of three.js a scene view holds. *)
Inductive Matrix4 :=
| makePerspective (fov aspect near far : R).

Record Camera := {
  camera_id : nat;
  fov : R; aspect : R; near : R; far : R;
  position : R * R * R;
  projectionMatrix : Matrix4
}.

(** [new PerspectiveCamera(fov, aspect, near, far)], which computes the
    projection once. *)
Definition PerspectiveCamera (id : nat) (fov aspect near far : R) : Camera :=
  {| camera_id := id; fov := fov; aspect := aspect; near := near; far := far;
     position := (0, 0, 0);
     projectionMatrix := makePerspective fov aspect near far |}.

Definition set_position (c : Camera) (p : R * R * R) : Camera :=
  {| camera_id := camera_id c; fov := fov c; aspect := aspect c; near := near c;
     far := far c; position := p; projectionMatrix := projectionMatrix c |}.

Definition set_aspect (c : Camera) (a : R) : Camera :=
  {| camera_id := camera_id c; fov := fov c; aspect := a; near := near c;
     far := far c; position := position c; projectionMatrix := projectionMatrix c |}.

Definition updateProjectionMatrix (c : Camera) : Camera :=
  {| camera_id := camera_id c; fov := fov c; aspect := aspect c; near := near c;
     far := far c; position := position c;
     projectionMatrix := makePerspective (fov c) (aspect c) (near c) (far c) |}.

Record Renderer := {
  renderer_id : nat;
  domElement : nat;
  pixelRatio : R;
  clearColor : option Z;
  size : Z * Z
}.

Definition setSize (r : Renderer) (w h : Z) : Renderer :=
  {| renderer_id := renderer_id r; domElement := domElement r;
     pixelRatio := pixelRatio r; clearColor := clearColor r; size := (w, h) |}.

Inductive Light :=
| AmbientLight (id : nat) (color : Z) (intensity : R)
| DirectionalLight (id : nat) (color : Z) (intensity : R) (position : R * R * R).

Definition light_id (l : Light) : nat :=
  match l with AmbientLight id _ _ => id | DirectionalLight id _ _ _ => id end.

Inductive Child :=
| ChildLight (l : Light)
| ChildMesh (mesh : nat)
| ChildModel (model : nat).

Definition child_light (c : Child) : option Light :=
  match c with ChildLight l => Some l | _ => None end.

Record Scene := {
  scene_id : nat;
  children : list Child;
  background : option nat;       (* the [Color] object, by identity *)
  environment : option nat
}.

Definition add (s : Scene) (c : Child) : Scene :=
  {| scene_id := scene_id s; children := children s ++ [c];
     background := background s; environment := environment s |}.

(** The lights attached to a scene. *)
Definition scene_lights (s : Scene) : list Light :=
  omap child_light (children s).

End Host.

(** ** [RoboticsScene]: the particle background *)

Module RoboticsScene.
Import Host.

Inductive ThemeId := dark | light.

#[export] Instance ThemeId_eq_dec : EqDecision ThemeId.
Proof. solve_decision. Defined.

Record Theme := { id : ThemeId; colorPrimary : Z; colorBackground : Z }.

#[export] Instance Theme_eq_dec : EqDecision Theme.
Proof. solve_decision. Defined.

(** What the component reads on a render: the theme table of
    [utils/Theme], the theme of the context and the motion preference. *)
Record Props := {
  theme : ThemeId -> Theme;
  currentTheme : Theme;
  prefersReducedMotion : bool
}.

(** [Clock] of three.js. *)
Record Clock := { running : bool; oldTime : R; elapsedTime : R }.

(** The closure handed to [requestAnimationFrame]: [render], which
    captures the clock of its effect run. *)
Inductive Closure :=
| render_closure (clock : nat).

Record World := {
  host : Host.T Closure;
  container : list nat;          (* the canvases appended to the container *)
  resize_listeners : nat;        (* [handleWindowResize] closures on [window] *)
  clocks : list Clock;
  width : Z;                     (* the refs of the component *)
  height : Z;
  scene : option Scene;
  camera : option Camera;
  renderer : option Renderer;
  particles : option ParticleSystem.T
}.

Definition set_host (w : World) (h : Host.T Closure) : World :=
  {| host := h; container := container w; resize_listeners := resize_listeners w;
     clocks := clocks w; width := width w; height := height w; scene := scene w;
     camera := camera w; renderer := renderer w; particles := particles w |}.

Definition set_container (w : World) (c : list nat) : World :=
  {| host := host w; container := c; resize_listeners := resize_listeners w;
     clocks := clocks w; width := width w; height := height w; scene := scene w;
     camera := camera w; renderer := renderer w; particles := particles w |}.

Definition set_resize_listeners (w : World) (n : nat) : World :=
  {| host := host w; container := container w; resize_listeners := n;
     clocks := clocks w; width := width w; height := height w; scene := scene w;
     camera := camera w; renderer := renderer w; particles := particles w |}.

Definition set_clocks (w : World) (c : list Clock) : World :=
  {| host := host w; container := container w; resize_listeners := resize_listeners w;
     clocks := c; width := width w; height := height w; scene := scene w;
     camera := camera w; renderer := renderer w; particles := particles w |}.

Definition set_width_height (w : World) (w' h' : Z) : World :=
  {| host := host w; container := container w; resize_listeners := resize_listeners w;
     clocks := clocks w; width := w'; height := h'; scene := scene w;
     camera := camera w; renderer := renderer w; particles := particles w |}.

Definition set_scene (w : World) (s : Scene) : World :=
  {| host := host w; container := container w; resize_listeners := resize_listeners w;
     clocks := clocks w; width := width w; height := height w; scene := Some s;
     camera := camera w; renderer := renderer w; particles := particles w |}.

Definition set_camera (w : World) (c : Camera) : World :=
  {| host := host w; container := container w; resize_listeners := resize_listeners w;
     clocks := clocks w; width := width w; height := height w; scene := scene w;
     camera := Some c; renderer := renderer w; particles := particles w |}.

Definition set_renderer (w : World) (r : Renderer) : World :=
  {| host := host w; container := container w; resize_listeners := resize_listeners w;
     clocks := clocks w; width := width w; height := height w; scene := scene w;
     camera := camera w; renderer := Some r; particles := particles w |}.

Definition set_particles (w : World) (p : ParticleSystem.T) : World :=
  {| host := host w; container := container w; resize_listeners := resize_listeners w;
     clocks := clocks w; width := width w; height := height w; scene := scene w;
     camera := camera w; renderer := renderer w; particles := Some p |}.

(** The component before its first effects: the refs [width] and [height]
    hold the window size, the others are [undefined]. *)
Definition initial (h : Host.T Closure) : World :=
  {| host := h; container := []; resize_listeners := 0; clocks := [];
     width := innerWidth h; height := innerHeight h;
     scene := None; camera := None; renderer := None; particles := None |}.

Definition in_runtime {A} (m : Js.M Js.Runtime A) : Js.M World A :=
  Js.zoom (fun w => rt (host w)) (fun w rt' => set_host w (set_rt (host w) rt')) m.

Definition new_object (class : string) : Js.M World nat :=
  in_runtime (Js.new_object class).

Definition log (c : Call) : Js.M World unit :=
  Js.modify (fun w => set_host w (add_call (host w) c)).

(** First effect, which has no dependency list:
    [particles.current = new ParticleSystem()]. *)
Definition particles_effect : Js.M World unit :=
  do ps <- in_runtime ParticleSystem.new;
  Js.modify (fun w => set_particles w ps).

(** Second effect, on [currentTheme]: builds scene, camera, renderer and
    lights and attaches the particle mesh. *)
Definition scene_effect (p : Props) : Js.M World unit :=
  do sid <- new_object "Scene";
  do _ <- Js.modify (fun w => set_scene w
            {| scene_id := sid; children := []; background := None; environment := None |});

  do cid <- new_object "PerspectiveCamera";
  do wd <- Js.gets width;
  do ht <- Js.gets height;
  do _ <- Js.modify (fun w => set_camera w
            (set_position (PerspectiveCamera cid 60 (IZR wd / IZR ht) 0.1 60) (0, 1.7, 0.5)));

  do rid <- new_object "WebGLRenderer";
  do canvas <- new_object "canvas";
  do ratio <- Js.gets (fun w => devicePixelRatio (host w));
  do _ <- Js.modify (fun w => set_renderer w
            {| renderer_id := rid; domElement := canvas; pixelRatio := ratio;
               clearColor := Some (colorBackground (currentTheme p)); size := (wd, ht) |});
  do _ <- log (SetSize rid wd ht);
  do _ <- Js.modify (fun w => set_container w (container w ++ [canvas]));

  do ambient <- new_object "AmbientLight";
  let ambientLight := AmbientLight ambient (colorPrimary (currentTheme p)) 1.0 in
  do s <- Js.gets scene;
  do s <- Js.deref s;
  do _ <- Js.modify (fun w => set_scene w (add s (ChildLight ambientLight)));

  do directional <- new_object "DirectionalLight";
  let directionalLight :=
    DirectionalLight directional
      (if decide (id (currentTheme p) = dark)
       then colorBackground (theme p light) else colorBackground (theme p dark))
      1 (-1 / sqrt 3, -1 / sqrt 3, -1 / sqrt 3) in
  do s <- Js.gets scene;
  do s <- Js.deref s;
  do _ <- Js.modify (fun w => set_scene w (add s (ChildLight directionalLight)));

  do ps <- Js.gets particles;
  do ps <- Js.deref ps;
  let m := ParticleSystem.mesh ps in
  let m := {| Three.mesh_id := Three.mesh_id m; Three.geometry := Three.geometry m;
              Three.material := Three.material m;
              Three.frustumCulled := Three.frustumCulled m; Three.position_y := 4 |} in
  do _ <- Js.modify (fun w => set_particles w
            {| ParticleSystem.time := ParticleSystem.time ps; ParticleSystem.mesh := m |});
  do s <- Js.gets scene;
  do s <- Js.deref s;
  Js.modify (fun w => set_scene w (add s (ChildMesh (Three.mesh_id m)))).

(** [handleWindowResize]. *)
Definition handleWindowResize : Js.M World unit :=
  do _ <- log (Enter "handleWindowResize");
  do _ <- Js.modify (fun w => set_width_height w (innerWidth (host w)) (innerHeight (host w)));
  do wd <- Js.gets width;
  do ht <- Js.gets height;
  do r <- Js.gets renderer;
  do r <- Js.deref r;
  do _ <- Js.modify (fun w => set_renderer w (setSize r wd ht));
  do _ <- log (SetSize (renderer_id r) wd ht);
  do c <- Js.gets camera;
  do c <- Js.deref c;
  do _ <- Js.modify (fun w => set_camera w (updateProjectionMatrix (set_aspect c (IZR wd / IZR ht))));
  do _ <- log (UpdateProjectionMatrix (camera_id c));
  log (Leave "handleWindowResize").

(** Third effect, on [prefersReducedMotion]: registers the resize
    listener, and only when motion is not reduced. *)
Definition resize_effect (p : Props) : Js.M World unit :=
  if negb (prefersReducedMotion p)
  then Js.modify (fun w => set_resize_listeners w (S (resize_listeners w)))
  else Js.ret tt.

(** [clock.getDelta()], in seconds. *)
Definition getDelta (k : nat) : Js.M World R :=
  do c <- Js.gets (fun w => clocks w !! k);
  do c <- Js.deref c;
  do t <- Js.gets (fun w => now (host w));
  if running c then
    let diff := (t - oldTime c) / 1000 in
    do _ <- Js.modify (fun w => set_clocks w
              (<[k := {| running := true; oldTime := t; elapsedTime := elapsedTime c + diff |}]>
                 (clocks w)));
    Js.ret diff
  else
    do _ <- Js.modify (fun w => set_clocks w
              (<[k := {| running := true; oldTime := t; elapsedTime := 0 |}]> (clocks w)));
    Js.ret 0.

(** The tick [render] of the fourth effect. *)
Definition render (clock : nat) : Js.M World unit :=
  do delta <- getDelta clock;
  do ps <- Js.gets particles;
  do ps <- Js.deref ps;
  do _ <- Js.modify (fun w => set_particles w (ParticleSystem.update delta ps));
  do r <- Js.gets renderer;
  do r <- Js.deref r;
  do s <- Js.gets scene;
  do s <- Js.deref s;
  do c <- Js.gets camera;
  do c <- Js.deref c;
  do _ <- log (Render (renderer_id r) (scene_id s) (camera_id c));
  Js.modify (fun w => set_host w (snd (requestAnimationFrame (render_closure clock) (host w)))).

(** Fourth effect, on [prefersReducedMotion]: a new clock, and the first
    tick when motion is not reduced. It returns no cleanup. *)
Definition render_effect (p : Props) : Js.M World unit :=
  do clock <- Js.gets (fun w => length (clocks w));
  do _ <- Js.modify (fun w => set_clocks w
            (clocks w ++ [{| running := false; oldTime := 0; elapsedTime := 0 |}]));
  if negb (prefersReducedMotion p) then render clock else Js.ret tt.

(** The effects of the first render, in the order they are declared. *)
Definition mount (p : Props) : Js.M World unit :=
  do _ <- particles_effect;
  do _ <- scene_effect p;
  do _ <- resize_effect p;
  render_effect p.

(** The effects of a later render: the first always, the others when a
    dependency changed. No effect of this component has a cleanup. *)
Definition rerender (old new : Props) : Js.M World unit :=
  do _ <- particles_effect;
  do _ <- (if decide (currentTheme old = currentTheme new)
           then Js.ret tt else scene_effect new);
  if decide (prefersReducedMotion old = prefersReducedMotion new)
  then Js.ret tt
  else (do _ <- resize_effect new; render_effect new).

(** What the host does to a mounted component. *)
Inductive Event :=
| Resize (w h : Z)       (* the window takes a new size *)
| Frame (t : R).         (* a paint opportunity at time [t] *)

Definition run_closure (c : Closure) : Js.M World unit :=
  match c with render_closure clock => render clock end.

Definition dispatch (e : Event) : Js.M World unit :=
  match e with
  | Resize w' h' =>
      do _ <- Js.modify (fun w => set_host w (set_window (host w) w' h'));
      do n <- Js.gets resize_listeners;
      Js.for_ (fun _ _ => handleWindowResize) 0 n tt
  | Frame t =>
      do _ <- Js.modify (fun w => set_host w (set_now (host w) t));
      do q <- Js.gets (fun w => raf_queue (host w));
      do _ <- Js.modify (fun w => set_host w (set_raf (host w) [] (raf_next (host w))));
      Js.for_each (fun e => run_closure (snd e)) q
  end.

(** The loop is running when a tick is pending. *)
Definition running_loop (w : World) : bool :=
  match raf_queue (host w) with [] => false | _ => true end.

End RoboticsScene.

(** ** [Portrait]: the lit portrait view *)

Module Portrait.
Import Host.

Inductive ThemeId := dark | light.

#[export] Instance ThemeId_eq_dec : EqDecision ThemeId.
Proof. solve_decision. Defined.

(** What the component reads on a render: the three values of [useTheme]
    it uses, the motion preference and the visibility of the canvas. *)
Record Props := {
  colorWhite : Z;
  themeId : ThemeId;
  rgbBackgroundLight : Z;
  prefersReducedMotion : bool;
  isInViewport : bool
}.

(** The closure handed to [requestAnimationFrame]: [animate]. *)
Inductive Closure :=
| animate_closure.

Record World := {
  host : Host.T Closure;
  clientWidth : Z;               (* the size of the container element *)
  clientHeight : Z;
  resize_listeners : list bool;  (* [handleResize] closures on [window], each
                                    with the motion preference it captured *)
  mousemove_listeners : nat;
  renderer : option Renderer;    (* the refs of the component *)
  camera : option Camera;
  scene : option Scene;
  lights : option (list Light);
  animation : option nat         (* [let animation] of the live render effect *)
}.

Definition set_host (w : World) (h : Host.T Closure) : World :=
  {| host := h; clientWidth := clientWidth w; clientHeight := clientHeight w;
     resize_listeners := resize_listeners w; mousemove_listeners := mousemove_listeners w;
     renderer := renderer w; camera := camera w; scene := scene w; lights := lights w;
     animation := animation w |}.

Definition set_client_size (w : World) (cw ch : Z) : World :=
  {| host := host w; clientWidth := cw; clientHeight := ch;
     resize_listeners := resize_listeners w; mousemove_listeners := mousemove_listeners w;
     renderer := renderer w; camera := camera w; scene := scene w; lights := lights w;
     animation := animation w |}.

Definition set_resize_listeners (w : World) (l : list bool) : World :=
  {| host := host w; clientWidth := clientWidth w; clientHeight := clientHeight w;
     resize_listeners := l; mousemove_listeners := mousemove_listeners w;
     renderer := renderer w; camera := camera w; scene := scene w; lights := lights w;
     animation := animation w |}.

Definition set_mousemove_listeners (w : World) (n : nat) : World :=
  {| host := host w; clientWidth := clientWidth w; clientHeight := clientHeight w;
     resize_listeners := resize_listeners w; mousemove_listeners := n;
     renderer := renderer w; camera := camera w; scene := scene w; lights := lights w;
     animation := animation w |}.

Definition set_renderer (w : World) (r : Renderer) : World :=
  {| host := host w; clientWidth := clientWidth w; clientHeight := clientHeight w;
     resize_listeners := resize_listeners w; mousemove_listeners := mousemove_listeners w;
     renderer := Some r; camera := camera w; scene := scene w; lights := lights w;
     animation := animation w |}.

Definition set_camera (w : World) (c : Camera) : World :=
  {| host := host w; clientWidth := clientWidth w; clientHeight := clientHeight w;
     resize_listeners := resize_listeners w; mousemove_listeners := mousemove_listeners w;
     renderer := renderer w; camera := Some c; scene := scene w; lights := lights w;
     animation := animation w |}.

Definition set_scene (w : World) (s : Scene) : World :=
  {| host := host w; clientWidth := clientWidth w; clientHeight := clientHeight w;
     resize_listeners := resize_listeners w; mousemove_listeners := mousemove_listeners w;
     renderer := renderer w; camera := camera w; scene := Some s; lights := lights w;
     animation := animation w |}.

Definition set_lights (w : World) (l : list Light) : World :=
  {| host := host w; clientWidth := clientWidth w; clientHeight := clientHeight w;
     resize_listeners := resize_listeners w; mousemove_listeners := mousemove_listeners w;
     renderer := renderer w; camera := camera w; scene := scene w; lights := Some l;
     animation := animation w |}.

Definition set_animation (w : World) (a : option nat) : World :=
  {| host := host w; clientWidth := clientWidth w; clientHeight := clientHeight w;
     resize_listeners := resize_listeners w; mousemove_listeners := mousemove_listeners w;
     renderer := renderer w; camera := camera w; scene := scene w; lights := lights w;
     animation := a |}.

(** The component before its first effects, in a container of the given size. *)
Definition initial (h : Host.T Closure) (cw ch : Z) : World :=
  {| host := h; clientWidth := cw; clientHeight := ch;
     resize_listeners := []; mousemove_listeners := 0;
     renderer := None; camera := None; scene := None; lights := None;
     animation := None |}.

Definition new_object (class : string) : Js.M World nat :=
  Js.zoom (fun w => rt (host w)) (fun w rt' => set_host w (set_rt (host w) rt'))
          (Js.new_object class).

Definition log (c : Call) : Js.M World unit :=
  Js.modify (fun w => set_host w (add_call (host w) c)).

(** [renderer.current.render(scene.current, camera.current)]. *)
Definition render : Js.M World unit :=
  do r <- Js.gets renderer;
  do r <- Js.deref r;
  do s <- Js.gets scene;
  do s <- Js.deref s;
  do c <- Js.gets camera;
  do c <- Js.deref c;
  log (Render (renderer_id r) (scene_id s) (camera_id c)).

(** Init effect, with an empty dependency list. The two loaders it starts
    finish later, as the events [EnvLoaded] and [ModelLoaded]. *)
Definition init_effect : Js.M World unit :=
  do cw <- Js.gets clientWidth;
  do ch <- Js.gets clientHeight;
  do rid <- new_object "WebGLRenderer";
  do canvas <- new_object "canvas";
  do _ <- Js.modify (fun w => set_renderer w
            {| renderer_id := rid; domElement := canvas; pixelRatio := 2;
               clearColor := None; size := (cw, ch) |});
  do _ <- log (SetSize rid cw ch);
  do cid <- new_object "PerspectiveCamera";
  do _ <- Js.modify (fun w => set_camera w
            (set_position (PerspectiveCamera cid 45 (IZR cw / IZR ch) 0.1 800) (0, 0, 2)));
  do sid <- new_object "Scene";
  do _ <- Js.modify (fun w => set_scene w
            {| scene_id := sid; children := []; background := None; environment := None |});
  do _envLoader <- new_object "RGBELoader";
  do _modelLoader <- new_object "GLTFLoader";
  Js.ret tt.

(** The callback of [envLoader.load]. *)
Definition env_loaded : Js.M World unit :=
  do _pmrem <- new_object "PMREMGenerator";
  do envMap <- new_object "Texture";
  do s <- Js.gets scene;
  do s <- Js.deref s;
  Js.modify (fun w => set_scene w
    {| scene_id := scene_id s; children := children s; background := background s;
       environment := Some envMap |}).

(** The callback of [modelLoader.load]. *)
Definition model_loaded (model : nat) : Js.M World unit :=
  do s <- Js.gets scene;
  do s <- Js.deref s;
  Js.modify (fun w => set_scene w (add s (ChildModel model))).

(** Lights effect, on [colorWhite], [themeId] and [rgbBackgroundLight]. *)
Definition lights_effect (p : Props) : Js.M World unit :=
  do ambient <- new_object "AmbientLight";
  let ambientLight := AmbientLight ambient (colorWhite p) 0.8 in
  do directional <- new_object "DirectionalLight";
  let dirLight :=
    DirectionalLight directional (colorWhite p)
      (if decide (themeId p = light) then 1.6 else 0.8) (30, 20, 32) in
  do _ <- Js.modify (fun w => set_lights w [ambientLight; dirLight]);
  do color <- new_object "Color";
  do s <- Js.gets scene;
  do s <- Js.deref s;
  do _ <- Js.modify (fun w => set_scene w
            {| scene_id := scene_id s; children := children s; background := Some color;
               environment := environment s |});
  do ls <- Js.gets lights;
  do ls <- Js.deref ls;
  Js.for_each (fun l =>
                 do s <- Js.gets scene;
                 do s <- Js.deref s;
                 Js.modify (fun w => set_scene w (add s (ChildLight l))))
              ls.

(** Modelled from the spec: [removeLights] of [utils/three], which is not
    among the sources. On a theme change the lights are removed and
    recreated: each light of the list leaves the scene it is attached to. *)
Definition removeLights (ls : list Light) : Js.M World unit :=
  Js.modify (fun w =>
    match scene w with
    | None => w
    | Some s =>
        set_scene w
          {| scene_id := scene_id s;
             children :=
               List.filter
                 (fun c => match c with
                           | ChildLight l =>
                               negb (existsb (fun l' => Nat.eqb (light_id l') (light_id l)) ls)
                           | _ => true
                           end)
                 (children s);
             background := background s; environment := environment s |}
    end).

Definition lights_cleanup : Js.M World unit :=
  do ls <- Js.gets lights;
  do ls <- Js.deref ls;
  removeLights ls.

(** [handleResize], which captures the motion preference of its render. *)
Definition handleResize (prefersReducedMotion : bool) : Js.M World unit :=
  do _ <- log (Enter "handleResize");
  do cw <- Js.gets clientWidth;
  do ch <- Js.gets clientHeight;
  do r <- Js.gets renderer;
  do r <- Js.deref r;
  do _ <- Js.modify (fun w => set_renderer w (setSize r cw ch));
  do _ <- log (SetSize (renderer_id r) cw ch);
  do c <- Js.gets camera;
  do c <- Js.deref c;
  do _ <- Js.modify (fun w => set_camera w (updateProjectionMatrix (set_aspect c (IZR cw / IZR ch))));
  do _ <- log (UpdateProjectionMatrix (camera_id c));
  do _ <- (if prefersReducedMotion then render else Js.ret tt);
  log (Leave "handleResize").

(** Resize effect, on [prefersReducedMotion]: registers the listener and
    calls the routine once. *)
Definition resize_effect (p : Props) : Js.M World unit :=
  do _ <- Js.modify (fun w => set_resize_listeners w
            (resize_listeners w ++ [prefersReducedMotion p]));
  handleResize (prefersReducedMotion p).

Fixpoint remove_first (b : bool) (l : list bool) : list bool :=
  match l with
  | [] => []
  | b' :: l' => if Bool.eqb b b' then l' else b' :: remove_first b l'
  end.

Definition resize_cleanup (p : Props) : Js.M World unit :=
  Js.modify (fun w => set_resize_listeners w
    (remove_first (prefersReducedMotion p) (resize_listeners w))).

(** Mouse effect, on [isInViewport] and [prefersReducedMotion]; the spring
    it starts on a mouse move is popmotion's and keeps its own timers. *)
Definition mouse_effect (p : Props) : Js.M World unit :=
  if isInViewport p && negb (prefersReducedMotion p)
  then Js.modify (fun w => set_mousemove_listeners w (S (mousemove_listeners w)))
  else Js.ret tt.

Definition mouse_cleanup : Js.M World unit :=
  Js.modify (fun w => set_mousemove_listeners w (Nat.pred (mousemove_listeners w))).

(** The tick [animate] of the render effect. *)
Definition animate : Js.M World unit :=
  do _ <- Js.modify (fun w =>
            let '(handle, h) := requestAnimationFrame animate_closure (host w) in
            set_animation (set_host w h) (Some handle));
  render.

(** Render effect, on [isInViewport] and [prefersReducedMotion]. *)
Definition render_effect (p : Props) : Js.M World unit :=
  do _ <- Js.modify (fun w => set_animation w None);
  if negb (prefersReducedMotion p) && isInViewport p
  then animate
  else render.

(** The stop operation of the render loop: the cleanup of the render
    effect, [cancelAnimationFrame(animation)]. *)
Definition render_cleanup : Js.M World unit :=
  Js.modify (fun w => set_host w (cancelAnimationFrame (animation w) (host w))).

(** The effects of the first render, in the order they are declared. *)
Definition mount (p : Props) : Js.M World unit :=
  do _ <- init_effect;
  do _ <- lights_effect p;
  do _ <- resize_effect p;
  do _ <- mouse_effect p;
  render_effect p.

Definition lights_changed (old new : Props) : bool :=
  negb (bool_decide (colorWhite old = colorWhite new /\ themeId old = themeId new
                     /\ rgbBackgroundLight old = rgbBackgroundLight new)).

Definition motion_changed (old new : Props) : bool :=
  negb (Bool.eqb (prefersReducedMotion old) (prefersReducedMotion new)).

Definition view_changed (old new : Props) : bool :=
  negb (Bool.eqb (isInViewport old) (isInViewport new)) || motion_changed old new.

Definition when (b : bool) (m : Js.M World unit) : Js.M World unit :=
  if b then m else Js.ret tt.

(** The effects of a later render: for each effect with a changed
    dependency the cleanup of its last run, then the effects themselves. *)
Definition rerender (old new : Props) : Js.M World unit :=
  do _ <- when (lights_changed old new) lights_cleanup;
  do _ <- when (motion_changed old new) (resize_cleanup old);
  do _ <- when (view_changed old new) mouse_cleanup;
  do _ <- when (view_changed old new) render_cleanup;
  do _ <- when (lights_changed old new) (lights_effect new);
  do _ <- when (motion_changed old new) (resize_effect new);
  do _ <- when (view_changed old new) (mouse_effect new);
  when (view_changed old new) (render_effect new).

(** What the host does to a mounted component. *)
Inductive Event :=
| Resize (cw ch : Z)     (* the container takes a new size, the window resizes *)
| Frame (t : R)          (* a paint opportunity at time [t] *)
| EnvLoaded
| ModelLoaded (model : nat).

Definition run_closure (c : Closure) : Js.M World unit :=
  match c with animate_closure => animate end.

Definition dispatch (e : Event) : Js.M World unit :=
  match e with
  | Resize cw ch =>
      do _ <- Js.modify (fun w => set_client_size w cw ch);
      do ls <- Js.gets resize_listeners;
      Js.for_each handleResize ls
  | Frame t =>
      do _ <- Js.modify (fun w => set_host w (set_now (host w) t));
      do q <- Js.gets (fun w => raf_queue (host w));
      do _ <- Js.modify (fun w => set_host w (set_raf (host w) [] (raf_next (host w))));
      Js.for_each (fun e => run_closure (snd e)) q
  | EnvLoaded => env_loaded
  | ModelLoaded model => model_loaded model
  end.

(** The loop is running when a tick is pending. *)
Definition running_loop (w : World) : bool :=
  match raf_queue (host w) with [] => false | _ => true end.

End Portrait.

(** ** The vertex stage of the shader program *)

Module VertexStage.

Record vec3 := { x : R; y : R; z : R }.

Record vec4 := { qx : R; qy : R; qz : R; qw : R }.

(** A [mat4], by rows. *)
Record mat4 := { row0 : vec4; row1 : vec4; row2 : vec4; row3 : vec4 }.

Definition add3 (a b : vec3) : vec3 :=
  {| x := x a + x b; y := y a + y b; z := z a + z b |}.

(** [v * s] for a float [s]. *)
Definition scale3 (v : vec3) (s : R) : vec3 :=
  {| x := x v * s; y := y v * s; z := z v * s |}.

Definition cross (a b : vec3) : vec3 :=
  {| x := y a * z b - z a * y b;
     y := z a * x b - x a * z b;
     z := x a * y b - y a * x b |}.

Definition length3 (v : vec3) : R := sqrt (x v * x v + y v * y v + z v * z v).

(** [q.xyz]. *)
Definition xyz (q : vec4) : vec3 := {| x := qx q; y := qy q; z := qz q |}.

Definition length4 (q : vec4) : R :=
  sqrt (qx q * qx q + qy q * qy q + qz q * qz q + qw q * qw q).

(** [mix(a, b, t) = a * (1 - t) + b * t], by component. *)
Definition mix (a b : vec4) (t : R) : vec4 :=
  {| qx := qx a * (1 - t) + qx b * t; qy := qy a * (1 - t) + qy b * t;
     qz := qz a * (1 - t) + qz b * t; qw := qw a * (1 - t) + qw b * t |}.

(** [normalize(q) = q / length(q)]; GLSL leaves the result for the zero
    vector undefined, and nothing is proved about it there. *)
Definition normalize (q : vec4) : vec4 :=
  {| qx := qx q / length4 q; qy := qy q / length4 q;
     qz := qz q / length4 q; qw := qw q / length4 q |}.

Definition dot4 (a b : vec4) : R :=
  qx a * qx b + qy a * qy b + qz a * qz b + qw a * qw b.

(** [m * v]. *)
Definition mul_vec (m : mat4) (v : vec4) : vec4 :=
  {| qx := dot4 (row0 m) v; qy := dot4 (row1 m) v;
     qz := dot4 (row2 m) v; qw := dot4 (row3 m) v |}.

Definition column (m : mat4) (k : vec4 -> R) : vec4 :=
  {| qx := k (row0 m); qy := k (row1 m); qz := k (row2 m); qw := k (row3 m) |}.

(** [a * b]. *)
Definition mul_mat (a b : mat4) : mat4 :=
  let entry r := {| qx := dot4 r (column b qx); qy := dot4 r (column b qy);
                    qz := dot4 r (column b qz); qw := dot4 r (column b qw) |} in
  {| row0 := entry (row0 a); row1 := entry (row1 a);
     row2 := entry (row2 a); row3 := entry (row3 a) |}.

(** What one vertex of one instance reads. *)
Record Inputs := {
  time : R;                      (* uniforms *)
  modelViewMatrix : mat4;
  projectionMatrix : mat4;
  position : vec3;               (* attributes *)
  offset : vec3;
  color : vec4;
  orientationStart : vec4;
  orientationEnd : vec4;
  timeOffset : R
}.

(** What it writes. *)
Record Outputs := {
  vColor : vec4;
  lifeProgress : R;
  gl_Position : vec4
}.

(** The rotation the stage applies:
    [vcV = cross(o.xyz, v); vcV * (2.0 * o.w) + (cross(o.xyz, vcV) * 2.0 + v)]. *)
Definition rotate (orientation : vec4) (vPosition : vec3) : vec3 :=
  let vcV := cross (xyz orientation) vPosition in
  add3 (scale3 vcV (2.0 * qw orientation))
       (add3 (scale3 (cross (xyz orientation) vcV) 2.0) vPosition).

(** The position before the camera matrices are applied: the value of
    [vPosition] at the end of [main]. *)
Definition vPosition (i : Inputs) : vec3 :=
  let lifeProgress := Glsl.mod_ (time i + timeOffset i) 1.0 in
  let vPosition := add3 (scale3 (offset i) lifeProgress) (position i) in
  let orientation := normalize (mix (orientationStart i) (orientationEnd i) lifeProgress) in
  rotate orientation vPosition.

(** [main] of the vertex shader. *)
Definition main (i : Inputs) : Outputs :=
  let p := vPosition i in
  {| vColor := color i;
     lifeProgress := Glsl.mod_ (time i + timeOffset i) 1.0;
     gl_Position :=
       mul_vec (mul_mat (projectionMatrix i) (modelViewMatrix i))
               {| qx := x p; qy := y p; qz := z p; qw := 1.0 |} |}.

End VertexStage.

(** ** The pointer handler of [Portrait] *)

Module Pointer.

(** The options handed to popmotion's [spring]. *)
Record Spring := {
  from : R * R;
  to : R * R;
  stiffness : R;
  damping : R;
  velocity : R * R;
  restSpeed : R;
  mass : R
}.

(** [position] of [onMouseMove]: the pointer relative to the centre of the
    window, in units of the window size. *)
Definition position (clientX clientY innerWidth innerHeight : R) : R * R :=
  ((clientX - innerWidth / 2) / innerWidth, (clientY - innerHeight / 2) / innerHeight).

(** The spring [onMouseMove] starts: from the current rotation value and
    velocity to the target [{ x: position.y / 2, y: position.x / 2 }]. *)
Definition onMouseMove (clientX clientY innerWidth innerHeight : R)
           (current currentVelocity : R * R) : Spring :=
  let position := position clientX clientY innerWidth innerHeight in
  {| from := current;
     to := (snd position / 2, fst position / 2);
     stiffness := 40;
     damping := 40;
     velocity := currentVelocity;
     restSpeed := 0.00001;
     mass := 1.4 |}.

End Pointer.

(** ** [SceneRoot]: the helper that installs the methods of a class *)

Module SceneRoot.

Section Objects.
(** [V] are the values other than [undefined], [F] the callable ones. *)
Context {V F : Type} `{EqDecision V} `{EqDecision F}.

(** A descriptor object as the helper receives it in [props]: a key and
    the attribute fields that are present. A field that holds [undefined]
    is [Some None] for [value], [get] and [set], and [Some false] for the
    boolean attributes, which the language converts with [ToBoolean]. *)
Record Descriptor := {
  key : string;
  enumerable : option bool;
  configurable : option bool;
  writable : option bool;
  value : option (option V);
  get : option (option F);
  set : option (option F)
}.

(** An own property of an ordinary object. *)
Inductive Property :=
| Data (value : option V) (writable enumerable configurable : bool)
| Accessor (get set : option F) (enumerable configurable : bool).

Definition property_enumerable (p : Property) : bool :=
  match p with Data _ _ e _ => e | Accessor _ _ e _ => e end.

Definition property_configurable (p : Property) : bool :=
  match p with Data _ _ _ c => c | Accessor _ _ _ c => c end.

Record Object := { extensible : bool; own : gmap string Property }.

Definition IsAccessorDescriptor (d : Descriptor) : bool :=
  match get d, set d with None, None => false | _, _ => true end.

Definition IsDataDescriptor (d : Descriptor) : bool :=
  match value d, writable d with None, None => false | _, _ => true end.

(** A field of the descriptor is absent or the same as the attribute. *)
Definition agrees {A} `{EqDecision A} (field : option A) (attribute : A) : bool :=
  match field with None => true | Some a => bool_decide (a = attribute) end.

(** [ValidateAndApplyPropertyDescriptor] of the language: the property
    that results from defining [d] over [current], or [None] when the
    definition is rejected. *)
Definition ValidateAndApplyPropertyDescriptor
           (extensible : bool) (d : Descriptor) (current : option Property)
  : option Property :=
  match current with
  | None =>
      if extensible then
        Some (if IsAccessorDescriptor d
              then Accessor (default None (get d)) (default None (set d))
                            (default false (enumerable d)) (default false (configurable d))
              else Data (default None (value d)) (default false (writable d))
                        (default false (enumerable d)) (default false (configurable d)))
      else None
  | Some (Data v w e c) =>
      if c then
        Some (if IsAccessorDescriptor d
              then Accessor (default None (get d)) (default None (set d))
                            (default e (enumerable d)) (default c (configurable d))
              else Data (default v (value d)) (default w (writable d))
                        (default e (enumerable d)) (default c (configurable d)))
      else if negb (agrees (configurable d) false) || negb (agrees (enumerable d) e)
      then None
      else if IsAccessorDescriptor d then None
      else if w then Some (Data (default v (value d)) (default w (writable d)) e c)
      else if negb (agrees (writable d) false) || negb (agrees (value d) v) then None
      else Some (Data v w e c)
  | Some (Accessor g s e c) =>
      if c then
        Some (if IsDataDescriptor d
              then Data (default None (value d)) (default false (writable d))
                        (default e (enumerable d)) (default c (configurable d))
              else Accessor (default g (get d)) (default s (set d))
                            (default e (enumerable d)) (default c (configurable d)))
      else if negb (agrees (configurable d) false) || negb (agrees (enumerable d) e)
      then None
      else if IsDataDescriptor d then None
      else if negb (agrees (get d) g) || negb (agrees (set d) s) then None
      else Some (Accessor g s e c)
  end.

(** [Object.defineProperty(target, descriptor.key, descriptor)] on an
    ordinary object. *)
Definition defineProperty (d : Descriptor) : Js.M Object unit :=
  fun target =>
    if IsAccessorDescriptor d && IsDataDescriptor d
    then Js.Throw (Js.TypeError "Invalid property descriptor") target
    else match ValidateAndApplyPropertyDescriptor (extensible target) d
                 (own target !! key d) with
         | Some p =>
             Js.Ok tt {| extensible := extensible target;
                         own := <[key d := p]> (own target) |}
         | None => Js.Throw (Js.TypeError "Cannot redefine property") target
         end.

(** [descriptor.enumerable = descriptor.enumerable || false]. *)
Definition set_enumerable (d : Descriptor) : Descriptor :=
  {| key := key d; enumerable := Some (default false (enumerable d));
     configurable := configurable d; writable := writable d;
     value := value d; get := get d; set := set d |}.

(** [descriptor.configurable = true]. *)
Definition set_configurable (d : Descriptor) : Descriptor :=
  {| key := key d; enumerable := enumerable d; configurable := Some true;
     writable := writable d; value := value d; get := get d; set := set d |}.

(** [if ("value" in descriptor) descriptor.writable = true]. *)
Definition set_writable (d : Descriptor) : Descriptor :=
  match value d with
  | Some _ =>
      {| key := key d; enumerable := enumerable d; configurable := configurable d;
         writable := Some true; value := value d; get := get d; set := set d |}
  | None => d
  end.

(** What [defineProperties] works on: the target object and the array
    [props], whose descriptor objects it writes to. *)
Record Frame := { target : Object; props : list Descriptor }.

Definition set_target (s : Frame) (o : Object) : Frame :=
  {| target := o; props := props s |}.

Definition set_descriptor (s : Frame) (i : nat) (d : Descriptor) : Frame :=
  {| target := target s; props := <[i := d]> (props s) |}.

(** [defineProperties(target, props)]. *)
Definition defineProperties : Js.M Frame unit :=
  do n <- Js.gets (fun s => length (props s));
  Js.for_ (fun i _ =>
             do descriptor <- Js.gets (fun s => props s !! i);
             do descriptor <- Js.deref descriptor;
             let descriptor := set_enumerable descriptor in
             do _ <- Js.modify (fun s => set_descriptor s i descriptor);
             let descriptor := set_configurable descriptor in
             do _ <- Js.modify (fun s => set_descriptor s i descriptor);
             let descriptor := set_writable descriptor in
             do _ <- Js.modify (fun s => set_descriptor s i descriptor);
             Js.zoom target set_target (defineProperty descriptor))
          0 n tt.

(** The arguments of the helper: the constructor function with its own
    properties, the object [Constructor.prototype], and the two optional
    arrays. *)
Record Call := {
  Constructor : Object;
  prototype : Object;
  protoProps : option (list Descriptor);
  staticProps : option (list Descriptor)
}.

(** [if (props) defineProperties(object, props)]. *)
Definition when_given (props : option (list Descriptor))
           (get_object : Call -> Object)
           (put : Call -> Frame -> Call) : Js.M Call unit :=
  match props with
  | Some l =>
      Js.zoom (fun s => {| target := get_object s; props := l |}) put defineProperties
  | None => Js.ret tt
  end.

(** [SceneRoot.current(Constructor, protoProps, staticProps)]; the
    constructor it returns is the one of the final state. *)
Definition current : Js.M Call unit :=
  do given <- Js.gets protoProps;
  do _ <- when_given given prototype
            (fun s f => {| Constructor := Constructor s; prototype := target f;
                           protoProps := Some (props f); staticProps := staticProps s |});
  do given <- Js.gets staticProps;
  when_given given Constructor
    (fun s f => {| Constructor := target f; prototype := prototype s;
                   protoProps := protoProps s; staticProps := Some (props f) |}).

End Objects.

Arguments Descriptor V F : clear implicits.
Arguments Property V F : clear implicits.
Arguments Object V F : clear implicits.
Arguments Frame V F : clear implicits.
Arguments Call V F : clear implicits.

End SceneRoot.

(** ** Vocabulary of the proofs *)

(** [m], run from [s], returns, and its result and final state satisfy [Q]. *)
Definition wp {St A} (m : Js.M St A) (Q : A -> St -> Prop) (s : St) : Prop :=
  match m s with
  | Js.Ok a s' => Q a s'
  | Js.Throw _ _ => False
  end.

(** The runtime after [k] more calls of [Math.random()]. *)
Definition advance (rt : Js.Runtime) (k : nat) : Js.Runtime :=
  {| Js.entropy := Js.entropy rt; Js.draws := (Js.draws rt + k)%nat; Js.heap := Js.heap rt |}.

(** The runtime after one more allocation. *)
Definition allocate (rt : Js.Runtime) (a : Js.Alloc) : Js.Runtime :=
  {| Js.entropy := Js.entropy rt; Js.draws := Js.draws rt; Js.heap := Js.heap rt ++ [a] |}.

(** The 4-vector the constructor builds from the draws [d], ..., [d + 3],
    before it is normalised. *)
Definition sample (e : nat -> R) (d : nat) : Three.Vector4 :=
  {| Three.x := e d * 2 - 1; Three.y := e (d + 1)%nat * 2 - 1;
     Three.z := e (d + 2)%nat * 2 - 1; Three.w := e (d + 3)%nat * 2 - 1 |}.

(** The magnitude of entry [i] of a 4-component attribute is within [tol] of 1. *)
Definition unit_within (tol : R) (attr : Three.BufferAttribute) (i : nat) : Prop :=
  exists q, ParticleSystem.quaternion attr i = Some q /\ Rabs (Three.length4 q - 1) <= tol.

(** [a] is [a0] with other contents: same typed array, same layout. *)
Definition shaped (a a0 : Three.BufferAttribute) : Prop :=
  Three.array_id a = Three.array_id a0
  /\ Three.itemSize a = Three.itemSize a0
  /\ Three.meshPerAttribute a = Three.meshPerAttribute a0
  /\ length (Three.array a) = length (Three.array a0).

(** The names of the per-instance attributes. *)
Definition per_instance : list string :=
  ["offset"; "color"; "timeOffset"; "orientationStart"; "orientationEnd"].

(** What one run of the constructor allocates, in order, for [n] instances. *)
Definition constructor_allocs (n : nat) : list Js.Alloc :=
  [Js.AObject "InstancedBufferGeometry"; Js.AFloat32Array 9;
   Js.AFloat32Array (n * 3); Js.AFloat32Array (n * 4); Js.AObject "Color";
   Js.AFloat32Array (n * 1); Js.AObject "Vector4";
   Js.AFloat32Array (n * 4); Js.AFloat32Array (n * 4);
   Js.AObject "RawShaderMaterial"; Js.AObject "Mesh"].

(** The entries of an orientation attribute are the normalised samples
    drawn from position [d] on. *)
Definition orientations_from (e : nat -> R) (d n : nat) (a : Three.BufferAttribute) : Prop :=
  forall i, (i < n)%nat ->
    ParticleSystem.quaternion a i = Some (Three.normalize (sample e (d + 4 * i)%nat)).

(** What the constructor, run for [n] instances from the runtime [rt],
    leaves: the entity [ps] and the runtime [rt']. *)
Record built (n : nat) (rt : Js.Runtime) (ps : ParticleSystem.T) (rt' : Js.Runtime) : Prop := {
  built_time : ParticleSystem.time ps = 0;
  built_uniform : ParticleSystem.time_uniform ps = 5;
  built_heap : Js.heap rt' = Js.heap rt ++ constructor_allocs n;
  built_entropy : Js.entropy rt' = Js.entropy rt;
  built_draws : Js.draws rt' = (Js.draws rt + 12 * n)%nat;
  built_geometry : Three.geometry_id (Three.geometry (ParticleSystem.mesh ps)) = length (Js.heap rt);
  built_mesh : Three.mesh_id (ParticleSystem.mesh ps) = (length (Js.heap rt) + 10)%nat;
  built_position :
    exists a, ParticleSystem.attribute ps "position" = Some a
              /\ Three.array_id a = (length (Js.heap rt) + 1)%nat /\ Three.count a = 3%nat;
  built_offset :
    exists a, ParticleSystem.attribute ps "offset" = Some a
              /\ Three.array_id a = (length (Js.heap rt) + 2)%nat /\ Three.count a = n;
  built_color :
    exists a, ParticleSystem.attribute ps "color" = Some a
              /\ Three.array_id a = (length (Js.heap rt) + 3)%nat /\ Three.count a = n;
  built_timeOffset :
    exists a, ParticleSystem.attribute ps "timeOffset" = Some a
              /\ Three.array_id a = (length (Js.heap rt) + 5)%nat /\ Three.count a = n;
  built_orientationStart :
    exists a, ParticleSystem.attribute ps "orientationStart" = Some a
              /\ Three.array_id a = (length (Js.heap rt) + 7)%nat /\ Three.count a = n
              /\ orientations_from (Js.entropy rt) (Js.draws rt + 4 * n) n a;
  built_orientationEnd :
    exists a, ParticleSystem.attribute ps "orientationEnd" = Some a
              /\ Three.array_id a = (length (Js.heap rt) + 8)%nat /\ Three.count a = n
              /\ orientations_from (Js.entropy rt) (Js.draws rt + 8 * n) n a;
  built_fresh :
    forall name a, ParticleSystem.attribute ps name = Some a ->
                   (length (Js.heap rt) <= Three.array_id a < length (Js.heap rt'))%nat
}.

(** The four draws from position [d] on are all exactly 0.5, so that the
    sampled vector is zero. *)
Definition degenerate (e : nat -> R) (d : nat) : Prop :=
  e d = 0.5 /\ e (d + 1)%nat = 0.5 /\ e (d + 2)%nat = 0.5 /\ e (d + 3)%nat = 0.5.

(** A runtime that has drawn and allocated nothing yet. *)
Definition runtime_of (e : nat -> R) : Js.Runtime :=
  {| Js.entropy := e; Js.draws := 0; Js.heap := [] |}.

(** The runtime whose [Math.random()] always returns 0.5. *)
Definition stuck_at_half : Js.Runtime := runtime_of (fun _ => 0.5).

(** The runtime whose [Math.random()] always returns 0.25. *)
Definition stuck_at_quarter : Js.Runtime := runtime_of (fun _ => 0.25).

(** Sample values for the theme table of [utils/Theme], which is not among
    the sources; no property depends on the colours. *)
Definition sample_theme (i : RoboticsScene.ThemeId) : RoboticsScene.Theme :=
  {| RoboticsScene.id := i;
     RoboticsScene.colorPrimary :=
       match i with RoboticsScene.dark => 0x00e5ff | RoboticsScene.light => 0x000000 end;
     RoboticsScene.colorBackground :=
       match i with RoboticsScene.dark => 0x111111 | RoboticsScene.light => 0xf2f2f2 end |}.

(** A 1024 by 768 window on which nothing was scheduled or called yet. *)
Definition sample_host {Cb : Type} : Host.T Cb :=
  Host.fresh stuck_at_quarter 0 1024 768 1.

(** [RoboticsScene] under the sample dark theme. *)
Definition robotics_props (reduced : bool) : RoboticsScene.Props :=
  {| RoboticsScene.theme := sample_theme;
     RoboticsScene.currentTheme := sample_theme RoboticsScene.dark;
     RoboticsScene.prefersReducedMotion := reduced |}.


(** A mounted [RoboticsScene] that then lives through the events [es]. *)
Definition robotics_life (p : RoboticsScene.Props) (es : list RoboticsScene.Event)
  : Js.M RoboticsScene.World unit :=
  Js.bind (RoboticsScene.mount p) (fun _ => Js.for_each RoboticsScene.dispatch es).

(** The renderer, camera and scene refs of a [Portrait] are set. *)
Definition portrait_ready (w : Portrait.World) : Prop :=
  is_Some (Portrait.renderer w) /\ is_Some (Portrait.camera w)
  /\ is_Some (Portrait.scene w).

(** The render loop of a [Portrait] is idle, or its one pending tick is
    the one whose handle [animation] holds. *)
Definition portrait_loop_tracked (w : Portrait.World) : Prop :=
  Host.raf_queue (Portrait.host w) = []
  \/ exists handle,
       Host.raf_queue (Portrait.host w) = [(handle, Portrait.animate_closure)]
       /\ Portrait.animation w = Some handle.

(** The colour entry the constructor writes for instance [i]: the main
    colour of the green palette for even [i], of the orange one for odd
    [i], with alpha 1. *)
Definition color_entry (i : nat) : Three.Vector4 :=
  let c := Three.setHex (ParticleSystem.mainColor
                           (if Nat.even i then ParticleSystem.green
                            else ParticleSystem.orange)) in
  {| Three.x := Three.r c; Three.y := Three.g c; Three.z := Three.b c; Three.w := 1 |}.

(** What the constructor, run for [n] instances from the runtime [rt],
    leaves in the buffers and the material of the entity [ps]. *)
Record filled (n : nat) (rt : Js.Runtime) (ps : ParticleSystem.T) : Prop := {
  filled_position :
    exists a, ParticleSystem.attribute ps "position" = Some a
              /\ Three.itemSize a = 3%nat
              /\ Three.array a = [0.055; - (0.055); 0; - (0.055); 0.055; 0; 0; 0; 0.055];
  filled_offset :
    exists a, ParticleSystem.attribute ps "offset" = Some a
              /\ forall i k, (i < n)%nat -> (k < 3)%nat ->
                   Three.get a i k
                   = Some ((Js.entropy rt (Js.draws rt + 3 * i + k) - 0.5) * 60);
  filled_color :
    exists a, ParticleSystem.attribute ps "color" = Some a
              /\ forall i, (i < n)%nat ->
                   ParticleSystem.quaternion a i = Some (color_entry i);
  filled_timeOffset :
    exists a, ParticleSystem.attribute ps "timeOffset" = Some a
              /\ forall i, (i < n)%nat ->
                   Three.get a i 0 = Some (Js.entropy rt (Js.draws rt + 3 * n + i));
  filled_uniforms :
    Three.uniforms (Three.material (ParticleSystem.mesh ps))
    = {| Three.u_time := 5.0; Three.u_sineTime := 5.0 |};
  filled_flags :
    Three.side (Three.material (ParticleSystem.mesh ps)) = Three.DoubleSide
    /\ Three.transparent (Three.material (ParticleSystem.mesh ps)) = true
    /\ Three.frustumCulled (ParticleSystem.mesh ps) = false
}.

(** A vertex of the template triangle, of an instance a quarter into its
    cycle whose two orientations are both the identity rotation. *)
Definition sample_vertex : VertexStage.Inputs :=
  let identity := {| VertexStage.qx := 0; VertexStage.qy := 0;
                     VertexStage.qz := 0; VertexStage.qw := 1 |} in
  let unit_matrix :=
    {| VertexStage.row0 := {| VertexStage.qx := 1; VertexStage.qy := 0;
                              VertexStage.qz := 0; VertexStage.qw := 0 |};
       VertexStage.row1 := {| VertexStage.qx := 0; VertexStage.qy := 1;
                              VertexStage.qz := 0; VertexStage.qw := 0 |};
       VertexStage.row2 := {| VertexStage.qx := 0; VertexStage.qy := 0;
                              VertexStage.qz := 1; VertexStage.qw := 0 |};
       VertexStage.row3 := identity |} in
  {| VertexStage.time := 0;
     VertexStage.modelViewMatrix := unit_matrix;
     VertexStage.projectionMatrix := unit_matrix;
     VertexStage.position := {| VertexStage.x := 0.055; VertexStage.y := - (0.055);
                                VertexStage.z := 0 |};
     VertexStage.offset := {| VertexStage.x := 3; VertexStage.y := 4; VertexStage.z := 12 |};
     VertexStage.color := {| VertexStage.qx := 142 / 255; VertexStage.qy := 185 / 255;
                             VertexStage.qz := 52 / 255; VertexStage.qw := 1 |};
     VertexStage.orientationStart := identity;
     VertexStage.orientationEnd := identity;
     VertexStage.timeOffset := 0.25 |}.

(** The same vertex at the start of a cycle. *)
Definition sample_vertex_at_start : VertexStage.Inputs :=
  {| VertexStage.time := 3;
     VertexStage.modelViewMatrix := VertexStage.modelViewMatrix sample_vertex;
     VertexStage.projectionMatrix := VertexStage.projectionMatrix sample_vertex;
     VertexStage.position := VertexStage.position sample_vertex;
     VertexStage.offset := VertexStage.offset sample_vertex;
     VertexStage.color := VertexStage.color sample_vertex;
     VertexStage.orientationStart := VertexStage.orientationStart sample_vertex;
     VertexStage.orientationEnd := VertexStage.orientationEnd sample_vertex;
     VertexStage.timeOffset := 4 |}.

(** ** Vocabulary of the lifecycle of [RoboticsScene] *)

Definition is_frame (e : RoboticsScene.Event) : bool :=
  match e with RoboticsScene.Frame _ => true | RoboticsScene.Resize _ _ => false end.

(** The paint opportunities among the events. *)
Definition frames (es : list RoboticsScene.Event) : nat :=
  length (List.filter is_frame es).

(** The window resizes among the events. *)
Definition resizes (es : list RoboticsScene.Event) : nat :=
  length (List.filter (fun e => negb (is_frame e)) es).

(** The clock a pending tick captured. *)
Definition closure_clock (c : RoboticsScene.Closure) : nat :=
  match c with RoboticsScene.render_closure clock => clock end.

(** The calls [k] render loops and [k] resize listeners make on one event,
    on the renderer [rid], the scene [sid] and the camera [cid]. *)
Definition robotics_event_calls (k rid sid cid : nat) (e : RoboticsScene.Event)
  : list Host.Call :=
  match e with
  | RoboticsScene.Frame _ => replicate k (Host.Render rid sid cid)
  | RoboticsScene.Resize w h =>
      mjoin (replicate k [Host.Enter "handleWindowResize"; Host.SetSize rid w h;
                          Host.UpdateProjectionMatrix cid;
                          Host.Leave "handleWindowResize"])
  end.

Definition robotics_trace (k rid sid cid : nat) (es : list RoboticsScene.Event)
  : list Host.Call :=
  flat_map (robotics_event_calls k rid sid cid) es.

(** The renderer after an event that [k] listeners saw. *)
Definition renderer_after_event (k : nat) (r : Host.Renderer) (e : RoboticsScene.Event)
  : Host.Renderer :=
  match e, k with
  | RoboticsScene.Resize w h, S _ => Host.setSize r w h
  | _, _ => r
  end.

(** The camera after an event that [k] listeners saw. *)
Definition camera_after_event (k : nat) (c : Host.Camera) (e : RoboticsScene.Event)
  : Host.Camera :=
  match e, k with
  | RoboticsScene.Resize w h, S _ =>
      Host.updateProjectionMatrix (Host.set_aspect c (IZR w / IZR h))
  | _, _ => c
  end.

(** The size of the window after the events. *)
Definition window_after (size : Z * Z) (es : list RoboticsScene.Event) : Z * Z :=
  fold_left (fun size e => match e with
                           | RoboticsScene.Resize w h => (w, h)
                           | RoboticsScene.Frame _ => size
                           end) es size.

(** A [RoboticsScene] with [k] render loops and [k] resize listeners: [k]
    ticks are pending, each on a clock that exists, and the refs are set. *)
Record robotics_loops (k : nat) (w : RoboticsScene.World) : Prop := {
  loops_pending : length (Host.raf_queue (RoboticsScene.host w)) = k;
  loops_clocks :
    Forall (fun e => (closure_clock (snd e) < length (RoboticsScene.clocks w))%nat)
           (Host.raf_queue (RoboticsScene.host w));
  loops_listeners : RoboticsScene.resize_listeners w = k;
  loops_renderer : is_Some (RoboticsScene.renderer w);
  loops_camera : is_Some (RoboticsScene.camera w);
  loops_scene : is_Some (RoboticsScene.scene w);
  loops_particles : is_Some (RoboticsScene.particles w)
}.

(** What the events [es] make of a world [w] with [k] loops and listeners. *)
Record robotics_after (k : nat) (es : list RoboticsScene.Event)
       (w w' : RoboticsScene.World) : Prop := {
  after_loops : robotics_loops k w';
  after_calls :
    exists r s c,
      RoboticsScene.renderer w = Some r /\ RoboticsScene.scene w = Some s
      /\ RoboticsScene.camera w = Some c
      /\ Host.calls (RoboticsScene.host w')
         = Host.calls (RoboticsScene.host w)
           ++ robotics_trace k (Host.renderer_id r) (Host.scene_id s) (Host.camera_id c) es
      /\ RoboticsScene.renderer w' = Some (fold_left (renderer_after_event k) es r)
      /\ RoboticsScene.camera w' = Some (fold_left (camera_after_event k) es c);
  after_scene : RoboticsScene.scene w' = RoboticsScene.scene w;
  after_container : RoboticsScene.container w' = RoboticsScene.container w;
  after_rt : Host.rt (RoboticsScene.host w') = Host.rt (RoboticsScene.host w);
  after_window :
    (Host.innerWidth (RoboticsScene.host w'), Host.innerHeight (RoboticsScene.host w'))
    = window_after (Host.innerWidth (RoboticsScene.host w),
                    Host.innerHeight (RoboticsScene.host w)) es;
  after_particles :
    exists ps dts,
      RoboticsScene.particles w = Some ps
      /\ length dts = (k * frames es)%nat
      /\ RoboticsScene.particles w' = Some (ParticleSystem.updates dts ps)
}.

(** What mounting [RoboticsScene] leaves: the world [w] and its renderer,
    camera, scene and particle system. *)
Record robotics_mounted (prm : bool) (iw ih : Z) (w : RoboticsScene.World)
       (r : Host.Renderer) (c : Host.Camera) (s : Host.Scene) (ps : ParticleSystem.T)
  : Prop := {
  mounted_loops : robotics_loops (if prm then 0 else 1) w;
  mounted_renderer : RoboticsScene.renderer w = Some r;
  mounted_size : Host.size r = (iw, ih);
  mounted_camera : RoboticsScene.camera w = Some c;
  mounted_projection :
    c = Host.set_position
          (Host.PerspectiveCamera (Host.camera_id c) 60 (IZR iw / IZR ih) 0.1 60)
          (0, 1.7, 0.5);
  mounted_scene : RoboticsScene.scene w = Some s;
  mounted_particles : RoboticsScene.particles w = Some ps;
  mounted_children :
    exists a d,
      Host.children s
      = [Host.ChildLight a; Host.ChildLight d;
         Host.ChildMesh (Three.mesh_id (ParticleSystem.mesh ps))];
  mounted_time : ParticleSystem.time ps = if prm then 0 else 0.0001;
  mounted_uniform :
    ParticleSystem.time_uniform ps = if prm then 5.0 else sin (ParticleSystem.time ps);
  mounted_mesh :
    (Three.mesh_id (ParticleSystem.mesh ps)
     < length (Js.heap (Host.rt (RoboticsScene.host w))))%nat;
  mounted_calls :
    Host.calls (RoboticsScene.host w)
    = Host.SetSize (Host.renderer_id r) iw ih
      :: (if prm then []
          else [Host.Render (Host.renderer_id r) (Host.scene_id s) (Host.camera_id c)]);
  mounted_window :
    (Host.innerWidth (RoboticsScene.host w), Host.innerHeight (RoboticsScene.host w))
    = (iw, ih)
}.

(** The motion preference switched to reduced and back, [n] times over:
    two renders of the component each time. *)
Definition robotics_toggles (p_off p_on : RoboticsScene.Props) (n : nat)
  : Js.M RoboticsScene.World unit :=
  Js.for_ (fun _ _ => Js.bind (RoboticsScene.rerender p_off p_on)
                              (fun _ => RoboticsScene.rerender p_on p_off))
          0 n tt.

(** ** Vocabulary of the lifecycle of [Portrait] *)

(** What happens to a mounted [Portrait]: an event of the host, or a
    render of the component with new values of what it reads. *)
Inductive PortraitStep :=
| Happens (e : Portrait.Event)
| Renders (p : Portrait.Props).

(** A mounted [Portrait] living through the steps, from the props of its
    last render on; the props of the final render are returned. *)
Fixpoint portrait_session (p : Portrait.Props) (steps : list PortraitStep)
  : Js.M Portrait.World Portrait.Props :=
  match steps with
  | [] => Js.ret p
  | Happens e :: rest =>
      Js.bind (Portrait.dispatch e) (fun _ => portrait_session p rest)
  | Renders p' :: rest =>
      Js.bind (Portrait.rerender p p') (fun _ => portrait_session p' rest)
  end.

(** The props of the last render among the steps. *)
Definition portrait_props_after (p : Portrait.Props) (steps : list PortraitStep)
  : Portrait.Props :=
  fold_left (fun p step => match step with Happens _ => p | Renders p' => p' end) steps p.

(** The render loop of [Portrait] is meant to run. *)
Definition portrait_animated (p : Portrait.Props) : bool :=
  negb (Portrait.prefersReducedMotion p) && Portrait.isInViewport p.

(** A [Portrait] whose effects last ran under the props [p]: one resize
    listener, with the preference of [p]; a mouse listener and a pending
    tick exactly when [p] has motion allowed and the canvas in view. *)
Record portrait_settled (p : Portrait.Props) (w : Portrait.World) : Prop := {
  settled_ready : portrait_ready w;
  settled_lights : is_Some (Portrait.lights w);
  settled_resize : Portrait.resize_listeners w = [Portrait.prefersReducedMotion p];
  settled_mouse :
    Portrait.mousemove_listeners w = (if portrait_animated p then 1 else 0)%nat;
  settled_loop :
    if portrait_animated p
    then exists handle,
           Host.raf_queue (Portrait.host w) = [(handle, Portrait.animate_closure)]
           /\ Portrait.animation w = Some handle
    else Host.raf_queue (Portrait.host w) = []
}.

(** The calls one event makes on a settled [Portrait] with renderer [r],
    scene [s] and camera [c]. *)
Definition portrait_event_calls (p : Portrait.Props)
           (r : Host.Renderer) (s : Host.Scene) (c : Host.Camera) (e : Portrait.Event)
  : list Host.Call :=
  let render := Host.Render (Host.renderer_id r) (Host.scene_id s) (Host.camera_id c) in
  match e with
  | Portrait.Resize cw ch =>
      [Host.Enter "handleResize"; Host.SetSize (Host.renderer_id r) cw ch;
       Host.UpdateProjectionMatrix (Host.camera_id c)]
      ++ (if Portrait.prefersReducedMotion p then [render] else [])
      ++ [Host.Leave "handleResize"]
  | Portrait.Frame _ => if portrait_animated p then [render] else []
  | Portrait.EnvLoaded => []
  | Portrait.ModelLoaded _ => []
  end.

(** ** Vocabulary of the class helper *)

(** A descriptor of a method: it carries a [value] and no accessor. *)
Definition is_method {V F} (d : SceneRoot.Descriptor V F) : Prop :=
  is_Some (SceneRoot.value d) /\ SceneRoot.get d = None /\ SceneRoot.set d = None.

(** The key of [d] is free on an extensible [o], or names a configurable
    property of [o]. *)
Definition installable {V F} (o : SceneRoot.Object V F) (d : SceneRoot.Descriptor V F)
  : Prop :=
  match SceneRoot.own o !! SceneRoot.key d with
  | None => SceneRoot.extensible o = true
  | Some p => SceneRoot.property_configurable p = true
  end.

(** The property a method descriptor ends as. *)
Definition installed {V F} (d : SceneRoot.Descriptor V F) : SceneRoot.Property V F :=
  SceneRoot.Data (default None (SceneRoot.value d)) true
                 (default false (SceneRoot.enumerable d)) true.

(** The descriptor object after the helper wrote to it. *)
Definition normalised {V F} (d : SceneRoot.Descriptor V F) : SceneRoot.Descriptor V F :=
  SceneRoot.set_writable (SceneRoot.set_configurable (SceneRoot.set_enumerable d)).

(** The last descriptor of the array with the key [k]. *)
Definition last_with_key {V F} (k : string) (l : list (SceneRoot.Descriptor V F))
  : option (SceneRoot.Descriptor V F) :=
  List.find (fun d => bool_decide (SceneRoot.key d = k)) (rev l).

(** The descriptor of [update], as the first effect of [RoboticsScene]
    hands it to the helper. *)
Definition update_descriptor : SceneRoot.Descriptor string string :=
  {| SceneRoot.key := "update"; SceneRoot.enumerable := None;
     SceneRoot.configurable := None; SceneRoot.writable := None;
     SceneRoot.value := Some (Some "function update(dt)");
     SceneRoot.get := None; SceneRoot.set := None |}.

(** A newly declared function [ParticleSystem] and its prototype object. *)
Definition fresh_class : SceneRoot.Call string string :=
  {| SceneRoot.Constructor :=
       {| SceneRoot.extensible := true;
          SceneRoot.own :=
            {[ "prototype" := SceneRoot.Data (Some "ParticleSystem.prototype")
                                             true false false;
               "length" := SceneRoot.Data (Some "0") false false true;
               "name" := SceneRoot.Data (Some "ParticleSystem") false false true ]} |};
     SceneRoot.prototype :=
       {| SceneRoot.extensible := true;
          SceneRoot.own :=
            {[ "constructor" := SceneRoot.Data (Some "ParticleSystem") true false true ]} |};
     SceneRoot.protoProps := Some [update_descriptor];
     SceneRoot.staticProps := None |}.

(** The body of the loop of [defineProperties]. *)
Definition defineProperties_step {V F} `{EqDecision V} `{EqDecision F}
  : nat -> unit -> Js.M (SceneRoot.Frame V F) unit :=
  fun i _ =>
    do descriptor <- Js.gets (fun s => SceneRoot.props s !! i);
    do descriptor <- Js.deref descriptor;
    let descriptor := SceneRoot.set_enumerable descriptor in
    do _ <- Js.modify (fun s => SceneRoot.set_descriptor s i descriptor);
    let descriptor := SceneRoot.set_configurable descriptor in
    do _ <- Js.modify (fun s => SceneRoot.set_descriptor s i descriptor);
    let descriptor := SceneRoot.set_writable descriptor in
    do _ <- Js.modify (fun s => SceneRoot.set_descriptor s i descriptor);
    Js.zoom SceneRoot.target SceneRoot.set_target (SceneRoot.defineProperty descriptor).

(** The own properties after the method descriptors were installed in turn. *)
Definition install_all {V F} (l : list (SceneRoot.Descriptor V F))
           (own : gmap string (SceneRoot.Property V F)) : gmap string (SceneRoot.Property V F) :=
  fold_left (fun m d => <[SceneRoot.key d := installed d]> m) l own.

(** The array behind an optional argument: none when it is [undefined]. *)
Definition given {V F} (props : option (list (SceneRoot.Descriptor V F)))
  : list (SceneRoot.Descriptor V F) :=
  default [] props.

(** A descriptor that asks to redefine the [prototype] property of a function. *)
Definition prototype_descriptor : SceneRoot.Descriptor string string :=
  {| SceneRoot.key := "prototype"; SceneRoot.enumerable := None;
     SceneRoot.configurable := None; SceneRoot.writable := None;
     SceneRoot.value := Some (Some "another object");
     SceneRoot.get := None; SceneRoot.set := None |}.

(** * Properties *)

(** ** The shader program *)

Lemma mod_one_range (x : R) : 0 <= Glsl.mod_ x 1.0 < 1.
Proof.
  unfold Glsl.mod_, Glsl.floor.
  replace (x / 1.0) with x by lra.
  destruct (base_Int_part x) as [Hle Hgt]. lra.
Qed.

Lemma clamp_in_range (x lo hi : R) : lo <= hi -> lo <= Glsl.clamp x lo hi <= hi.
Proof.
  intros Hle. unfold Glsl.clamp, Rmin, Rmax.
  repeat destruct (Rle_dec _ _); lra.
Qed.

Lemma clamp_alt_agrees (x lo hi : R) : lo <= hi -> Glsl.clamp_alt x lo hi = Glsl.clamp x lo hi.
Proof.
  intros Hle. unfold Glsl.clamp, Glsl.clamp_alt, Rmin, Rmax.
  repeat destruct (Rle_dec _ _); lra.
Qed.

(** What the fragment stage computes: the smaller of [1.0] and the depth,
    with no lower bound. *)
Lemma opacity_is_min (d : R) : Shader.opacity d = Rmin 1 d.
Proof.
  unfold Shader.opacity, Glsl.clamp, Rmin, Rmax.
  repeat destruct (Rle_dec _ _); lra.
Qed.

Lemma opacity_spec_range (d : R) : 0.2 <= Shader.opacity_spec d <= 1.0.
Proof. unfold Shader.opacity_spec. apply clamp_in_range. lra. Qed.

Lemma sin_at_flicker_peak : sin (PI / 200 * 100.0) = 1.
Proof. replace (PI / 200 * 100.0) with (PI / 2) by lra. apply sin_PI2. Qed.

(** C1. At the fragment with [gl_FragCoord.z = 0.5] and [gl_FragCoord.w = 1]
    the depth is 0.1; the fragment stage, whose [clamp] receives the
    constant 0.2 as the value and the depth as the upper bound, gives the
    opacity 0.1 and, at [lifeProgress = PI/200], the alpha 0.1, where the
    depth clamped to [0.2, 1.0] gives 0.2 for both. The other evaluation
    order of [clamp] gives 1 and does not give 0.2 either. *)
Theorem fragment_opacity_below_lower_bound :
  let fc := {| Shader.fc_z := 0.5; Shader.fc_w := 1 |} in
  Shader.depth fc = 0.1
  /\ Shader.opacity (Shader.depth fc) = 0.1
  /\ Shader.opacity_spec (Shader.depth fc) = 0.2
  /\ Shader.alpha (PI / 200) (Shader.depth fc) = 0.1
  /\ Shader.alpha_spec (PI / 200) (Shader.depth fc) = 0.2
  /\ Shader.fragment (1, 1, 1, 1) (PI / 200) fc = (1, 1, 1, 0.1)
  /\ Glsl.clamp_alt 0.2 1.0 (Shader.depth fc) = 1.
Proof.
  assert (Hd : Shader.depth {| Shader.fc_z := 0.5; Shader.fc_w := 1 |} = 0.1).
  { unfold Shader.depth. simpl. lra. }
  assert (Ho : Shader.opacity 0.1 = 0.1).
  { rewrite opacity_is_min. unfold Rmin. destruct (Rle_dec _ _); lra. }
  assert (Hs : Shader.opacity_spec 0.1 = 0.2).
  { unfold Shader.opacity_spec, Glsl.clamp, Rmin, Rmax.
    repeat destruct (Rle_dec _ _); lra. }
  assert (Ha : Shader.alpha (PI / 200) 0.1 = 0.1).
  { unfold Shader.alpha. rewrite sin_at_flicker_peak, Ho. lra. }
  cbv zeta. rewrite Hd. repeat split; try assumption.
  - unfold Shader.alpha_spec. rewrite sin_at_flicker_peak, Hs. lra.
  - unfold Shader.fragment. rewrite Hd, Ha. reflexivity.
  - unfold Glsl.clamp_alt, Rmin, Rmax. repeat destruct (Rle_dec _ _); lra.
Qed.

(** ** Binary32 rounding *)


Lemma bpow_pos (e : Z) : 0 < powerRZ 2 e.
Proof. apply powerRZ_lt. lra. Qed.

Lemma bpow_add (a b : Z) : powerRZ 2 (a + b) = powerRZ 2 a * powerRZ 2 b.
Proof. apply powerRZ_add. lra. Qed.

Lemma IZR_pow2 (k : Z) : (0 <= k)%Z -> IZR (2 ^ k) = powerRZ 2 k.
Proof.
  intros Hk. rewrite <- (Z2Nat.id k) by exact Hk.
  rewrite <- pow_IZR, <- pow_powerRZ. reflexivity.
Qed.

Lemma bpow_le (a b : Z) : (a <= b)%Z -> powerRZ 2 a <= powerRZ 2 b.
Proof.
  intros H. replace b with (a + (b - a))%Z by lia. rewrite bpow_add.
  pose proof (bpow_pos a).
  assert (1 <= powerRZ 2 (b - a)).
  { rewrite <- IZR_pow2 by lia. apply IZR_le.
    pose proof (Z.pow_pos_nonneg 2 (b - a)). lia. }
  nra.
Qed.

Lemma bpow_lt (a b : Z) : (a < b)%Z -> powerRZ 2 a < powerRZ 2 b.
Proof.
  intros H. replace b with (a + 1 + (b - a - 1))%Z by lia.
  rewrite !bpow_add. pose proof (bpow_pos a). 
  assert (1 <= powerRZ 2 (b - a - 1)).
  { change 1 with (powerRZ 2 0). apply bpow_le. lia. }
  change (powerRZ 2 1) with (2 * 1). nra.
Qed.





(** *** The nearest integer *)







(** *** The exponent of the leading bit *)




(** *** Rounding *)







(** *** The largest finite number *)




(** *** The operations of [mod(x, 1.0)] *)













(** ** The particle-system entity *)

(** C3. For every state and every [dt], [update(dt)] adds 0.0001 to the
    accumulator, publishes the sine of the new accumulator as the [time]
    uniform, and gives the same state whatever [dt] is. *)
Theorem update_fixed_step (this : ParticleSystem.T) (dt dt' : R) :
  ParticleSystem.time (ParticleSystem.update dt this) = ParticleSystem.time this + 0.0001
  /\ ParticleSystem.time_uniform (ParticleSystem.update dt this)
     = sin (ParticleSystem.time (ParticleSystem.update dt this))
  /\ ParticleSystem.update dt this = ParticleSystem.update dt' this.
Proof. repeat split. Qed.

(** Whole runs agree too, whatever the frame durations were. *)
Lemma updates_ignore_dt (dts dts' : list R) :
  length dts = length dts' ->
  forall this, ParticleSystem.updates dts this = ParticleSystem.updates dts' this.
Proof.
  revert dts'. induction dts as [|dt dts IH]; intros [|dt' dts'] Hlen this;
    simpl in Hlen; try discriminate; [reflexivity|].
  simpl. apply IH. congruence.
Qed.

Lemma updates_time (dts : list R) :
  forall this,
    ParticleSystem.time (ParticleSystem.updates dts this)
    = ParticleSystem.time this + 0.0001 * INR (length dts).
Proof.
  induction dts as [|dt dts IH]; intros this.
  - simpl. lra.
  - change (ParticleSystem.updates (dt :: dts) this)
      with (ParticleSystem.updates dts (ParticleSystem.update dt this)).
    rewrite IH. change (length (dt :: dts)) with (S (length dts)).
    rewrite S_INR. unfold ParticleSystem.update. simpl. lra.
Qed.

Lemma updates_snoc (dts : list R) (dt : R) (this : ParticleSystem.T) :
  ParticleSystem.updates (dts ++ [dt]) this
  = ParticleSystem.update dt (ParticleSystem.updates dts this).
Proof. unfold ParticleSystem.updates. apply fold_left_app. Qed.

Lemma time_uniform_after_updates (dt : R) (dts : list R) (this : ParticleSystem.T) :
  -1 <= ParticleSystem.time_uniform (ParticleSystem.updates (dt :: dts) this) <= 1.
Proof.
  destruct (exists_last (l := dt :: dts)) as (front & last & Heq); [discriminate|].
  rewrite Heq, updates_snoc.
  unfold ParticleSystem.time_uniform, ParticleSystem.update. simpl.
  apply SIN_bound.
Qed.

(** ** Running the constructor *)

Lemma wp_ok {St A} (m : Js.M St A) (Q : A -> St -> Prop) (s : St) :
  wp m Q s <-> exists a s', m s = Js.Ok a s' /\ Q a s'.
Proof.
  unfold wp. split.
  - destruct (m s) as [a s'|e s']; [eauto | tauto].
  - intros (a & s' & -> & HQ). exact HQ.
Qed.

Lemma wp_ret {St A} (a : A) (Q : A -> St -> Prop) (s : St) :
  Q a s -> wp (Js.ret a) Q s.
Proof. trivial. Qed.

Lemma wp_bind {St A B} (m : Js.M St A) (k : A -> Js.M St B) (Q : B -> St -> Prop) (s : St) :
  wp m (fun a s' => wp (k a) Q s') s -> wp (Js.bind m k) Q s.
Proof. unfold wp, Js.bind. destruct (m s); trivial. Qed.

Lemma wp_mono {St A} (m : Js.M St A) (Q Q' : A -> St -> Prop) (s : St) :
  wp m Q s -> (forall a s', Q a s' -> Q' a s') -> wp m Q' s.
Proof. unfold wp. destruct (m s); auto. Qed.

Lemma wp_gets {St A} (f : St -> A) (Q : A -> St -> Prop) (s : St) :
  Q (f s) s -> wp (Js.gets f) Q s.
Proof. trivial. Qed.

Lemma wp_modify {St} (f : St -> St) (Q : unit -> St -> Prop) (s : St) :
  Q tt (f s) -> wp (Js.modify f) Q s.
Proof. trivial. Qed.

Lemma wp_deref {St A} (a : A) (Q : A -> St -> Prop) (s : St) :
  Q a s -> wp (Js.deref (Some a)) Q s.
Proof. trivial. Qed.

(** The loop rule: an invariant kept by every iteration holds at the end. *)
Lemma wp_for {St A} (I : nat -> A -> St -> Prop) (body : nat -> A -> Js.M St A) (n : nat) :
  forall (start : nat) (a : A) (s : St),
    I start a s ->
    (forall i a s, (start <= i < start + n)%nat -> I i a s -> wp (body i a) (I (S i)) s) ->
    wp (Js.for_ body start n a) (I (start + n)%nat) s.
Proof.
  induction n as [|n IH]; intros start a s Hinit Hstep.
  - simpl. rewrite Nat.add_0_r. exact Hinit.
  - simpl. apply wp_bind.
    eapply wp_mono; [apply (Hstep start a s); [lia | exact Hinit]|].
    intros a' s' HI. replace (start + S n)%nat with (S start + n)%nat by lia.
    apply IH; [exact HI|].
    intros i a0 s0 Hi. apply Hstep. lia.
Qed.

Lemma advance_0 (rt : Js.Runtime) : advance rt 0 = rt.
Proof. destruct rt. unfold advance. simpl. f_equal. lia. Qed.

Lemma advance_advance (rt : Js.Runtime) (a b : nat) :
  advance (advance rt a) b = advance rt (a + b).
Proof. unfold advance. simpl. f_equal. lia. Qed.

Lemma wp_random (Q : R -> Js.Runtime -> Prop) (rt : Js.Runtime) :
  Q (Js.entropy rt (Js.draws rt)) (advance rt 1) -> wp Js.Math_random Q rt.
Proof.
  unfold wp, Js.Math_random, advance.
  replace (Js.draws rt + 1)%nat with (S (Js.draws rt)) by lia. trivial.
Qed.

Lemma wp_new_object (class : string) (Q : nat -> Js.Runtime -> Prop) (rt : Js.Runtime) :
  Q (length (Js.heap rt)) (allocate rt (Js.AObject class)) -> wp (Js.new_object class) Q rt.
Proof. trivial. Qed.

Lemma wp_new_InstancedBufferAttribute (len : Z) (size mpa : nat)
      (Q : Three.BufferAttribute -> Js.Runtime -> Prop) (rt : Js.Runtime) :
  (0 <= len)%Z ->
  Q {| Three.array_id := length (Js.heap rt);
       Three.array := replicate (Z.to_nat len) 0;
       Three.itemSize := size; Three.meshPerAttribute := Some mpa |}
    (allocate rt (Js.AFloat32Array (Z.to_nat len))) ->
  wp (Three.new_InstancedBufferAttribute len size mpa) Q rt.
Proof.
  intros Hlen HQ.
  unfold wp, Three.new_InstancedBufferAttribute, Js.bind, Js.new_Float32Array.
  destruct (Z.ltb_spec len 0); [lia | exact HQ].
Qed.

Lemma wp_new_BufferAttribute (len : Z) (size : nat)
      (Q : Three.BufferAttribute -> Js.Runtime -> Prop) (rt : Js.Runtime) :
  (0 <= len)%Z ->
  Q {| Three.array_id := length (Js.heap rt);
       Three.array := replicate (Z.to_nat len) 0;
       Three.itemSize := size; Three.meshPerAttribute := None |}
    (allocate rt (Js.AFloat32Array (Z.to_nat len))) ->
  wp (Three.new_BufferAttribute len size) Q rt.
Proof.
  intros Hlen HQ.
  unfold wp, Three.new_BufferAttribute, Js.bind, Js.new_Float32Array.
  destruct (Z.ltb_spec len 0); [lia | exact HQ].
Qed.

(** *** Typed-array writes *)

Lemma shaped_refl (a : Three.BufferAttribute) : shaped a a.
Proof. repeat split. Qed.

Lemma shaped_setX a a0 i x : shaped a a0 -> shaped (Three.setX a i x) a0.
Proof.
  intros (Hid & Hsz & Hm & Hlen). repeat split; simpl; try assumption.
  rewrite length_insert. exact Hlen.
Qed.

Lemma shaped_setXYZ a a0 i x y z : shaped a a0 -> shaped (Three.setXYZ a i x y z) a0.
Proof.
  intros (Hid & Hsz & Hm & Hlen). repeat split; simpl; try assumption.
  rewrite !length_insert. exact Hlen.
Qed.

Lemma shaped_setXYZW a a0 i x y z w : shaped a a0 -> shaped (Three.setXYZW a i x y z w) a0.
Proof.
  intros (Hid & Hsz & Hm & Hlen). repeat split; simpl; try assumption.
  rewrite !length_insert. exact Hlen.
Qed.

Lemma shaped_count a a0 : shaped a a0 -> Three.count a = Three.count a0.
Proof. intros (_ & Hsz & _ & Hlen). unfold Three.count. rewrite Hsz, Hlen. reflexivity. Qed.

Create HintDb shape.
#[local] Hint Resolve shaped_refl shaped_setX shaped_setXYZ shaped_setXYZW : shape.

Ltac lookup_insert :=
  repeat first
    [ rewrite list_lookup_insert_eq by (rewrite ?length_insert; lia)
    | rewrite list_lookup_insert_ne by lia ].

Lemma quaternion_setXYZW_same (a : Three.BufferAttribute) (i : nat) (x y z w : R) :
  Three.itemSize a = 4%nat ->
  (i * 4 + 3 < length (Three.array a))%nat ->
  ParticleSystem.quaternion (Three.setXYZW a i x y z w) i
  = Some {| Three.x := x; Three.y := y; Three.z := z; Three.w := w |}.
Proof.
  intros Hsz Hlen.
  unfold ParticleSystem.quaternion, Three.get, Three.setXYZW, Three.with_array. simpl.
  rewrite Hsz. lookup_insert. reflexivity.
Qed.

Lemma quaternion_setXYZW_other (a : Three.BufferAttribute) (i j : nat) (x y z w : R) :
  Three.itemSize a = 4%nat ->
  j <> i ->
  ParticleSystem.quaternion (Three.setXYZW a i x y z w) j = ParticleSystem.quaternion a j.
Proof.
  intros Hsz Hne.
  unfold ParticleSystem.quaternion, Three.get, Three.setXYZW, Three.with_array. simpl.
  rewrite Hsz. lookup_insert. reflexivity.
Qed.

(** *** Normalisation *)

Lemma squares_nonneg (v : Three.Vector4) :
  0 <= Three.x v * Three.x v + Three.y v * Three.y v
       + Three.z v * Three.z v + Three.w v * Three.w v.
Proof. nra. Qed.

Lemma length4_zero_iff (v : Three.Vector4) :
  Three.length4 v = 0
  <-> Three.x v = 0 /\ Three.y v = 0 /\ Three.z v = 0 /\ Three.w v = 0.
Proof.
  unfold Three.length4. split.
  - intros H. apply sqrt_eq_0 in H; [|apply squares_nonneg]. repeat split; nra.
  - intros (-> & -> & -> & ->).
    replace (0 * 0 + 0 * 0 + 0 * 0 + 0 * 0) with 0 by lra. apply sqrt_0.
Qed.

(** A vector that is not zero is normalised to magnitude 1. *)
Lemma length4_normalize (v : Three.Vector4) :
  Three.length4 v <> 0 -> Three.length4 (Three.normalize v) = 1.
Proof.
  intros Hnz. unfold Three.normalize.
  destruct (Req_dec_T (Three.length4 v) 0) as [Hz|_]; [contradiction|].
  pose proof (sqrt_sqrt _ (squares_nonneg v)) as Hsq.
  fold (Three.length4 v) in Hsq.
  unfold Three.divideScalar, Three.multiplyScalar.
  unfold Three.length4 at 1. simpl.
  set (l := Three.length4 v) in *.
  replace (Three.x v * (1 / l) * (Three.x v * (1 / l))
           + Three.y v * (1 / l) * (Three.y v * (1 / l))
           + Three.z v * (1 / l) * (Three.z v * (1 / l))
           + Three.w v * (1 / l) * (Three.w v * (1 / l)))
    with ((Three.x v * Three.x v + Three.y v * Three.y v
           + Three.z v * Three.z v + Three.w v * Three.w v) * (/ l * / l))
    by (field; exact Hnz).
  rewrite <- Hsq.
  replace (l * l * (/ l * / l)) with 1 by (field; exact Hnz).
  apply sqrt_1.
Qed.

(** The zero vector is left as it is. *)
Lemma normalize_zero (v : Three.Vector4) :
  Three.length4 v = 0 -> Three.length4 (Three.normalize v) = 0.
Proof.
  intros Hz. unfold Three.normalize.
  destruct (Req_dec_T (Three.length4 v) 0) as [_|Hnz]; [|contradiction].
  apply length4_zero_iff in Hz as (Hx & Hy & Hz & Hw).
  apply length4_zero_iff. unfold Three.divideScalar, Three.multiplyScalar. simpl.
  rewrite Hx, Hy, Hz, Hw. repeat split; lra.
Qed.

(** *** The loops of the constructor *)

(** A loop whose every iteration draws [k] numbers and keeps the shape of
    the attribute ends with the shape kept and [k * n] numbers drawn. *)
Lemma wp_for_shaped (k : nat) (body : nat -> Three.BufferAttribute -> Js.M Js.Runtime Three.BufferAttribute)
      (a0 : Three.BufferAttribute) (rt : Js.Runtime) (n : nat) :
  (forall i a s, shaped a a0 ->
                 wp (body i a) (fun a' s' => shaped a' a0 /\ s' = advance s k) s) ->
  wp (Js.for_ body 0 n a0) (fun a s => shaped a a0 /\ s = advance rt (k * n)) rt.
Proof.
  intros Hbody.
  apply (wp_for (fun i a s => shaped a a0 /\ s = advance rt (k * i)) body n 0 a0 rt).
  - split; [apply shaped_refl|]. rewrite Nat.mul_0_r, advance_0. reflexivity.
  - intros i a s _ [Hsh ->].
    eapply wp_mono; [apply Hbody; exact Hsh|].
    intros a' s' [Hsh' ->]. split; [exact Hsh'|].
    rewrite advance_advance. f_equal. lia.
Qed.

Lemma entries_fit (len i : nat) : (i < len / 4 -> i * 4 + 3 < len)%nat.
Proof. intros Hi. pose proof (Nat.Div0.mul_div_le len 4). lia. Qed.

Lemma wp_fill_orientations (a0 : Three.BufferAttribute) (rt : Js.Runtime) :
  Three.itemSize a0 = 4%nat ->
  wp (ParticleSystem.fill_orientations a0)
     (fun a s => shaped a a0 /\ s = advance rt (4 * Three.count a0)
                 /\ orientations_from (Js.entropy rt) (Js.draws rt) (Three.count a0) a)
     rt.
Proof.
  intros Hsz. unfold ParticleSystem.fill_orientations.
  apply (wp_for
           (fun i a s => shaped a a0 /\ s = advance rt (4 * i)
                         /\ orientations_from (Js.entropy rt) (Js.draws rt) i a)
           _ (Three.count a0) 0 a0 rt).
  - split; [apply shaped_refl|]. split; [rewrite advance_0; reflexivity|].
    intros i Hi. lia.
  - intros i a s Hi (Hsh & -> & Hq).
    apply wp_bind. unfold ParticleSystem.random_orientation.
    do 4 apply wp_bind, wp_random. apply wp_ret, wp_ret.
    split; [apply shaped_setXYZW; exact Hsh|].
    split; [rewrite !advance_advance; f_equal; lia|].
    destruct Hsh as (_ & Hsz' & _ & Hlen). rewrite Hsz in Hsz'.
    intros j Hj. destruct (decide (j = i)) as [->|Hne].
    + rewrite quaternion_setXYZW_same.
      * destruct (Three.normalize _) eqn:Hn. simpl. rewrite <- Hn.
        unfold sample. simpl. rewrite <- !Nat.add_assoc. reflexivity.
      * exact Hsz'.
      * rewrite Hlen. apply entries_fit. unfold Three.count in Hi. rewrite Hsz in Hi. lia.
    + rewrite quaternion_setXYZW_other by assumption. apply Hq. lia.
Qed.

Lemma count_replicate (n k : nat) (id : nat) (m : option nat) :
  Three.count {| Three.array_id := id; Three.array := replicate (n * S k) 0;
                 Three.itemSize := S k; Three.meshPerAttribute := m |} = n.
Proof.
  unfold Three.count. simpl Three.array. simpl Three.itemSize.
  rewrite length_replicate. apply Nat.div_mul. discriminate.
Qed.

(** *** The constructor as a whole *)

Ltac find_attribute :=
  unfold ParticleSystem.attribute, Three.addAttribute;
  cbn [ParticleSystem.mesh Three.geometry Three.attributes];
  repeat (rewrite lookup_insert_ne by discriminate);
  apply lookup_insert_eq.

Lemma construct_wp (N : Z) (rt : Js.Runtime) :
  (0 <= N)%Z ->
  wp (ParticleSystem.construct true N) (built (Z.to_nat N) rt) rt.
Proof.
  intros HN. unfold ParticleSystem.construct.
  set (n := Z.to_nat N).
  apply wp_bind. simpl ParticleSystem.classCallCheck. apply wp_ret. cbv beta zeta.
  apply wp_bind, wp_new_object.
  apply wp_bind, wp_new_BufferAttribute; [lia|].
  (* offsets *)
  apply wp_bind, wp_new_InstancedBufferAttribute; [lia|].
  replace (Z.to_nat (N * 3)) with (n * 3)%nat by lia.
  apply wp_bind. rewrite count_replicate.
  eapply wp_mono.
  { apply (wp_for_shaped 3). intros i a s Hsh.
    do 3 apply wp_bind, wp_random. apply wp_ret.
    split; [apply shaped_setXYZ; exact Hsh | rewrite !advance_advance; reflexivity]. }
  cbv beta. intros offsets s [Hoffsets ->].
  (* colors *)
  apply wp_bind, wp_new_InstancedBufferAttribute; [lia|].
  replace (Z.to_nat (N * 4)) with (n * 4)%nat by lia.
  apply wp_bind, wp_new_object.
  apply wp_bind. rewrite count_replicate.
  match goal with
  | |- wp (Js.for_ ?body 0 n (_, ?a0)) _ ?s0 =>
      eapply wp_mono;
      [ apply (wp_for (fun (_ : nat) (p : Z * Three.BufferAttribute) s =>
                         shaped (snd p) a0 /\ s = s0) body n 0)
      | ]
  end.
  { split; [apply shaped_refl | reflexivity]. }
  { intros i [count colors] s _ [Hsh ->]. simpl in Hsh.
    destruct (count =? 1)%Z; apply wp_ret;
      (split; [apply shaped_setXYZW; exact Hsh | reflexivity]). }
  cbv beta. intros [count colors] s [Hcolors ->]. simpl in Hcolors.
  (* timeOffsets *)
  apply wp_bind, wp_new_InstancedBufferAttribute; [lia|].
  replace (Z.to_nat (N * 1)) with (n * 1)%nat by lia.
  apply wp_bind. rewrite count_replicate.
  eapply wp_mono.
  { apply (wp_for_shaped 1). intros i a s Hsh.
    apply wp_bind, wp_random. apply wp_ret.
    split; [apply shaped_setX; exact Hsh | reflexivity]. }
  cbv beta. intros timeOffsets s [HtimeOffsets ->].
  (* orientations *)
  apply wp_bind, wp_new_object.
  apply wp_bind, wp_new_InstancedBufferAttribute; [lia|].
  replace (Z.to_nat (N * 4)) with (n * 4)%nat by lia.
  apply wp_bind.
  eapply wp_mono; [apply wp_fill_orientations; reflexivity|].
  cbv beta. rewrite count_replicate. intros orientationsStart s (HoStart & -> & HqStart).
  apply wp_bind, wp_new_InstancedBufferAttribute; [lia|].
  replace (Z.to_nat (N * 4)) with (n * 4)%nat by lia.
  apply wp_bind.
  eapply wp_mono; [apply wp_fill_orientations; reflexivity|].
  cbv beta. rewrite count_replicate. intros orientationsEnd s (HoEnd & -> & HqEnd).
  (* material and mesh *)
  apply wp_bind, wp_new_object.
  apply wp_bind, wp_new_object.
  apply wp_ret.
  destruct Hoffsets as (Hid1 & Hsz1 & _ & Hlen1).
  destruct Hcolors as (Hid2 & Hsz2 & _ & Hlen2).
  destruct HtimeOffsets as (Hid3 & Hsz3 & _ & Hlen3).
  destruct HoStart as (Hid4 & Hsz4 & _ & Hlen4).
  destruct HoEnd as (Hid5 & Hsz5 & _ & Hlen5).
  cbn [Js.heap Js.entropy Js.draws allocate advance Three.array_id Three.array Three.itemSize] in *.
  rewrite !length_app in *. rewrite !length_replicate in *.
  cbn [length] in *.
  assert (Hcount : forall a k, Three.itemSize a = S k -> length (Three.array a) = (n * S k)%nat ->
                               Three.count a = n).
  { intros a k Hsz Hlen. unfold Three.count. rewrite Hsz, Hlen.
    apply Nat.div_mul. discriminate. }
  constructor; cbn [Js.heap Js.entropy Js.draws allocate advance].
  - cbn [ParticleSystem.time]. lra.
  - unfold ParticleSystem.time_uniform. cbn. lra.
  - rewrite <- !app_assoc. reflexivity.
  - reflexivity.
  - lia.
  - reflexivity.
  - cbn [ParticleSystem.mesh Three.mesh_id]. lia.
  - eexists. split; [find_attribute|]. split; [cbn; lia|].
    unfold Three.count, Three.setXYZ, Three.with_array. cbn [Three.array Three.itemSize].
    rewrite !length_insert, length_replicate. reflexivity.
  - exists offsets. split; [find_attribute|]. split; [lia|]. apply (Hcount _ 2%nat); assumption.
  - exists colors. split; [find_attribute|]. split; [lia|]. apply (Hcount _ 3%nat); assumption.
  - exists timeOffsets. split; [find_attribute|]. split; [lia|]. apply (Hcount _ 0%nat); assumption.
  - exists orientationsStart. split; [find_attribute|]. split; [lia|].
    split; [apply (Hcount _ 3%nat); assumption|].
    replace (Js.draws rt + 4 * n)%nat with (Js.draws rt + 3 * n + 1 * n)%nat by lia.
    exact HqStart.
  - exists orientationsEnd. split; [find_attribute|]. split; [lia|].
    split; [apply (Hcount _ 3%nat); assumption|].
    replace (Js.draws rt + 8 * n)%nat with (Js.draws rt + 3 * n + 1 * n + 4 * n)%nat by lia.
    exact HqEnd.
  - intros name a Ha.
    unfold ParticleSystem.attribute, Three.addAttribute in Ha.
    cbn [ParticleSystem.mesh Three.geometry Three.attributes] in Ha.
    rewrite !length_app. cbn [length].
    repeat (apply lookup_insert_Some in Ha as [[_ <-]|[_ Ha]]);
      [ .. | rewrite lookup_empty in Ha; discriminate ];
      cbn [Three.array_id Three.setXYZ Three.with_array]; lia.
Qed.

Lemma construct_ok (N : Z) (rt : Js.Runtime) :
  (0 <= N)%Z ->
  exists ps rt', ParticleSystem.construct true N rt = Js.Ok ps rt'
                 /\ built (Z.to_nat N) rt ps rt'.
Proof. intros HN. apply wp_ok, construct_wp, HN. Qed.

Lemma bind_ok {St A B} (m : Js.M St A) (k : A -> Js.M St B) (s s' : St) (a : A) :
  m s = Js.Ok a s' -> Js.bind m k s = k a s'.
Proof. intros H. unfold Js.bind. rewrite H. reflexivity. Qed.

Lemma bind_throw {St A B} (m : Js.M St A) (k : A -> Js.M St B) (s s' : St) (e : Js.Error) :
  m s = Js.Throw e s' -> Js.bind m k s = Js.Throw e s'.
Proof. intros H. unfold Js.bind. rewrite H. reflexivity. Qed.

Lemma sample_zero_iff (e : nat -> R) (d : nat) :
  Three.length4 (sample e d) = 0 <-> degenerate e d.
Proof.
  rewrite length4_zero_iff. unfold sample, degenerate. simpl.
  split; intros (H1 & H2 & H3 & H4); repeat split; lra.
Qed.

Lemma per_instance_counts (n : nat) (rt : Js.Runtime) (ps : ParticleSystem.T) (rt' : Js.Runtime) :
  built n rt ps rt' ->
  forall name, In name per_instance ->
    exists a, ParticleSystem.attribute ps name = Some a /\ Three.count a = n.
Proof.
  intros Hb name Hin. unfold per_instance in Hin. simpl in Hin.
  destruct Hin as [<-|[<-|[<-|[<-|[<-|[]]]]]].
  - destruct (built_offset _ _ _ _ Hb) as (a & ? & ? & ?); eauto.
  - destruct (built_color _ _ _ _ Hb) as (a & ? & ? & ?); eauto.
  - destruct (built_timeOffset _ _ _ _ Hb) as (a & ? & ? & ?); eauto.
  - destruct (built_orientationStart _ _ _ _ Hb) as (a & ? & ? & ? & ?); eauto.
  - destruct (built_orientationEnd _ _ _ _ Hb) as (a & ? & ? & ? & ?); eauto.
Qed.

(** An entry that is the normalised sample of its draws has magnitude 1,
    unless its four draws were all 0.5: then it is the zero quaternion. *)
Lemma normalised_entry (e : nat -> R) (d : nat) (a : Three.BufferAttribute) (i : nat) :
  ParticleSystem.quaternion a i = Some (Three.normalize (sample e d)) ->
  (~ degenerate e d -> unit_within 0 a i)
  /\ (degenerate e d ->
      exists q, ParticleSystem.quaternion a i = Some q /\ Three.length4 q = 0).
Proof.
  intros Hq. split.
  - intros Hnd. exists (Three.normalize (sample e d)). split; [exact Hq|].
    rewrite length4_normalize by (rewrite sample_zero_iff; exact Hnd).
    replace (1 - 1) with 0 by lra. rewrite Rabs_R0. lra.
  - intros Hd. exists (Three.normalize (sample e d)). split; [exact Hq|].
    apply normalize_zero, sample_zero_iff, Hd.
Qed.

Lemma unit_within_mono (tol tol' : R) (a : Three.BufferAttribute) (i : nat) :
  tol <= tol' -> unit_within tol a i -> unit_within tol' a i.
Proof. intros Hle (q & Hq & Hmag). exists q. split; [exact Hq | lra]. Qed.

(** C4 (amended). For every count [N > 0], construction returns, and every
    per-instance attribute (offset, color, timeOffset, orientationStart,
    orientationEnd) has exactly [N] entries; every entry of the two
    orientation attributes is the normalised vector of four consecutive
    draws: its magnitude is exactly 1 unless the four draws were all 0.5,
    and then the stored entry is the zero quaternion. *)
Theorem construct_counts_and_orientations (N : Z) (rt : Js.Runtime) :
  (0 < N)%Z ->
  exists ps rt',
    ParticleSystem.construct true N rt = Js.Ok ps rt'
    /\ (forall name, In name per_instance ->
          exists a, ParticleSystem.attribute ps name = Some a
                    /\ Three.count a = Z.to_nat N)
    /\ (forall name, In name ["orientationStart"; "orientationEnd"] ->
          exists a d,
            ParticleSystem.attribute ps name = Some a
            /\ forall i, (i < Z.to_nat N)%nat ->
                 (~ degenerate (Js.entropy rt) (d + 4 * i) -> unit_within 0 a i)
                 /\ (degenerate (Js.entropy rt) (d + 4 * i) ->
                     exists q, ParticleSystem.quaternion a i = Some q
                               /\ Three.length4 q = 0)).
Proof.
  intros HN.
  destruct (construct_ok N rt) as (ps & rt' & Hrun & Hb); [lia|].
  exists ps, rt'. split; [exact Hrun|]. split; [apply (per_instance_counts _ _ _ _ Hb)|].
  intros name Hin. simpl in Hin. destruct Hin as [<-|[<-|[]]].
  - destruct (built_orientationStart _ _ _ _ Hb) as (a & Ha & _ & _ & Hq).
    exists a, (Js.draws rt + 4 * Z.to_nat N)%nat. split; [exact Ha|].
    intros i Hi. apply normalised_entry, Hq, Hi.
  - destruct (built_orientationEnd _ _ _ _ Hb) as (a & Ha & _ & _ & Hq).
    exists a, (Js.draws rt + 8 * Z.to_nat N)%nat. split; [exact Ha|].
    intros i Hi. apply normalised_entry, Hq, Hi.
Qed.

Lemma construct_counts_and_orientations_witness :
  (0 < 2000)%Z
  /\ exists ps rt',
       ParticleSystem.new stuck_at_quarter = Js.Ok ps rt'
       /\ exists a, ParticleSystem.attribute ps "timeOffset" = Some a
                    /\ Three.count a = 2000%nat.
Proof.
  split; [lia|].
  destruct (construct_counts_and_orientations 2000 stuck_at_quarter)
    as (ps & rt' & Hrun & Hcount & _); [lia|].
  exists ps, rt'. split; [exact Hrun|].
  destruct (Hcount "timeOffset") as (a & Ha & Hc); [simpl; tauto|].
  exists a. split; [exact Ha|]. rewrite Hc. reflexivity.
Defined.

(** The claim of C4 as the specification states it fails when the random
    source returns 0.5 four times in a row: the first entry of
    [orientationStart] of [new ParticleSystem()] is then the zero
    quaternion, whose magnitude is not within 1e-5 of 1. *)
Lemma orientation_of_equal_draws_not_unit :
  Js.entropy_in_range stuck_at_half
  /\ exists ps rt',
       ParticleSystem.new stuck_at_half = Js.Ok ps rt'
       /\ exists a, ParticleSystem.attribute ps "orientationStart" = Some a
                    /\ ~ unit_within 1e-5 a 0.
Proof.
  split; [intros k; simpl; lra|].
  destruct (construct_ok 2000 stuck_at_half) as (ps & rt' & Hrun & Hb); [lia|].
  exists ps, rt'. split; [exact Hrun|].
  destruct (built_orientationStart _ _ _ _ Hb) as (a & Ha & _ & _ & Hq).
  exists a. split; [exact Ha|].
  intros (q & Hq' & Hmag).
  rewrite (Hq 0%nat) in Hq' by (change (Z.to_nat 2000) with 2000%nat; lia).
  injection Hq' as <-.
  rewrite normalize_zero in Hmag.
  - replace (0 - 1) with (-1) in Hmag by lra. rewrite Rabs_left in Hmag; lra.
  - apply sample_zero_iff. repeat split; reflexivity.
Qed.

(** The only check the constructor makes: called without [new], it throws
    before anything is allocated. *)
Lemma construct_without_new (N : Z) (rt : Js.Runtime) :
  ParticleSystem.construct false N rt = Js.Throw (Js.TypeError "Class already exists.") rt.
Proof. reflexivity. Qed.

(** C10. The constructor leaves the [time] uniform at 5.0, outside
    [-1, 1]; after any sequence of at least one [update] the uniform lies
    in [-1, 1]; and every [update] strictly increases the accumulator. *)
Theorem time_uniform_oscillates (rt : Js.Runtime) :
  (exists ps rt',
      ParticleSystem.new rt = Js.Ok ps rt'
      /\ ParticleSystem.time_uniform ps = 5.0
      /\ ~ (-1 <= ParticleSystem.time_uniform ps <= 1))
  /\ (forall (this : ParticleSystem.T) (dt : R) (dts : list R),
        -1 <= ParticleSystem.time_uniform (ParticleSystem.updates (dt :: dts) this) <= 1)
  /\ (forall (this : ParticleSystem.T) (dt : R),
        ParticleSystem.time this < ParticleSystem.time (ParticleSystem.update dt this)).
Proof.
  split; [|split].
  - destruct (construct_ok 2000 rt) as (ps & rt' & Hrun & Hb); [lia|].
    exists ps, rt'. split; [exact Hrun|].
    rewrite (built_uniform _ _ _ _ Hb). split; lra.
  - intros this dt dts. apply time_uniform_after_updates.
  - intros this dt. unfold ParticleSystem.update. simpl. lra.
Qed.

(** ** Running the effects of the two views *)

Lemma wp_zoom {St St' A} (get : St -> St') (set : St -> St' -> St) (m : Js.M St' A)
      (Q : A -> St -> Prop) (s : St) :
  wp m (fun a s' => Q a (set s s')) (get s) -> wp (Js.zoom get set m) Q s.
Proof. unfold wp, Js.zoom. destruct (m (get s)); trivial. Qed.

Lemma wp_for_each {St A} (I : St -> Prop) (body : A -> Js.M St unit) (l : list A) :
  (forall a s, I s -> wp (body a) (fun _ => I) s) ->
  forall s, I s -> wp (Js.for_each body l) (fun _ => I) s.
Proof.
  intros Hbody. induction l as [|a l IH]; intros s HI; simpl.
  - exact HI.
  - apply wp_bind. eapply wp_mono; [apply Hbody, HI|]. intros u s' HI'. apply IH, HI'.
Qed.

(** One step of a straight-line computation. *)
Ltac js_step :=
  lazymatch goal with
  | |- wp (Js.bind _ _) _ _ => apply wp_bind
  | |- wp (Js.ret _) _ _ => apply wp_ret
  | |- wp (Js.gets _) _ _ => apply wp_gets
  | |- wp (Js.modify _) _ _ => apply wp_modify
  | |- wp (Js.deref (Some _)) _ _ => apply wp_deref
  | |- wp (Js.zoom _ _ (Js.new_object _)) _ _ => apply wp_zoom, wp_new_object
  end.

(** States are kept as record literals while a computation is run. *)
#[local] Arguments allocate rt a /.
#[local] Arguments Host.set_rt {Cb} h rt' /.
#[local] Arguments Host.set_now {Cb} h t /.
#[local] Arguments Host.set_window {Cb} h w' h' /.
#[local] Arguments Host.set_raf {Cb} h q next /.
#[local] Arguments Host.add_call {Cb} h c /.
#[local] Arguments Host.requestAnimationFrame {Cb} cb h /.
#[local] Arguments Host.fresh {Cb} rt now w h ratio /.
#[local] Arguments Host.PerspectiveCamera id fov aspect near far /.
#[local] Arguments Host.set_position c p /.
#[local] Arguments Host.set_aspect c a /.
#[local] Arguments Host.updateProjectionMatrix c /.
#[local] Arguments Host.setSize r w h /.
#[local] Arguments Host.add s c /.
#[local] Arguments RoboticsScene.initial h /.
#[local] Arguments RoboticsScene.set_host w h /.
#[local] Arguments RoboticsScene.set_container w c /.
#[local] Arguments RoboticsScene.set_resize_listeners w n /.
#[local] Arguments RoboticsScene.set_clocks w c /.
#[local] Arguments RoboticsScene.set_width_height w w' h' /.
#[local] Arguments RoboticsScene.set_scene w s /.
#[local] Arguments RoboticsScene.set_camera w c /.
#[local] Arguments RoboticsScene.set_renderer w r /.
#[local] Arguments RoboticsScene.set_particles w p /.
#[local] Arguments Portrait.initial h cw ch /.
#[local] Arguments Portrait.set_host w h /.
#[local] Arguments Portrait.set_client_size w cw ch /.
#[local] Arguments Portrait.set_resize_listeners w l /.
#[local] Arguments Portrait.set_mousemove_listeners w n /.
#[local] Arguments Portrait.set_renderer w r /.
#[local] Arguments Portrait.set_camera w c /.
#[local] Arguments Portrait.set_scene w s /.
#[local] Arguments Portrait.set_lights w l /.
#[local] Arguments Portrait.set_animation w a /.

Ltac js_eval :=
  cbv beta;
  cbn [fst snd negb andb orb lookup list_lookup length app Js.for_ Js.for_each
       Js.heap Js.entropy Js.draws allocate advance
       Host.rt Host.now Host.innerWidth Host.innerHeight Host.devicePixelRatio
       Host.raf_queue Host.raf_next Host.calls Host.fresh
       Host.set_rt Host.set_now Host.set_window Host.set_raf Host.add_call
       Host.requestAnimationFrame Host.cancelAnimationFrame
       Host.camera_id Host.fov Host.aspect Host.near Host.far Host.position
       Host.projectionMatrix Host.PerspectiveCamera Host.set_position Host.set_aspect
       Host.updateProjectionMatrix
       Host.renderer_id Host.domElement Host.pixelRatio Host.clearColor Host.size
       Host.setSize Host.scene_id Host.children Host.background Host.environment
       Host.add Host.light_id
       RoboticsScene.host RoboticsScene.container RoboticsScene.resize_listeners
       RoboticsScene.clocks RoboticsScene.width RoboticsScene.height
       RoboticsScene.scene RoboticsScene.camera RoboticsScene.renderer
       RoboticsScene.particles RoboticsScene.initial
       RoboticsScene.set_host RoboticsScene.set_container
       RoboticsScene.set_resize_listeners RoboticsScene.set_clocks
       RoboticsScene.set_width_height RoboticsScene.set_scene RoboticsScene.set_camera
       RoboticsScene.set_renderer RoboticsScene.set_particles
       RoboticsScene.running RoboticsScene.oldTime RoboticsScene.elapsedTime
       RoboticsScene.theme RoboticsScene.currentTheme RoboticsScene.prefersReducedMotion
       Portrait.host Portrait.clientWidth Portrait.clientHeight
       Portrait.resize_listeners Portrait.mousemove_listeners Portrait.renderer
       Portrait.camera Portrait.scene Portrait.lights Portrait.animation
       Portrait.initial Portrait.set_host Portrait.set_client_size
       Portrait.set_resize_listeners Portrait.set_mousemove_listeners
       Portrait.set_renderer Portrait.set_camera Portrait.set_scene Portrait.set_lights
       Portrait.set_animation
       Portrait.colorWhite Portrait.themeId Portrait.rgbBackgroundLight
       Portrait.prefersReducedMotion Portrait.isInViewport].

Ltac js_run := repeat (js_step; js_eval).

Lemma particles_effect_wp (w : RoboticsScene.World) :
  wp RoboticsScene.particles_effect
     (fun _ w' =>
        exists ps rt',
          built (Z.to_nat 2000) (Host.rt (RoboticsScene.host w)) ps rt'
          /\ w' = RoboticsScene.set_particles
                    (RoboticsScene.set_host w (Host.set_rt (RoboticsScene.host w) rt')) ps)
     w.
Proof.
  unfold RoboticsScene.particles_effect, RoboticsScene.in_runtime.
  apply wp_bind, wp_zoom.
  eapply wp_mono; [apply (construct_wp 2000); lia|].
  intros ps rt' Hb. apply wp_modify. exists ps, rt'. split; [exact Hb | reflexivity].
Qed.

Lemma wp_then {St} (m1 m2 : Js.M St unit) (F : St -> St -> Prop) (s : St) :
  wp m1 (fun _ s1 => wp m2 (fun _ s2 => F s1 s2) s1) s ->
  exists s1 s2, m1 s = Js.Ok tt s1 /\ m2 s1 = Js.Ok tt s2 /\ F s1 s2.
Proof.
  intros H. apply wp_ok in H as ([] & s1 & H1 & H).
  apply wp_ok in H as ([] & s2 & H2 & H). eauto.
Qed.

Lemma wp_run {St} (m : Js.M St unit) (F : St -> Prop) (s : St) :
  wp m (fun _ s1 => F s1) s -> exists s1, m s = Js.Ok tt s1 /\ F s1.
Proof. intros H. apply wp_ok in H as ([] & s1 & H1 & H). eauto. Qed.

Ltac unfold_robotics :=
  unfold RoboticsScene.mount, RoboticsScene.rerender, RoboticsScene.scene_effect,
    RoboticsScene.resize_effect, RoboticsScene.render_effect, RoboticsScene.render,
    RoboticsScene.getDelta, RoboticsScene.handleWindowResize,
    RoboticsScene.new_object, RoboticsScene.in_runtime, RoboticsScene.log.

(** Runs [particles_effect] and names what it built. *)
Ltac run_particles_effect ps rt' Hb :=
  lazymatch goal with
  | |- wp (Js.bind RoboticsScene.particles_effect _) _ _ => apply wp_bind
  | |- wp RoboticsScene.particles_effect _ _ => idtac
  end;
  eapply wp_mono; [apply particles_effect_wp|];
  cbv beta; intros _ ? (ps & rt' & Hb & ->).

Lemma built_named (n : nat) (rt : Js.Runtime) (ps : ParticleSystem.T) (rt' : Js.Runtime) :
  built n rt ps rt' ->
  forall name, In name ("position" :: per_instance) ->
    exists a, ParticleSystem.attribute ps name = Some a
              /\ (length (Js.heap rt) <= Three.array_id a < length (Js.heap rt'))%nat.
Proof.
  intros Hb name [<-|Hin].
  - destruct (built_position _ _ _ _ Hb) as (a & Ha & _).
    exists a. split; [exact Ha | apply (built_fresh _ _ _ _ Hb _ _ Ha)].
  - destruct (per_instance_counts _ _ _ _ Hb name Hin) as (a & Ha & _).
    exists a. split; [exact Ha | apply (built_fresh _ _ _ _ Hb _ _ Ha)].
Qed.

Lemma built_heap_length (n : nat) (rt : Js.Runtime) (ps : ParticleSystem.T) (rt' : Js.Runtime) :
  built n rt ps rt' -> length (Js.heap rt') = (length (Js.heap rt) + 11)%nat.
Proof. intros Hb. rewrite (built_heap _ _ _ _ Hb), length_app. reflexivity. Qed.

(** C5. A mounted [RoboticsScene] whose theme changes to one with another
    id does not keep its camera, renderer, scene or particle buffers: the
    render that follows runs the effect without dependency list, which
    builds a new [ParticleSystem] (every attribute in a newly allocated
    typed array), and the effect on [currentTheme], which builds a new
    scene, a new camera (at the same position), a new renderer and a second
    canvas in the container. *)
Theorem robotics_theme_change_rebuilds
        (rt : Js.Runtime) (now : R) (iw ih : Z) (dpr : R)
        (themes : RoboticsScene.ThemeId -> RoboticsScene.Theme)
        (t_old t_new : RoboticsScene.Theme) (prm : bool) :
  RoboticsScene.id t_old <> RoboticsScene.id t_new ->
  let p_old := {| RoboticsScene.theme := themes; RoboticsScene.currentTheme := t_old;
                  RoboticsScene.prefersReducedMotion := prm |} in
  let p_new := {| RoboticsScene.theme := themes; RoboticsScene.currentTheme := t_new;
                  RoboticsScene.prefersReducedMotion := prm |} in
  exists w1 w2,
    RoboticsScene.mount p_old (RoboticsScene.initial (Host.fresh rt now iw ih dpr))
    = Js.Ok tt w1
    /\ RoboticsScene.rerender p_old p_new w1 = Js.Ok tt w2
    /\ exists cam1 cam2 r1 r2 s1 s2 ps1 ps2,
         RoboticsScene.camera w1 = Some cam1 /\ RoboticsScene.camera w2 = Some cam2
         /\ Host.camera_id cam1 <> Host.camera_id cam2
         /\ Host.position cam1 = Host.position cam2
         /\ RoboticsScene.renderer w1 = Some r1 /\ RoboticsScene.renderer w2 = Some r2
         /\ Host.renderer_id r1 <> Host.renderer_id r2
         /\ RoboticsScene.scene w1 = Some s1 /\ RoboticsScene.scene w2 = Some s2
         /\ Host.scene_id s1 <> Host.scene_id s2
         /\ length (RoboticsScene.container w1) = 1%nat
         /\ length (RoboticsScene.container w2) = 2%nat
         /\ RoboticsScene.particles w1 = Some ps1 /\ RoboticsScene.particles w2 = Some ps2
         /\ (forall name, In name ("position" :: per_instance) ->
               exists a1 a2,
                 ParticleSystem.attribute ps1 name = Some a1
                 /\ ParticleSystem.attribute ps2 name = Some a2
                 /\ Three.array_id a1 <> Three.array_id a2).
Proof.
  intros Hid p_old p_new. subst p_old p_new.
  assert (Hne : t_old <> t_new) by congruence.
  apply wp_then.
  unfold RoboticsScene.mount.
  run_particles_effect ps1 rt1 Hb1.
  unfold_robotics. js_eval.
  destruct prm; js_eval; js_run.
  all: run_particles_effect ps2 rt2 Hb2.
  all: js_eval; destruct (decide (t_old = t_new)) as [Heq|_]; [contradiction|].
  all: js_run.
  all: match goal with
       | |- context [decide (?b = ?b)] => destruct (decide (b = b)) as [_|Hf]; [|congruence]
       end; js_run.
  all: revert Hb1 Hb2; js_eval; intros Hb1 Hb2.
  all: pose proof (built_heap_length _ _ _ _ Hb1) as Hlen1.
  all: pose proof (built_heap_length _ _ _ _ Hb2) as Hlen2.
  all: cbn [Js.heap] in Hlen2; rewrite !length_app in Hlen2; cbn [length] in Hlen2.
  all: do 8 eexists.
  all: repeat (split; [first [reflexivity | cbn; rewrite ?length_app; cbn [length]; lia]|]).
  all: intros name Hin.
  all: destruct (built_named _ _ _ _ Hb1 name Hin) as (a1 & Ha1 & Hr1).
  all: destruct (built_named _ _ _ _ Hb2 name Hin) as (a2 & Ha2 & Hr2).
  all: cbn [Js.heap] in Hr2; rewrite !length_app in Hr2; cbn [length] in Hr2.
  all: exists a1, a2; split; [exact Ha1 | split; [exact Ha2 | lia]].
Qed.

(** ** The lifecycle of [RoboticsScene] *)

(** What mounting leaves, whatever the theme: one [setSize] from the scene
    effect; with motion allowed, one listener, one tick rendered and the
    next one pending; with reduced motion, no listener, no render, no tick.
    The resize routine is not entered. *)
Lemma robotics_mount_wp (rt : Js.Runtime) (now : R) (iw ih : Z) (dpr : R)
      (themes : RoboticsScene.ThemeId -> RoboticsScene.Theme)
      (t : RoboticsScene.Theme) (prm : bool) :
  wp (RoboticsScene.mount
        {| RoboticsScene.theme := themes; RoboticsScene.currentTheme := t;
           RoboticsScene.prefersReducedMotion := prm |})
     (fun _ w =>
        exists rid sid cid canvas,
          Host.calls (RoboticsScene.host w)
          = Host.SetSize rid iw ih :: (if prm then [] else [Host.Render rid sid cid])
          /\ Host.raf_queue (RoboticsScene.host w)
             = (if prm then [] else [(1%nat, RoboticsScene.render_closure 0)])
          /\ RoboticsScene.resize_listeners w = (if prm then 0%nat else 1%nat)
          /\ RoboticsScene.camera w
             = Some (Host.set_position
                       (Host.PerspectiveCamera cid 60 (IZR iw / IZR ih) 0.1 60)
                       (0, 1.7, 0.5))
          /\ RoboticsScene.renderer w
             = Some {| Host.renderer_id := rid; Host.domElement := canvas;
                       Host.pixelRatio := dpr;
                       Host.clearColor := Some (RoboticsScene.colorBackground t);
                       Host.size := (iw, ih) |}
          /\ RoboticsScene.container w = [canvas]
          /\ is_Some (RoboticsScene.scene w)
          /\ is_Some (RoboticsScene.particles w))
     (RoboticsScene.initial (Host.fresh rt now iw ih dpr)).
Proof.
  unfold RoboticsScene.mount.
  run_particles_effect ps1 rt1 Hb1.
  unfold_robotics. js_eval.
  destruct prm; js_eval; js_run.
  all: do 4 (first [eexists; [exact 0%nat|] | eexists]); repeat (split; [reflexivity|]).
  all: split; eexists; reflexivity.
Qed.

(** With no listener and no pending tick, no event changes the calls made
    or schedules a tick. *)
Lemma robotics_dispatch_idle (e : RoboticsScene.Event) (w : RoboticsScene.World) :
  Host.raf_queue (RoboticsScene.host w) = [] ->
  RoboticsScene.resize_listeners w = 0%nat ->
  wp (RoboticsScene.dispatch e)
     (fun _ w' =>
        Host.raf_queue (RoboticsScene.host w') = []
        /\ RoboticsScene.resize_listeners w' = 0%nat
        /\ Host.calls (RoboticsScene.host w') = Host.calls (RoboticsScene.host w))
     w.
Proof.
  intros Hq Hl. destruct w as [h ? ? ? ? ? ? ? ? ?]. destruct h.
  cbn in Hq, Hl. subst.
  destruct e; unfold RoboticsScene.dispatch; js_eval; js_run; repeat split.
Qed.

Lemma robotics_idle_forever (es : list RoboticsScene.Event) :
  forall w : RoboticsScene.World,
    Host.raf_queue (RoboticsScene.host w) = [] ->
    RoboticsScene.resize_listeners w = 0%nat ->
    wp (Js.for_each RoboticsScene.dispatch es)
       (fun _ w' =>
          Host.raf_queue (RoboticsScene.host w') = []
          /\ Host.calls (RoboticsScene.host w') = Host.calls (RoboticsScene.host w))
       w.
Proof.
  induction es as [|e es IH]; intros w Hq Hl.
  - simpl. split; [exact Hq | reflexivity].
  - simpl. apply wp_bind.
    eapply wp_mono; [apply robotics_dispatch_idle; assumption|].
    cbv beta. intros _ w' (Hq' & Hl' & Hc').
    eapply wp_mono; [apply IH; assumption|].
    cbv beta. intros _ w'' (Hq'' & Hc''). split; [exact Hq'' | congruence].
Qed.

(** The resize routine of [RoboticsScene] on a world whose renderer and
    camera are set. *)
Lemma handleWindowResize_wp (w : RoboticsScene.World) (r : Host.Renderer) (c : Host.Camera) :
  RoboticsScene.renderer w = Some r ->
  RoboticsScene.camera w = Some c ->
  wp RoboticsScene.handleWindowResize
     (fun _ w' =>
        let iw := Host.innerWidth (RoboticsScene.host w) in
        let ih := Host.innerHeight (RoboticsScene.host w) in
        RoboticsScene.renderer w' = Some (Host.setSize r iw ih)
        /\ RoboticsScene.camera w'
           = Some (Host.updateProjectionMatrix (Host.set_aspect c (IZR iw / IZR ih)))
        /\ Host.calls (RoboticsScene.host w')
           = Host.calls (RoboticsScene.host w)
             ++ [Host.Enter "handleWindowResize"; Host.SetSize (Host.renderer_id r) iw ih;
                 Host.UpdateProjectionMatrix (Host.camera_id c);
                 Host.Leave "handleWindowResize"])
     w.
Proof.
  intros Hr Hc. destruct w as [h ? ? ? ? ? ? ? ? ?]. destruct h.
  cbn in Hr, Hc. subst.
  unfold_robotics. js_eval. js_run.
  repeat split. rewrite <- !app_assoc. reflexivity.
Qed.

(** ** The lifecycle of [Portrait] *)

Ltac unfold_portrait :=
  unfold Portrait.mount, Portrait.rerender, Portrait.when, Portrait.init_effect,
    Portrait.lights_effect, Portrait.lights_cleanup, Portrait.removeLights,
    Portrait.resize_effect, Portrait.resize_cleanup, Portrait.handleResize,
    Portrait.mouse_effect, Portrait.mouse_cleanup, Portrait.render_effect,
    Portrait.render_cleanup, Portrait.animate, Portrait.render,
    Portrait.env_loaded, Portrait.model_loaded, Portrait.run_closure,
    Portrait.new_object, Portrait.log.

(** Turns a world known to be ready into a record with its refs set. *)
Ltac open_portrait w Hready :=
  destruct w as [[] ? ? ? ? ? ? ? ? ?];
  destruct Hready as ([? Hr] & [? Hc] & [? Hs]);
  cbn in Hr, Hc, Hs; subst.

Lemma portrait_ready_intro (w : Portrait.World) r c s :
  Portrait.renderer w = Some r -> Portrait.camera w = Some c ->
  Portrait.scene w = Some s -> portrait_ready w.
Proof. intros Hr Hc Hs. repeat split; eexists; eassumption. Qed.

(** The resize routine keeps the refs set and touches neither the pending
    ticks nor [animation]. *)
Lemma handleResize_keeps (b : bool) (w : Portrait.World) :
  portrait_ready w ->
  wp (Portrait.handleResize b)
     (fun _ w' =>
        portrait_ready w'
        /\ Host.raf_queue (Portrait.host w') = Host.raf_queue (Portrait.host w)
        /\ Portrait.animation w' = Portrait.animation w)
     w.
Proof.
  intros Hready. open_portrait w Hready.
  unfold_portrait. destruct b; js_eval; js_run.
  all: split; [eapply portrait_ready_intro; reflexivity | split; reflexivity].
Qed.

Lemma dispatch_keeps (e : Portrait.Event) (w : Portrait.World) :
  portrait_ready w ->
  portrait_loop_tracked w ->
  wp (Portrait.dispatch e)
     (fun _ w' =>
        portrait_ready w' /\ portrait_loop_tracked w'
        /\ (Host.raf_queue (Portrait.host w) = []
            -> Host.raf_queue (Portrait.host w') = []))
     w.
Proof.
  intros Hready Htracked. destruct e as [cw ch|t| |model].
  - (* Resize *)
    unfold Portrait.dispatch. js_run.
    set (w0 := Portrait.set_client_size w cw ch).
    assert (Hready0 : portrait_ready w0) by exact Hready.
    eapply wp_mono.
    { apply (wp_for_each
               (fun s => portrait_ready s
                         /\ Host.raf_queue (Portrait.host s) = Host.raf_queue (Portrait.host w)
                         /\ Portrait.animation s = Portrait.animation w)).
      - intros b s (Hs & Hq & Ha).
        eapply wp_mono; [apply handleResize_keeps, Hs|].
        cbv beta. intros _ s' (Hs' & Hq' & Ha'). split; [exact Hs' | split; congruence].
      - split; [exact Hready0 | split; reflexivity]. }
    cbv beta. intros _ s (Hs & Hq & Ha). split; [exact Hs|]. split.
    + unfold portrait_loop_tracked. rewrite Hq, Ha. exact Htracked.
    + intros H0. rewrite Hq. exact H0.
  - (* Frame *)
    destruct Htracked as [Hidle|(handle & Hq & Ha)].
    + open_portrait w Hready. cbn in Hidle. subst.
      unfold Portrait.dispatch. js_eval. js_run.
      split; [eapply portrait_ready_intro; reflexivity|].
      split; [left; reflexivity | reflexivity].
    + open_portrait w Hready. cbn in Hq, Ha. subst.
      unfold Portrait.dispatch. unfold_portrait. js_eval. js_run.
      split; [eapply portrait_ready_intro; reflexivity|].
      split; [right; eexists; split; reflexivity | discriminate].
  - (* EnvLoaded *)
    assert (Htracked' := Htracked). unfold portrait_loop_tracked in Htracked'.
    open_portrait w Hready. cbn in Htracked'.
    unfold Portrait.dispatch. unfold_portrait. js_eval. js_run.
    split; [eapply portrait_ready_intro; reflexivity|].
    split; [exact Htracked' | trivial].
  - (* ModelLoaded *)
    assert (Htracked' := Htracked). unfold portrait_loop_tracked in Htracked'.
    open_portrait w Hready. cbn in Htracked'.
    unfold Portrait.dispatch. unfold_portrait. js_eval. js_run.
    split; [eapply portrait_ready_intro; reflexivity|].
    split; [exact Htracked' | trivial].
Qed.

(** Whatever events follow, the refs stay set, the pending tick stays the
    one [animation] names, and an idle loop stays idle. *)
Lemma events_keep (es : list Portrait.Event) :
  forall w : Portrait.World,
    portrait_ready w ->
    portrait_loop_tracked w ->
    wp (Js.for_each Portrait.dispatch es)
       (fun _ w' =>
          portrait_ready w' /\ portrait_loop_tracked w'
          /\ (Host.raf_queue (Portrait.host w) = []
              -> Host.raf_queue (Portrait.host w') = []))
       w.
Proof.
  induction es as [|e es IH]; intros w Hready Htracked.
  - apply wp_ret. split; [assumption | split; [assumption | trivial]].
  - simpl. apply wp_bind.
    eapply wp_mono; [apply dispatch_keeps; assumption|].
    cbv beta. intros _ w' (Hready' & Htracked' & Hidle').
    eapply wp_mono; [apply IH; assumption|].
    cbv beta. intros _ w'' (Hready'' & Htracked'' & Hidle''). auto.
Qed.


(** What mounting a [Portrait] leaves: the resize routine entered once,
    rendering inside it only under reduced motion; one render by the
    render effect; a pending tick only with motion allowed and the canvas
    in the viewport. *)
Lemma portrait_mount_wp (rt : Js.Runtime) (now : R) (iw ih : Z) (dpr : R) (cw ch : Z)
      (white : Z) (tid : Portrait.ThemeId) (bg : Z) (prm inview : bool) :
  wp (Portrait.mount
        {| Portrait.colorWhite := white; Portrait.themeId := tid;
           Portrait.rgbBackgroundLight := bg; Portrait.prefersReducedMotion := prm;
           Portrait.isInViewport := inview |})
     (fun _ w =>
        exists rid sid cid,
          Host.calls (Portrait.host w)
          = [Host.SetSize rid cw ch; Host.Enter "handleResize"; Host.SetSize rid cw ch;
             Host.UpdateProjectionMatrix cid]
            ++ (if prm then [Host.Render rid sid cid] else [])
            ++ [Host.Leave "handleResize"; Host.Render rid sid cid]
          /\ Host.raf_queue (Portrait.host w)
             = (if negb prm && inview then [(1%nat, Portrait.animate_closure)] else [])
          /\ Portrait.animation w = (if negb prm && inview then Some 1%nat else None)
          /\ Portrait.resize_listeners w = [prm]
          /\ portrait_ready w)
     (Portrait.initial (Host.fresh rt now iw ih dpr) cw ch).
Proof.
  unfold_portrait. destruct prm, inview; js_eval; js_run.
  all: do 3 eexists; repeat (split; [reflexivity|]).
  all: eapply portrait_ready_intro; reflexivity.
Qed.


(** The loop does run when motion is allowed and the canvas is in the
    viewport: one tick is pending after mounting, and one after each frame. *)
Lemma portrait_loop_runs (rt : Js.Runtime) (now : R) (iw ih : Z) (dpr : R) (cw ch : Z)
      (white : Z) (tid : Portrait.ThemeId) (bg : Z) (t : R) :
  exists w w',
    Portrait.mount
      {| Portrait.colorWhite := white; Portrait.themeId := tid;
         Portrait.rgbBackgroundLight := bg; Portrait.prefersReducedMotion := false;
         Portrait.isInViewport := true |}
      (Portrait.initial (Host.fresh rt now iw ih dpr) cw ch) = Js.Ok tt w
    /\ Portrait.dispatch (Portrait.Frame t) w = Js.Ok tt w'
    /\ Host.raf_queue (Portrait.host w) = [(1%nat, Portrait.animate_closure)]
    /\ Host.raf_queue (Portrait.host w') = [(2%nat, Portrait.animate_closure)]
    /\ Portrait.animation w' = Some 2%nat
    /\ Host.count_calls Host.is_render (Host.calls (Portrait.host w')) = 2%nat.
Proof.
  apply wp_then.
  unfold_portrait. js_eval. js_run.
  unfold Portrait.dispatch. unfold_portrait. js_eval. js_run.
  repeat split.
Qed.

(** ** Reduced motion and resizing *)

(** C6 (amended). With the motion preference reduced, neither view ever
    has a tick pending, at mounting or after any later events. [Portrait]
    enters its resize routine once while mounting and renders twice: once
    inside that routine and exactly once after it returned.
    [RoboticsScene] neither enters its resize routine nor renders, at
    mounting or later. *)
Theorem reduced_motion_never_runs
        (rt : Js.Runtime) (now : R) (iw ih : Z) (dpr : R) (cw ch : Z)
        (white : Z) (tid : Portrait.ThemeId) (bg : Z) (inview : bool)
        (themes : RoboticsScene.ThemeId -> RoboticsScene.Theme) (t : RoboticsScene.Theme)
        (pes : list Portrait.Event) (res : list RoboticsScene.Event) :
  (exists w w',
      Portrait.mount
        {| Portrait.colorWhite := white; Portrait.themeId := tid;
           Portrait.rgbBackgroundLight := bg; Portrait.prefersReducedMotion := true;
           Portrait.isInViewport := inview |}
        (Portrait.initial (Host.fresh rt now iw ih dpr) cw ch) = Js.Ok tt w
      /\ Js.for_each Portrait.dispatch pes w = Js.Ok tt w'
      /\ Host.raf_queue (Portrait.host w) = []
      /\ Host.raf_queue (Portrait.host w') = []
      /\ Host.count_calls Host.is_enter (Host.calls (Portrait.host w)) = 1%nat
      /\ Host.count_calls Host.is_render (Host.calls (Portrait.host w)) = 2%nat
      /\ Host.count_calls Host.is_render
           (Host.after_first_leave (Host.calls (Portrait.host w))) = 1%nat)
  /\ (exists w w',
         RoboticsScene.mount
           {| RoboticsScene.theme := themes; RoboticsScene.currentTheme := t;
              RoboticsScene.prefersReducedMotion := true |}
           (RoboticsScene.initial (Host.fresh rt now iw ih dpr)) = Js.Ok tt w
         /\ Js.for_each RoboticsScene.dispatch res w = Js.Ok tt w'
         /\ Host.raf_queue (RoboticsScene.host w) = []
         /\ Host.raf_queue (RoboticsScene.host w') = []
         /\ Host.count_calls Host.is_enter (Host.calls (RoboticsScene.host w')) = 0%nat
         /\ Host.count_calls Host.is_render (Host.calls (RoboticsScene.host w')) = 0%nat).
Proof.
  split.
  - apply wp_then.
    eapply wp_mono; [apply portrait_mount_wp|].
    cbv beta. intros _ w (rid & sid & cid & Hcalls & Hq & Ha & _ & Hready).
    cbn in Hq, Ha.
    eapply wp_mono; [apply events_keep; [exact Hready | left; exact Hq]|].
    cbv beta. intros _ w' (_ & _ & Hidle).
    rewrite Hcalls. repeat split; auto.
  - apply wp_then.
    eapply wp_mono; [apply robotics_mount_wp|].
    cbv beta. intros _ w (rid & sid & cid & canvas & Hcalls & Hq & Hl & _).
    eapply wp_mono; [apply robotics_idle_forever; assumption|].
    cbv beta. intros _ w' (Hq' & Hcalls').
    rewrite Hcalls', Hcalls. repeat split; auto.
Qed.

(** The claim of C6 as the specification states it fails for
    [RoboticsScene]: mounted with reduced motion it makes no render call,
    where the claim has exactly one. *)
Lemma robotics_reduced_mount_renders_nothing :
  exists w,
    RoboticsScene.mount (robotics_props true) (RoboticsScene.initial sample_host)
    = Js.Ok tt w
    /\ Host.count_calls Host.is_render (Host.calls (RoboticsScene.host w)) = 0%nat.
Proof.
  apply wp_run.
  eapply wp_mono; [apply robotics_mount_wp|].
  cbv beta. intros _ w (rid & sid & cid & canvas & Hcalls & _).
  rewrite Hcalls. reflexivity.
Qed.

(** C7 (amended). In both views one call of the resize routine sets the
    renderer size to the new dimensions and the camera aspect to their
    ratio, and recomputes the projection matrix with it. [Portrait] calls
    the routine once while mounting. [RoboticsScene] does not: it sets the
    initial size and aspect when it builds the scene, and registers the
    routine as a listener only when motion is not reduced. *)
Theorem resize_routine
        (rt : Js.Runtime) (now : R) (iw ih : Z) (dpr : R) (cw ch : Z)
        (p : Portrait.Props) (cw' ch' : Z)
        (themes : RoboticsScene.ThemeId -> RoboticsScene.Theme) (t : RoboticsScene.Theme)
        (prm : bool) (iw' ih' : Z) :
  (exists w1 w2 r c,
      Portrait.mount p (Portrait.initial (Host.fresh rt now iw ih dpr) cw ch) = Js.Ok tt w1
      /\ Portrait.dispatch (Portrait.Resize cw' ch') w1 = Js.Ok tt w2
      /\ Host.count_calls Host.is_enter (Host.calls (Portrait.host w1)) = 1%nat
      /\ Host.count_calls Host.is_enter (Host.calls (Portrait.host w2)) = 2%nat
      /\ Portrait.renderer w2 = Some r /\ Host.size r = (cw', ch')
      /\ Portrait.camera w2 = Some c /\ Host.aspect c = IZR cw' / IZR ch'
      /\ Host.projectionMatrix c
         = Host.makePerspective (Host.fov c) (IZR cw' / IZR ch') (Host.near c) (Host.far c))
  /\ (exists w1 w2 c1 r c,
         RoboticsScene.mount
           {| RoboticsScene.theme := themes; RoboticsScene.currentTheme := t;
              RoboticsScene.prefersReducedMotion := prm |}
           (RoboticsScene.initial (Host.fresh rt now iw ih dpr)) = Js.Ok tt w1
         /\ Host.count_calls Host.is_enter (Host.calls (RoboticsScene.host w1)) = 0%nat
         /\ RoboticsScene.resize_listeners w1 = (if prm then 0%nat else 1%nat)
         /\ RoboticsScene.camera w1 = Some c1 /\ Host.aspect c1 = IZR iw / IZR ih
         /\ RoboticsScene.handleWindowResize
              (RoboticsScene.set_host w1 (Host.set_window (RoboticsScene.host w1) iw' ih'))
            = Js.Ok tt w2
         /\ RoboticsScene.renderer w2 = Some r /\ Host.size r = (iw', ih')
         /\ RoboticsScene.camera w2 = Some c /\ Host.aspect c = IZR iw' / IZR ih'
         /\ Host.projectionMatrix c
            = Host.makePerspective (Host.fov c) (IZR iw' / IZR ih') (Host.near c) (Host.far c)).
Proof.
  split.
  - assert (H : exists w1 w2,
               Portrait.mount p (Portrait.initial (Host.fresh rt now iw ih dpr) cw ch)
               = Js.Ok tt w1
               /\ Portrait.dispatch (Portrait.Resize cw' ch') w1 = Js.Ok tt w2
               /\ exists r c,
                    Host.count_calls Host.is_enter (Host.calls (Portrait.host w1)) = 1%nat
                    /\ Host.count_calls Host.is_enter (Host.calls (Portrait.host w2)) = 2%nat
                    /\ Portrait.renderer w2 = Some r /\ Host.size r = (cw', ch')
                    /\ Portrait.camera w2 = Some c /\ Host.aspect c = IZR cw' / IZR ch'
                    /\ Host.projectionMatrix c
                       = Host.makePerspective (Host.fov c) (IZR cw' / IZR ch')
                                              (Host.near c) (Host.far c)).
    { apply wp_then. destruct p as [white tid bg pr inview].
      unfold_portrait. destruct pr, inview; js_eval; js_run.
      all: unfold Portrait.dispatch; unfold_portrait; js_eval; js_run.
      all: do 2 eexists; repeat split. }
    destruct H as (w1 & w2 & H1 & H2 & r & c & H). exists w1, w2, r, c. auto.
  - destruct (proj1 (wp_ok _ _ _) (robotics_mount_wp rt now iw ih dpr themes t prm))
      as ([] & w1 & Hmount & rid & sid & cid & canvas & Hcalls & _ & Hl & Hc & Hr & _).
    destruct (proj1 (wp_ok _ _ _)
                (handleWindowResize_wp
                   (RoboticsScene.set_host w1 (Host.set_window (RoboticsScene.host w1) iw' ih'))
                   _ _ Hr Hc))
      as ([] & w2 & Hresize & Hr2 & Hc2 & _).
    do 5 eexists. split; [exact Hmount|].
    split; [rewrite Hcalls; destruct prm; reflexivity|].
    split; [exact Hl|]. split; [exact Hc|]. split; [reflexivity|].
    split; [exact Hresize|]. split; [exact Hr2|]. split; [reflexivity|].
    split; [exact Hc2|]. split; reflexivity.
Qed.

(** The claim of C7 as the specification states it fails for
    [RoboticsScene]: mounting it never enters the resize routine. *)
Lemma robotics_mount_skips_resize_routine :
  exists w,
    RoboticsScene.mount (robotics_props false) (RoboticsScene.initial sample_host)
    = Js.Ok tt w
    /\ Host.count_calls Host.is_enter (Host.calls (RoboticsScene.host w)) = 0%nat.
Proof.
  apply wp_run.
  eapply wp_mono; [apply robotics_mount_wp|].
  cbv beta. intros _ w (rid & sid & cid & canvas & Hcalls & _).
  rewrite Hcalls. reflexivity.
Qed.

(** ** Theme changes *)

Lemma robotics_theme_change_rebuilds_witness :
  RoboticsScene.id (sample_theme RoboticsScene.dark)
  <> RoboticsScene.id (sample_theme RoboticsScene.light)
  /\ exists w1 w2,
       RoboticsScene.mount (robotics_props false) (RoboticsScene.initial sample_host)
       = Js.Ok tt w1
       /\ RoboticsScene.rerender
            (robotics_props false)
            {| RoboticsScene.theme := sample_theme;
               RoboticsScene.currentTheme := sample_theme RoboticsScene.light;
               RoboticsScene.prefersReducedMotion := false |}
            w1 = Js.Ok tt w2
       /\ length (RoboticsScene.container w1) = 1%nat
       /\ length (RoboticsScene.container w2) = 2%nat.
Proof.
  split; [discriminate|].
  destruct (robotics_theme_change_rebuilds
              stuck_at_quarter 0 1024 768 1 sample_theme
              (sample_theme RoboticsScene.dark) (sample_theme RoboticsScene.light) false)
    as (w1 & w2 & Hmount & Hrerender & cam1 & cam2 & r1 & r2 & s1 & s2 & ps1 & ps2
        & _ & _ & _ & _ & _ & _ & _ & _ & _ & _ & Hc1 & Hc2 & _);
    [discriminate|].
  exists w1, w2. repeat split; assumption.
Defined.

(** The sibling view does what the theme effect of [RoboticsScene] does
    not: on a change of theme id [Portrait] runs the cleanup and the body
    of its lights effect only, so the camera and the renderer are the same
    objects afterwards, the scene keeps its identity, no tick is scheduled
    or cancelled, and the two lights are replaced by two new ones. *)
Lemma portrait_theme_change_replaces_lights
      (rt : Js.Runtime) (now : R) (iw ih : Z) (dpr : R) (cw ch : Z)
      (white bg : Z) (prm inview : bool) :
  let p_old := {| Portrait.colorWhite := white; Portrait.themeId := Portrait.dark;
                  Portrait.rgbBackgroundLight := bg; Portrait.prefersReducedMotion := prm;
                  Portrait.isInViewport := inview |} in
  let p_new := {| Portrait.colorWhite := white; Portrait.themeId := Portrait.light;
                  Portrait.rgbBackgroundLight := bg; Portrait.prefersReducedMotion := prm;
                  Portrait.isInViewport := inview |} in
  exists w1 w2,
    Portrait.mount p_old (Portrait.initial (Host.fresh rt now iw ih dpr) cw ch) = Js.Ok tt w1
    /\ Portrait.rerender p_old p_new w1 = Js.Ok tt w2
    /\ Portrait.camera w2 = Portrait.camera w1
    /\ Portrait.renderer w2 = Portrait.renderer w1
    /\ Host.raf_queue (Portrait.host w2) = Host.raf_queue (Portrait.host w1)
    /\ Host.calls (Portrait.host w2) = Host.calls (Portrait.host w1)
    /\ exists s1 s2 l1 l2,
         Portrait.scene w1 = Some s1 /\ Portrait.scene w2 = Some s2
         /\ Host.scene_id s1 = Host.scene_id s2
         /\ Portrait.lights w1 = Some l1 /\ Portrait.lights w2 = Some l2
         /\ Host.scene_lights s1 = l1 /\ Host.scene_lights s2 = l2
         /\ length l2 = 2%nat
         /\ forall a b, In a l1 -> In b l2 -> Host.light_id a <> Host.light_id b.
Proof.
  intros p_old p_new.
  assert (Hlights : Portrait.lights_changed p_old p_new = true).
  { unfold Portrait.lights_changed. apply negb_true_iff, bool_decide_eq_false.
    intros (_ & H & _). discriminate. }
  assert (Hmotion : Portrait.motion_changed p_old p_new = false).
  { unfold Portrait.motion_changed. cbn. rewrite Bool.eqb_reflx. reflexivity. }
  assert (Hview : Portrait.view_changed p_old p_new = false).
  { unfold Portrait.view_changed. rewrite Hmotion. cbn. rewrite Bool.eqb_reflx. reflexivity. }
  apply wp_then. unfold Portrait.rerender. rewrite Hlights, Hmotion, Hview.
  subst p_old p_new.
  unfold_portrait. destruct prm, inview; js_eval; js_run.
  all: repeat (split; [reflexivity|]).
  all: do 4 eexists; repeat (split; [reflexivity|]).
  all: cbn [List.filter existsb Host.light_id]; rewrite !Nat.eqb_refl, ?orb_true_r.
  all: cbn [negb orb app].
  all: split; [reflexivity|]. all: split; [reflexivity|].
  all: intros a b [<-|[<-|[]]] [<-|[<-|[]]]; cbn [Host.light_id].
  all: rewrite !length_app; cbn [length]; lia.
Qed.

(** * Further properties of the code *)

(** ** The vertex stage *)

Lemma mod_one_of_integer (k : Z) : Glsl.mod_ (IZR k) 1.0 = 0.
Proof.
  unfold Glsl.mod_, Glsl.floor.
  replace (IZR k / 1.0) with (IZR k) by lra.
  rewrite <- (Int_part_spec (IZR k) k) by lra. lra.
Qed.

Lemma mod_one_shift (x : R) (k : Z) : Glsl.mod_ (x + IZR k) 1.0 = Glsl.mod_ x 1.0.
Proof.
  unfold Glsl.mod_, Glsl.floor.
  replace ((x + IZR k) / 1.0) with (x + IZR k) by lra.
  replace (x / 1.0) with x by lra.
  destruct (base_Int_part x) as [Hle Hgt].
  rewrite <- (Int_part_spec (x + IZR k) (Int_part x + k)).
  - rewrite plus_IZR. lra.
  - rewrite plus_IZR. lra.
Qed.

(** X1. The phase of an instance loops every unit of the [time] uniform:
    adding any whole number to [time] leaves [lifeProgress] unchanged. *)
Theorem lifeProgress_periodic (time timeOffset : R) (k : Z) :
  Shader.lifeProgress (time + IZR k) timeOffset = Shader.lifeProgress time timeOffset.
Proof.
  unfold Shader.lifeProgress.
  replace (time + IZR k + timeOffset) with (time + timeOffset + IZR k) by lra.
  apply mod_one_shift.
Qed.

(** Within one cycle the phase is [time + timeOffset] itself, less the
    whole cycles elapsed. *)
Lemma lifeProgress_within_cycle (time timeOffset : R) (k : Z) :
  IZR k <= time + timeOffset < IZR k + 1 ->
  Shader.lifeProgress time timeOffset = time + timeOffset - IZR k.
Proof.
  intros H. unfold Shader.lifeProgress, Glsl.mod_, Glsl.floor.
  replace ((time + timeOffset) / 1.0) with (time + timeOffset) by lra.
  rewrite <- (Int_part_spec (time + timeOffset) k) by lra. lra.
Qed.

Lemma rotate_squared_length (o : VertexStage.vec4) (v : VertexStage.vec3) :
  VertexStage.dot4 o o = 1 ->
  VertexStage.x (VertexStage.rotate o v) * VertexStage.x (VertexStage.rotate o v)
  + VertexStage.y (VertexStage.rotate o v) * VertexStage.y (VertexStage.rotate o v)
  + VertexStage.z (VertexStage.rotate o v) * VertexStage.z (VertexStage.rotate o v)
  = VertexStage.x v * VertexStage.x v + VertexStage.y v * VertexStage.y v
    + VertexStage.z v * VertexStage.z v.
Proof.
  destruct o as [a b c w], v as [p q r].
  unfold VertexStage.dot4, VertexStage.rotate, VertexStage.cross, VertexStage.add3,
    VertexStage.scale3, VertexStage.xyz. simpl.
  intros Hunit. replace 2.0 with 2 by lra.
  assert (Hw : w * w = 1 - a * a - b * b - c * c) by lra.
  set (u := a * p + b * q + c * r).
  set (n := a * a + b * b + c * c).
  match goal with
  | |- ?lhs = ?rhs =>
      replace lhs with (rhs + 4 * (1 - n - w * w) * (u * u - n * rhs))
        by (subst u n; ring)
  end.
  subst n. rewrite Hw. ring.
Qed.

Lemma normalize_unit (q : VertexStage.vec4) :
  VertexStage.length4 q <> 0 ->
  VertexStage.dot4 (VertexStage.normalize q) (VertexStage.normalize q) = 1.
Proof.
  intros Hnz.
  assert (Hsq : VertexStage.length4 q * VertexStage.length4 q
                = VertexStage.qx q * VertexStage.qx q + VertexStage.qy q * VertexStage.qy q
                  + VertexStage.qz q * VertexStage.qz q + VertexStage.qw q * VertexStage.qw q).
  { unfold VertexStage.length4. apply sqrt_sqrt. nra. }
  unfold VertexStage.dot4, VertexStage.normalize. simpl.
  set (l := VertexStage.length4 q) in *. clearbody l.
  replace (VertexStage.qx q / l * (VertexStage.qx q / l)
           + VertexStage.qy q / l * (VertexStage.qy q / l)
           + VertexStage.qz q / l * (VertexStage.qz q / l)
           + VertexStage.qw q / l * (VertexStage.qw q / l))
    with ((VertexStage.qx q * VertexStage.qx q + VertexStage.qy q * VertexStage.qy q
           + VertexStage.qz q * VertexStage.qz q + VertexStage.qw q * VertexStage.qw q)
          * (/ l * / l))
    by (field; exact Hnz).
  rewrite <- Hsq. field. exact Hnz.
Qed.

(** X2. Whenever the interpolated orientation is not the zero vector, the
    rotation of the vertex stage keeps the distance from the origin: the
    vertex ends as far from the origin as [offset * lifeProgress + position]. *)
Theorem vertex_distance_kept (i : VertexStage.Inputs) :
  let lifeProgress := Shader.lifeProgress (VertexStage.time i) (VertexStage.timeOffset i) in
  VertexStage.length4
    (VertexStage.mix (VertexStage.orientationStart i) (VertexStage.orientationEnd i)
                     lifeProgress) <> 0 ->
  VertexStage.length3 (VertexStage.vPosition i)
  = VertexStage.length3
      (VertexStage.add3 (VertexStage.scale3 (VertexStage.offset i) lifeProgress)
                        (VertexStage.position i)).
Proof.
  intros lifeProgress Hnz. unfold VertexStage.vPosition.
  fold (Shader.lifeProgress (VertexStage.time i) (VertexStage.timeOffset i)).
  fold lifeProgress.
  unfold VertexStage.length3 at 1 2. f_equal.
  apply rotate_squared_length, normalize_unit, Hnz.
Qed.

Lemma mix_at_start (a b : VertexStage.vec4) : VertexStage.mix a b 0 = a.
Proof. destruct a, b. unfold VertexStage.mix. simpl. f_equal; lra. Qed.

Lemma mix_at_end (a b : VertexStage.vec4) : VertexStage.mix a b 1 = b.
Proof. destruct a, b. unfold VertexStage.mix. simpl. f_equal; lra. Qed.

(** X3. At the start of a cycle, when [time + timeOffset] is a whole number,
    the vertex is the template vertex rotated by the normalised start
    orientation: neither the instance offset nor the end orientation
    enters, so all instances sit at the origin. *)
Theorem vertex_at_cycle_start (i : VertexStage.Inputs) (k : Z) :
  VertexStage.time i + VertexStage.timeOffset i = IZR k ->
  VertexStage.lifeProgress (VertexStage.main i) = 0
  /\ VertexStage.vPosition i
     = VertexStage.rotate (VertexStage.normalize (VertexStage.orientationStart i))
                          (VertexStage.position i).
Proof.
  intros Hk. unfold VertexStage.main, VertexStage.vPosition. simpl.
  rewrite Hk, mod_one_of_integer, mix_at_start. split; [reflexivity|].
  f_equal. destruct (VertexStage.offset i), (VertexStage.position i).
  unfold VertexStage.add3, VertexStage.scale3. simpl. f_equal; lra.
Qed.

(** Opposite orientations interpolate through the zero vector at mid-cycle,
    where [normalize] has nothing to work with. *)
Lemma mix_of_opposites (q : VertexStage.vec4) :
  VertexStage.length4
    (VertexStage.mix q {| VertexStage.qx := - VertexStage.qx q;
                          VertexStage.qy := - VertexStage.qy q;
                          VertexStage.qz := - VertexStage.qz q;
                          VertexStage.qw := - VertexStage.qw q |} 0.5) = 0.
Proof.
  unfold VertexStage.length4, VertexStage.mix. simpl.
  replace (VertexStage.qx q * (1 - 0.5) + - VertexStage.qx q * 0.5) with 0 by lra.
  replace (VertexStage.qy q * (1 - 0.5) + - VertexStage.qy q * 0.5) with 0 by lra.
  replace (VertexStage.qz q * (1 - 0.5) + - VertexStage.qz q * 0.5) with 0 by lra.
  replace (VertexStage.qw q * (1 - 0.5) + - VertexStage.qw q * 0.5) with 0 by lra.
  replace (0 * 0 + 0 * 0 + 0 * 0 + 0 * 0) with 0 by lra. apply sqrt_0.
Qed.

(** ** The fragment stage *)


(** ** The pointer handler *)

(** X5. For a pointer inside a window of positive size, both coordinates of
    the normalised pointer position lie in [-0.5, 0.5], and both
    coordinates of the spring target in [-0.25, 0.25]; the target's [x]
    follows the vertical pointer offset and its [y] the horizontal one. *)
Theorem pointer_target_in_range (clientX clientY innerWidth innerHeight : R)
        (current currentVelocity : R * R) :
  0 < innerWidth -> 0 < innerHeight ->
  0 <= clientX <= innerWidth -> 0 <= clientY <= innerHeight ->
  let position := Pointer.position clientX clientY innerWidth innerHeight in
  let target := Pointer.to (Pointer.onMouseMove clientX clientY innerWidth innerHeight
                                                current currentVelocity) in
  -0.5 <= fst position <= 0.5 /\ -0.5 <= snd position <= 0.5
  /\ fst target = (clientY / innerHeight - 0.5) / 2
  /\ snd target = (clientX / innerWidth - 0.5) / 2
  /\ -0.25 <= fst target <= 0.25 /\ -0.25 <= snd target <= 0.25.
Proof.
  intros Hw Hh Hx Hy. cbv zeta. unfold Pointer.onMouseMove, Pointer.position. simpl.
  assert (Ex : (clientX - innerWidth / 2) / innerWidth = clientX / innerWidth - 0.5)
    by (replace 0.5 with (1 / 2) by lra; field; lra).
  assert (Ey : (clientY - innerHeight / 2) / innerHeight = clientY / innerHeight - 0.5)
    by (replace 0.5 with (1 / 2) by lra; field; lra).
  rewrite Ex, Ey.
  assert (Rx : 0 <= clientX / innerWidth <= 1).
  { pose proof (Rinv_0_lt_compat _ Hw) as Hinv.
    pose proof (Rinv_r innerWidth ltac:(lra)) as Hone.
    unfold Rdiv. split; nra. }
  assert (Ry : 0 <= clientY / innerHeight <= 1).
  { pose proof (Rinv_0_lt_compat _ Hh) as Hinv.
    pose proof (Rinv_r innerHeight ltac:(lra)) as Hone.
    unfold Rdiv. split; nra. }
  repeat split; lra.
Qed.

(** ** What the constructor writes *)

Lemma wp_for_filled (k : nat) (C : nat -> Three.BufferAttribute -> Prop)
      (body : nat -> Three.BufferAttribute -> Js.M Js.Runtime Three.BufferAttribute)
      (a0 : Three.BufferAttribute) (rt : Js.Runtime) (n : nat) :
  C 0%nat a0 ->
  (forall i a, (i < n)%nat -> shaped a a0 -> C i a ->
               wp (body i a)
                  (fun a' s' => shaped a' a0 /\ s' = advance rt (k * S i) /\ C (S i) a')
                  (advance rt (k * i))) ->
  wp (Js.for_ body 0 n a0) (fun a s => shaped a a0 /\ s = advance rt (k * n) /\ C n a) rt.
Proof.
  intros H0 Hbody.
  apply (wp_for (fun i a s => shaped a a0 /\ s = advance rt (k * i) /\ C i a) body n 0 a0 rt).
  - split; [apply shaped_refl|]. split; [|exact H0].
    rewrite Nat.mul_0_r, advance_0. reflexivity.
  - intros i a s Hi (Hsh & -> & HC). apply Hbody; [lia | exact Hsh | exact HC].
Qed.

Lemma get_setXYZ_same (a : Three.BufferAttribute) (i k : nat) (x y z : R) :
  Three.itemSize a = 3%nat ->
  (i * 3 + 2 < length (Three.array a))%nat ->
  (k < 3)%nat ->
  Three.get (Three.setXYZ a i x y z) i k
  = Some (match k with O => x | S O => y | _ => z end).
Proof.
  intros Hsz Hlen Hk.
  unfold Three.get, Three.setXYZ, Three.with_array. simpl. rewrite Hsz.
  destruct k as [|[|[|k]]]; [| | |lia]; lookup_insert; reflexivity.
Qed.

Lemma get_setXYZ_other (a : Three.BufferAttribute) (i j k : nat) (x y z : R) :
  Three.itemSize a = 3%nat ->
  j <> i -> (k < 3)%nat ->
  Three.get (Three.setXYZ a i x y z) j k = Three.get a j k.
Proof.
  intros Hsz Hne Hk.
  unfold Three.get, Three.setXYZ, Three.with_array. simpl. rewrite Hsz.
  lookup_insert. reflexivity.
Qed.

Lemma get_setX_same (a : Three.BufferAttribute) (i : nat) (x : R) :
  Three.itemSize a = 1%nat ->
  (i < length (Three.array a))%nat ->
  Three.get (Three.setX a i x) i 0 = Some x.
Proof.
  intros Hsz Hlen.
  unfold Three.get, Three.setX, Three.with_array. simpl. rewrite Hsz.
  rewrite Nat.add_0_r. apply list_lookup_insert_eq. lia.
Qed.

Lemma get_setX_other (a : Three.BufferAttribute) (i j : nat) (x : R) :
  Three.itemSize a = 1%nat ->
  j <> i ->
  Three.get (Three.setX a i x) j 0 = Three.get a j 0.
Proof.
  intros Hsz Hne.
  unfold Three.get, Three.setX, Three.with_array. simpl. rewrite Hsz.
  apply list_lookup_insert_ne. lia.
Qed.

Lemma construct_filled_wp (N : Z) (rt : Js.Runtime) :
  (0 <= N)%Z ->
  wp (ParticleSystem.construct true N) (fun ps _ => filled (Z.to_nat N) rt ps) rt.
Proof.
  intros HN. unfold ParticleSystem.construct.
  set (n := Z.to_nat N).
  apply wp_bind. simpl ParticleSystem.classCallCheck. apply wp_ret. cbv beta zeta.
  apply wp_bind, wp_new_object.
  apply wp_bind, wp_new_BufferAttribute; [lia|].
  (* offsets *)
  apply wp_bind, wp_new_InstancedBufferAttribute; [lia|].
  replace (Z.to_nat (N * 3)) with (n * 3)%nat by lia.
  apply wp_bind. rewrite count_replicate.
  eapply wp_mono.
  { apply (wp_for_filled 3
             (fun i a => forall j k, (j < i)%nat -> (k < 3)%nat ->
                           Three.get a j k
                           = Some ((Js.entropy rt (Js.draws rt + 3 * j + k) - 0.5) * 60))).
    - intros j k Hj. lia.
    - intros i a Hi Hsh HC.
      do 3 apply wp_bind, wp_random. apply wp_ret.
      split; [apply shaped_setXYZ; exact Hsh|].
      split; [rewrite !advance_advance; f_equal; lia|].
      destruct Hsh as (_ & Hsz & _ & Hlen).
      cbn [Three.itemSize Three.array] in Hsz, Hlen. rewrite length_replicate in Hlen.
      intros j k Hj Hk. destruct (decide (j = i)) as [->|Hne].
      + rewrite get_setXYZ_same by (try assumption; lia).
        cbn [Js.entropy Js.draws advance allocate].
        destruct k as [|[|[|k]]]; [| | |lia]; do 4 f_equal; lia.
      + rewrite get_setXYZ_other by assumption. apply HC; [lia | exact Hk]. }
  cbv beta. intros offsets s (Hoffsets & -> & Coffsets).
  (* colors *)
  apply wp_bind, wp_new_InstancedBufferAttribute; [lia|].
  replace (Z.to_nat (N * 4)) with (n * 4)%nat by lia.
  apply wp_bind, wp_new_object.
  apply wp_bind. rewrite count_replicate.
  match goal with
  | |- wp (Js.for_ ?body 0 n (_, ?a0)) _ ?s0 =>
      eapply wp_mono;
      [ apply (wp_for (fun (i : nat) (p : Z * Three.BufferAttribute) s =>
                         shaped (snd p) a0 /\ s = s0
                         /\ fst p = (if Nat.even i then 1%Z else 0%Z)
                         /\ forall j, (j < i)%nat ->
                              ParticleSystem.quaternion (snd p) j = Some (color_entry j))
                      body n 0)
      | ]
  end.
  { split; [apply shaped_refl|]. split; [reflexivity|]. split; [reflexivity|].
    intros j Hj. lia. }
  { intros i [count colors] s Hi (Hsh & -> & Hcount & HC). simpl in Hsh, Hcount, HC.
    assert (Hstep : forall x y z w,
               (forall j, (j < i)%nat ->
                          ParticleSystem.quaternion colors j = Some (color_entry j)) ->
               color_entry i = {| Three.x := x; Three.y := y; Three.z := z; Three.w := w |} ->
               forall j, (j < S i)%nat ->
                 ParticleSystem.quaternion (Three.setXYZW colors i x y z w) j
                 = Some (color_entry j)).
    { intros x y z w HC' Hentry j Hj.
      destruct Hsh as (_ & Hsz & _ & Hlen).
      cbn [Three.itemSize Three.array] in Hsz, Hlen. rewrite length_replicate in Hlen.
      destruct (decide (j = i)) as [->|Hne].
      - rewrite quaternion_setXYZW_same by (try assumption; lia). rewrite Hentry. reflexivity.
      - rewrite quaternion_setXYZW_other by assumption. apply HC'. lia. }
    rewrite Nat.even_succ, <- Nat.negb_even.
    subst count. destruct (Nat.even i) eqn:Heven; simpl; apply wp_ret.
    - split; [apply shaped_setXYZW; exact Hsh|]. split; [reflexivity|]. split; [reflexivity|].
      apply Hstep; [exact HC|]. unfold color_entry. rewrite Heven. reflexivity.
    - split; [apply shaped_setXYZW; exact Hsh|]. split; [reflexivity|]. split; [reflexivity|].
      apply Hstep; [exact HC|]. unfold color_entry. rewrite Heven. reflexivity. }
  cbv beta. intros [count colors] s (Hcolors & -> & _ & Ccolors). simpl in Hcolors, Ccolors.
  (* timeOffsets *)
  apply wp_bind, wp_new_InstancedBufferAttribute; [lia|].
  replace (Z.to_nat (N * 1)) with (n * 1)%nat by lia.
  apply wp_bind. rewrite count_replicate.
  eapply wp_mono.
  { apply (wp_for_filled 1
             (fun i a => forall j, (j < i)%nat ->
                           Three.get a j 0 = Some (Js.entropy rt (Js.draws rt + 3 * n + j)))).
    - intros j Hj. lia.
    - intros i a Hi Hsh HC.
      apply wp_bind, wp_random. apply wp_ret.
      split; [apply shaped_setX; exact Hsh|].
      split; [rewrite !advance_advance; f_equal; lia|].
      destruct Hsh as (_ & Hsz & _ & Hlen).
      cbn [Three.itemSize Three.array] in Hsz, Hlen. rewrite length_replicate in Hlen.
      intros j Hj. destruct (decide (j = i)) as [->|Hne].
      + rewrite get_setX_same by (try assumption; lia).
        cbn [Js.entropy Js.draws advance allocate]. do 2 f_equal. lia.
      + rewrite get_setX_other by assumption. apply HC. lia. }
  cbv beta. intros timeOffsets s (HtimeOffsets & -> & CtimeOffsets).
  (* orientations *)
  apply wp_bind, wp_new_object.
  apply wp_bind, wp_new_InstancedBufferAttribute; [lia|].
  apply wp_bind.
  eapply wp_mono; [apply wp_fill_orientations; reflexivity|].
  cbv beta. intros orientationsStart s (_ & -> & _).
  apply wp_bind, wp_new_InstancedBufferAttribute; [lia|].
  apply wp_bind.
  eapply wp_mono; [apply wp_fill_orientations; reflexivity|].
  cbv beta. intros orientationsEnd s (_ & -> & _).
  (* material and mesh *)
  apply wp_bind, wp_new_object.
  apply wp_bind, wp_new_object.
  apply wp_ret.
  constructor.
  - eexists. split; [find_attribute|]. split; [reflexivity|]. reflexivity.
  - exists offsets. split; [find_attribute | exact Coffsets].
  - exists colors. split; [find_attribute | exact Ccolors].
  - exists timeOffsets. split; [find_attribute | exact CtimeOffsets].
  - reflexivity.
  - repeat split.
Qed.

Lemma construct_filled (N : Z) (rt : Js.Runtime) :
  (0 <= N)%Z ->
  exists ps rt', ParticleSystem.construct true N rt = Js.Ok ps rt'
                 /\ built (Z.to_nat N) rt ps rt' /\ filled (Z.to_nat N) rt ps.
Proof.
  intros HN.
  destruct (construct_ok N rt HN) as (ps & rt' & Hrun & Hb).
  pose proof (construct_filled_wp N rt HN) as Hf.
  unfold wp in Hf. rewrite Hrun in Hf. eauto.
Qed.

(** X6. With [Math.random()] in [0, 1), every coordinate of every instance
    offset the constructor stores lies in [-30, 30]: the instances fill a
    cube of side 60 centred at the origin. The bound is the closed one:
    the typed array holds binary32 values, and a coordinate within
    rounding of 30 is stored as 30.0. *)
Theorem offsets_in_cube (N : Z) (rt : Js.Runtime) :
  (0 <= N)%Z ->
  Js.entropy_in_range rt ->
  exists ps rt' a,
    ParticleSystem.construct true N rt = Js.Ok ps rt'
    /\ ParticleSystem.attribute ps "offset" = Some a
    /\ forall i k, (i < Z.to_nat N)%nat -> (k < 3)%nat ->
         exists v, Three.get a i k = Some v /\ -30 <= v <= 30.
Proof.
  intros HN Hrange.
  destruct (construct_filled N rt HN) as (ps & rt' & Hrun & _ & Hf).
  destruct (filled_offset _ _ _ Hf) as (a & Ha & Hget).
  exists ps, rt', a. split; [exact Hrun|]. split; [exact Ha|].
  intros i k Hi Hk. eexists. split; [apply Hget; assumption|].
  destruct (Hrange (Js.draws rt + 3 * i + k)%nat). lra.
Qed.

Lemma offsets_in_cube_witness :
  (0 <= 2000)%Z /\ Js.entropy_in_range stuck_at_quarter
  /\ exists ps rt' a,
       ParticleSystem.new stuck_at_quarter = Js.Ok ps rt'
       /\ ParticleSystem.attribute ps "offset" = Some a
       /\ exists v, Three.get a 0 0 = Some v /\ -30 <= v <= 30.
Proof.
  assert (Hrange : Js.entropy_in_range stuck_at_quarter) by (intros k; simpl; lra).
  split; [lia|]. split; [exact Hrange|].
  destruct (offsets_in_cube 2000 stuck_at_quarter ltac:(lia) Hrange)
    as (ps & rt' & a & Hrun & Ha & Hget).
  exists ps, rt', a. split; [exact Hrun|]. split; [exact Ha|].
  apply Hget; [change (Z.to_nat 2000) with 2000%nat|]; lia.
Defined.

(** X7. With [Math.random()] in [0, 1), every [timeOffset] the constructor
    stores lies in [0, 1]. The bound is the closed one: the typed array
    holds binary32 values, and a draw within rounding of 1 is stored as
    1.0. *)
Theorem timeOffsets_in_unit_interval (N : Z) (rt : Js.Runtime) :
  (0 <= N)%Z ->
  Js.entropy_in_range rt ->
  exists ps rt' a,
    ParticleSystem.construct true N rt = Js.Ok ps rt'
    /\ ParticleSystem.attribute ps "timeOffset" = Some a
    /\ forall i, (i < Z.to_nat N)%nat ->
         exists v, Three.get a i 0 = Some v /\ 0 <= v <= 1.
Proof.
  intros HN Hrange.
  destruct (construct_filled N rt HN) as (ps & rt' & Hrun & _ & Hf).
  destruct (filled_timeOffset _ _ _ Hf) as (a & Ha & Hget).
  exists ps, rt', a. split; [exact Hrun|]. split; [exact Ha|].
  intros i Hi. eexists. split; [apply Hget; assumption|].
  destruct (Hrange (Js.draws rt + 3 * Z.to_nat N + i)%nat). lra.
Qed.

Lemma timeOffsets_in_unit_interval_witness :
  (0 <= 2000)%Z /\ Js.entropy_in_range stuck_at_quarter
  /\ exists ps rt' a,
       ParticleSystem.new stuck_at_quarter = Js.Ok ps rt'
       /\ ParticleSystem.attribute ps "timeOffset" = Some a
       /\ exists v, Three.get a 1999 0 = Some v /\ 0 <= v <= 1.
Proof.
  assert (Hrange : Js.entropy_in_range stuck_at_quarter) by (intros k; simpl; lra).
  split; [lia|]. split; [exact Hrange|].
  destruct (timeOffsets_in_unit_interval 2000 stuck_at_quarter ltac:(lia) Hrange)
    as (ps & rt' & a & Hrun & Ha & Hget).
  exists ps, rt', a. split; [exact Hrun|]. split; [exact Ha|].
  apply Hget. change (Z.to_nat 2000) with 2000%nat. lia.
Defined.

Lemma setHex_green :
  Three.setHex (ParticleSystem.mainColor ParticleSystem.green)
  = {| Three.r := 142 / 255; Three.g := 185 / 255; Three.b := 52 / 255 |}.
Proof. reflexivity. Qed.

Lemma setHex_orange :
  Three.setHex (ParticleSystem.mainColor ParticleSystem.orange)
  = {| Three.r := 254 / 255; Three.g := 194 / 255; Three.b := 62 / 255 |}.
Proof. reflexivity. Qed.

(** X8. The colours the constructor stores alternate by instance: even
    instances get the green main colour (142, 185, 52) / 255, odd ones the
    orange main colour (254, 194, 62) / 255, all with alpha 1. *)
Theorem colors_alternate (N : Z) (rt : Js.Runtime) :
  (0 <= N)%Z ->
  exists ps rt' a,
    ParticleSystem.construct true N rt = Js.Ok ps rt'
    /\ ParticleSystem.attribute ps "color" = Some a
    /\ forall i, (i < Z.to_nat N)%nat ->
         ParticleSystem.quaternion a i
         = Some (if Nat.even i
                 then {| Three.x := 142 / 255; Three.y := 185 / 255;
                         Three.z := 52 / 255; Three.w := 1 |}
                 else {| Three.x := 254 / 255; Three.y := 194 / 255;
                         Three.z := 62 / 255; Three.w := 1 |}).
Proof.
  intros HN.
  destruct (construct_filled N rt HN) as (ps & rt' & Hrun & _ & Hf).
  destruct (filled_color _ _ _ Hf) as (a & Ha & Hget).
  exists ps, rt', a. split; [exact Hrun|]. split; [exact Ha|].
  intros i Hi. rewrite (Hget i Hi). unfold color_entry.
  destruct (Nat.even i); [rewrite setHex_green | rewrite setHex_orange]; reflexivity.
Qed.

Lemma colors_alternate_witness :
  (0 <= 2000)%Z
  /\ exists ps rt' a,
       ParticleSystem.new stuck_at_quarter = Js.Ok ps rt'
       /\ ParticleSystem.attribute ps "color" = Some a
       /\ ParticleSystem.quaternion a 1
          = Some {| Three.x := 254 / 255; Three.y := 194 / 255;
                    Three.z := 62 / 255; Three.w := 1 |}.
Proof.
  split; [lia|].
  destruct (colors_alternate 2000 stuck_at_quarter ltac:(lia))
    as (ps & rt' & a & Hrun & Ha & Hget).
  exists ps, rt', a. split; [exact Hrun|]. split; [exact Ha|].
  apply (Hget 1%nat). change (Z.to_nat 2000) with 2000%nat. lia.
Defined.

Lemma updates_keep (dts : list R) :
  forall this : ParticleSystem.T,
    Three.u_sineTime (Three.uniforms (Three.material
                        (ParticleSystem.mesh (ParticleSystem.updates dts this))))
    = Three.u_sineTime (Three.uniforms (Three.material (ParticleSystem.mesh this)))
    /\ Three.geometry (ParticleSystem.mesh (ParticleSystem.updates dts this))
       = Three.geometry (ParticleSystem.mesh this)
    /\ Three.mesh_id (ParticleSystem.mesh (ParticleSystem.updates dts this))
       = Three.mesh_id (ParticleSystem.mesh this)
    /\ Three.position_y (ParticleSystem.mesh (ParticleSystem.updates dts this))
       = Three.position_y (ParticleSystem.mesh this).
Proof.
  induction dts as [|dt dts IH]; intros this; [repeat split|].
  change (ParticleSystem.updates (dt :: dts) this)
    with (ParticleSystem.updates dts (ParticleSystem.update dt this)).
  destruct (IH (ParticleSystem.update dt this)) as (H1 & H2 & H3 & H4).
  rewrite H1, H2, H3, H4. repeat split.
Qed.

(** X10. From construction on, any number of updates leaves the geometry
    (every attribute buffer) and the [sineTime] uniform untouched, the
    latter at its initial 5.0, while the accumulator stands at 0.0001 times
    the number of updates, whatever the frame durations were. *)
Theorem updates_touch_only_the_clock (rt : Js.Runtime) (dts : list R) :
  exists ps rt',
    ParticleSystem.new rt = Js.Ok ps rt'
    /\ ParticleSystem.time (ParticleSystem.updates dts ps) = 0.0001 * INR (length dts)
    /\ Three.u_sineTime (Three.uniforms (Three.material
                           (ParticleSystem.mesh (ParticleSystem.updates dts ps)))) = 5.0
    /\ Three.geometry (ParticleSystem.mesh (ParticleSystem.updates dts ps))
       = Three.geometry (ParticleSystem.mesh ps)
    /\ forall name, ParticleSystem.attribute (ParticleSystem.updates dts ps) name
                    = ParticleSystem.attribute ps name.
Proof.
  destruct (construct_filled 2000 rt ltac:(lia)) as (ps & rt' & Hrun & Hb & Hf).
  exists ps, rt'. split; [exact Hrun|].
  destruct (updates_keep dts ps) as (Hs & Hg & _ & _).
  split; [rewrite updates_time, (built_time _ _ _ _ Hb); lra|].
  split; [rewrite Hs, (filled_uniforms _ _ _ Hf); reflexivity|].
  split; [exact Hg|].
  intros name. unfold ParticleSystem.attribute. rewrite Hg. reflexivity.
Qed.

Lemma mix_same (q : VertexStage.vec4) (t : R) : VertexStage.mix q q t = q.
Proof. destruct q. unfold VertexStage.mix. simpl. f_equal; ring. Qed.

Lemma vertex_distance_kept_witness :
  VertexStage.length4
    (VertexStage.mix (VertexStage.orientationStart sample_vertex)
                     (VertexStage.orientationEnd sample_vertex)
                     (Shader.lifeProgress (VertexStage.time sample_vertex)
                                          (VertexStage.timeOffset sample_vertex))) <> 0
  /\ VertexStage.length3 (VertexStage.vPosition sample_vertex)
     = VertexStage.length3
         (VertexStage.add3
            (VertexStage.scale3 (VertexStage.offset sample_vertex)
               (Shader.lifeProgress (VertexStage.time sample_vertex)
                                    (VertexStage.timeOffset sample_vertex)))
            (VertexStage.position sample_vertex)).
Proof.
  assert (H : VertexStage.length4
                (VertexStage.mix (VertexStage.orientationStart sample_vertex)
                   (VertexStage.orientationEnd sample_vertex)
                   (Shader.lifeProgress (VertexStage.time sample_vertex)
                                        (VertexStage.timeOffset sample_vertex))) <> 0).
  { change (VertexStage.orientationEnd sample_vertex)
      with (VertexStage.orientationStart sample_vertex).
    rewrite mix_same. unfold VertexStage.length4. simpl.
    replace (0 * 0 + 0 * 0 + 0 * 0 + 1 * 1) with 1 by ring.
    rewrite sqrt_1. lra. }
  split; [exact H | exact (vertex_distance_kept sample_vertex H)].
Defined.

Lemma vertex_at_cycle_start_witness :
  VertexStage.time sample_vertex_at_start + VertexStage.timeOffset sample_vertex_at_start
  = IZR 7
  /\ VertexStage.lifeProgress (VertexStage.main sample_vertex_at_start) = 0.
Proof.
  assert (H : VertexStage.time sample_vertex_at_start
              + VertexStage.timeOffset sample_vertex_at_start = IZR 7)
    by (simpl; lra).
  split; [exact H | exact (proj1 (vertex_at_cycle_start sample_vertex_at_start 7 H))].
Defined.


Lemma pointer_target_in_range_witness :
  0 < 1024 /\ 0 < 768 /\ 0 <= 256 <= 1024 /\ 0 <= 768 <= 768
  /\ Pointer.to (Pointer.onMouseMove 256 768 1024 768 (0, 0) (0, 0))
     = ((768 / 768 - 0.5) / 2, (256 / 1024 - 0.5) / 2).
Proof.
  assert (Hw : 0 < 1024) by lra. assert (Hh : 0 < 768) by lra.
  assert (Hx : 0 <= 256 <= 1024) by lra. assert (Hy : 0 <= 768 <= 768) by lra.
  repeat (split; [assumption|]).
  destruct (pointer_target_in_range 256 768 1024 768 (0, 0) (0, 0) Hw Hh Hx Hy)
    as (_ & _ & H1 & H2 & _).
  cbv zeta in H1, H2.
  destruct (Pointer.to (Pointer.onMouseMove 256 768 1024 768 (0, 0) (0, 0))) as [a b].
  simpl in H1, H2. rewrite H1, H2. reflexivity.
Defined.

(** ** Frames and resizes of [RoboticsScene] *)

(** One tick of a render loop whose clock exists. *)
Lemma render_wp (clock : nat) (w : RoboticsScene.World)
      (r : Host.Renderer) (c : Host.Camera) (s : Host.Scene) (ps : ParticleSystem.T) :
  (clock < length (RoboticsScene.clocks w))%nat ->
  RoboticsScene.renderer w = Some r -> RoboticsScene.camera w = Some c ->
  RoboticsScene.scene w = Some s -> RoboticsScene.particles w = Some ps ->
  wp (RoboticsScene.render clock)
     (fun _ w' =>
        exists dt cl,
          w' = RoboticsScene.set_host
                 (RoboticsScene.set_particles
                    (RoboticsScene.set_clocks w (<[clock := cl]> (RoboticsScene.clocks w)))
                    (ParticleSystem.update dt ps))
                 (Host.set_raf
                    (Host.add_call (RoboticsScene.host w)
                       (Host.Render (Host.renderer_id r) (Host.scene_id s) (Host.camera_id c)))
                    (Host.raf_queue (RoboticsScene.host w)
                       ++ [(Host.raf_next (RoboticsScene.host w),
                            RoboticsScene.render_closure clock)])
                    (S (Host.raf_next (RoboticsScene.host w)))))
     w.
Proof.
  intros Hclock Hr Hc Hs Hps. destruct w as [h ? ? clocks ? ? ? ? ? ?]. destruct h.
  cbn in Hclock, Hr, Hc, Hs, Hps. subst.
  destruct (lookup_lt_is_Some_2 clocks clock Hclock) as [cl Hcl].
  unfold_robotics. js_eval. js_step. js_eval. js_step. js_eval. js_step. js_eval.
  rewrite Hcl. js_step. js_eval. js_step. js_eval. js_step. js_eval.
  destruct (RoboticsScene.running cl); js_run; do 2 eexists; reflexivity.
Qed.

(** The pending ticks of one frame, run in turn: each renders once, steps
    the particle system once and schedules its successor. *)
Lemma run_closures_wp (r : Host.Renderer) (c : Host.Camera) (s : Host.Scene)
      (q : list (nat * RoboticsScene.Closure)) :
  forall (w : RoboticsScene.World) (ps : ParticleSystem.T),
    Forall (fun e => (closure_clock (snd e) < length (RoboticsScene.clocks w))%nat) q ->
    RoboticsScene.renderer w = Some r -> RoboticsScene.camera w = Some c ->
    RoboticsScene.scene w = Some s -> RoboticsScene.particles w = Some ps ->
    wp (Js.for_each (fun e => RoboticsScene.run_closure (snd e)) q)
       (fun _ w' =>
          exists dts q' clocks',
            length dts = length q /\ length q' = length q
            /\ length clocks' = length (RoboticsScene.clocks w)
            /\ Forall (fun e => (closure_clock (snd e)
                                 < length (RoboticsScene.clocks w))%nat) q'
            /\ w' = RoboticsScene.set_host
                      (RoboticsScene.set_particles
                         (RoboticsScene.set_clocks w clocks')
                         (ParticleSystem.updates dts ps))
                      {| Host.rt := Host.rt (RoboticsScene.host w);
                         Host.now := Host.now (RoboticsScene.host w);
                         Host.innerWidth := Host.innerWidth (RoboticsScene.host w);
                         Host.innerHeight := Host.innerHeight (RoboticsScene.host w);
                         Host.devicePixelRatio :=
                           Host.devicePixelRatio (RoboticsScene.host w);
                         Host.raf_queue := Host.raf_queue (RoboticsScene.host w) ++ q';
                         Host.raf_next :=
                           (Host.raf_next (RoboticsScene.host w) + length q)%nat;
                         Host.calls :=
                           Host.calls (RoboticsScene.host w)
                           ++ replicate (length q)
                                (Host.Render (Host.renderer_id r) (Host.scene_id s)
                                             (Host.camera_id c)) |})
       w.
Proof.
  induction q as [|[handle [clock]] q IH]; intros w ps Hq Hr Hc Hs Hps.
  - apply wp_ret. exists [], [], (RoboticsScene.clocks w).
    repeat (split; [first [reflexivity | constructor]|]).
    destruct w as [[] ? ? ? ? ? ? ? ? ?]. cbn in Hr, Hc, Hs, Hps. subst.
    cbn. rewrite !app_nil_r, Nat.add_0_r. reflexivity.
  - apply Forall_cons in Hq as [Hclock Hq]. cbn [snd closure_clock] in Hclock.
    cbn [Js.for_each snd RoboticsScene.run_closure]. apply wp_bind.
    eapply wp_mono; [apply (render_wp clock w r c s ps); assumption|].
    cbv beta. intros _ w1 (dt & cl & ->).
    eapply wp_mono.
    { apply (IH _ (ParticleSystem.update dt ps)).
      - cbn. rewrite length_insert. exact Hq.
      - destruct w; cbn in *; assumption.
      - destruct w; cbn in *; assumption.
      - destruct w; cbn in *; assumption.
      - reflexivity. }
    cbv beta. intros _ w2 (dts & q' & clocks' & Hdts & Hq' & Hclocks' & Hok & ->).
    exists (dt :: dts), ((Host.raf_next (RoboticsScene.host w),
                          RoboticsScene.render_closure clock) :: q'), clocks'.
    split; [cbn; congruence|]. split; [cbn; congruence|].
    split; [revert Hclocks'; cbn; rewrite length_insert; trivial|].
    split.
    { constructor; [exact Hclock|].
      revert Hok. cbn. rewrite length_insert. trivial. }
    destruct w as [[] ? ? ? ? ? ? ? ? ?]. cbn.
    rewrite <- !app_assoc. cbn. rewrite Nat.add_succ_r. reflexivity.
Qed.

(** The resize routine, with everything it leaves. *)
Lemma handleWindowResize_full (w : RoboticsScene.World) (r : Host.Renderer) (c : Host.Camera) :
  RoboticsScene.renderer w = Some r ->
  RoboticsScene.camera w = Some c ->
  wp RoboticsScene.handleWindowResize
     (fun _ w' =>
        let iw := Host.innerWidth (RoboticsScene.host w) in
        let ih := Host.innerHeight (RoboticsScene.host w) in
        w' = RoboticsScene.set_host
               (RoboticsScene.set_camera
                  (RoboticsScene.set_renderer
                     (RoboticsScene.set_width_height w iw ih) (Host.setSize r iw ih))
                  (Host.updateProjectionMatrix (Host.set_aspect c (IZR iw / IZR ih))))
               {| Host.rt := Host.rt (RoboticsScene.host w);
                  Host.now := Host.now (RoboticsScene.host w);
                  Host.innerWidth := iw; Host.innerHeight := ih;
                  Host.devicePixelRatio := Host.devicePixelRatio (RoboticsScene.host w);
                  Host.raf_queue := Host.raf_queue (RoboticsScene.host w);
                  Host.raf_next := Host.raf_next (RoboticsScene.host w);
                  Host.calls :=
                    Host.calls (RoboticsScene.host w)
                    ++ [Host.Enter "handleWindowResize";
                        Host.SetSize (Host.renderer_id r) iw ih;
                        Host.UpdateProjectionMatrix (Host.camera_id c);
                        Host.Leave "handleWindowResize"] |})
     w.
Proof.
  intros Hr Hc. destruct w as [[] ? ? ? ? ? ? ? ? ?].
  cbn in Hr, Hc. subst.
  unfold_robotics. js_eval. js_run.
  cbn. rewrite <- !app_assoc. reflexivity.
Qed.

(** The registered listeners, called in turn on one resize event. *)
Lemma resize_listeners_wp (n : nat) :
  forall (start : nat) (w : RoboticsScene.World) (r : Host.Renderer) (c : Host.Camera),
    RoboticsScene.renderer w = Some r ->
    RoboticsScene.camera w = Some c ->
    wp (Js.for_ (fun _ _ => RoboticsScene.handleWindowResize) start n tt)
       (fun _ w' =>
          let iw := Host.innerWidth (RoboticsScene.host w) in
          let ih := Host.innerHeight (RoboticsScene.host w) in
          w' = match n with
               | O => w
               | S _ =>
                   RoboticsScene.set_host
                     (RoboticsScene.set_camera
                        (RoboticsScene.set_renderer
                           (RoboticsScene.set_width_height w iw ih) (Host.setSize r iw ih))
                        (Host.updateProjectionMatrix (Host.set_aspect c (IZR iw / IZR ih))))
                     {| Host.rt := Host.rt (RoboticsScene.host w);
                        Host.now := Host.now (RoboticsScene.host w);
                        Host.innerWidth := iw; Host.innerHeight := ih;
                        Host.devicePixelRatio :=
                          Host.devicePixelRatio (RoboticsScene.host w);
                        Host.raf_queue := Host.raf_queue (RoboticsScene.host w);
                        Host.raf_next := Host.raf_next (RoboticsScene.host w);
                        Host.calls :=
                          Host.calls (RoboticsScene.host w)
                          ++ mjoin (replicate n
                                      [Host.Enter "handleWindowResize";
                                       Host.SetSize (Host.renderer_id r) iw ih;
                                       Host.UpdateProjectionMatrix (Host.camera_id c);
                                       Host.Leave "handleWindowResize"]) |}
               end)
       w.
Proof.
  induction n as [|n IH]; intros start w r c Hr Hc.
  - apply wp_ret. reflexivity.
  - cbn [Js.for_]. apply wp_bind.
    eapply wp_mono; [apply (handleWindowResize_full w r c); assumption|].
    cbv beta zeta. intros [] w1 ->.
    eapply wp_mono; [apply IH; reflexivity|].
    cbv beta zeta. intros [] w2 ->.
    destruct w as [[] ? ? ? ? ? ? ? ? ?]. cbn in Hr, Hc. subst.
    destruct n; cbn.
    + reflexivity.
    + rewrite <- !app_assoc. reflexivity.
Qed.

Lemma frames_cons (e : RoboticsScene.Event) (es : list RoboticsScene.Event) :
  frames (e :: es) = ((if is_frame e then 1 else 0) + frames es)%nat.
Proof. unfold frames. cbn. destruct (is_frame e); reflexivity. Qed.

Lemma resizes_cons (e : RoboticsScene.Event) (es : list RoboticsScene.Event) :
  resizes (e :: es) = ((if is_frame e then 0 else 1) + resizes es)%nat.
Proof. unfold resizes. cbn. destruct (is_frame e); reflexivity. Qed.

(** One event on a world with [k] loops and listeners. *)
Lemma robotics_dispatch_after (k : nat) (e : RoboticsScene.Event) (w : RoboticsScene.World) :
  robotics_loops k w ->
  wp (RoboticsScene.dispatch e) (fun _ w' => robotics_after k [e] w w') w.
Proof.
  intros [Hpending Hclocks Hlisteners [r Hr] [c Hc] [s Hs] [ps Hps]].
  destruct w as [[rt now iw ih dpr q next calls] container listeners clocks
                   width height ? ? ? ?].
  cbn in Hpending, Hclocks, Hlisteners, Hr, Hc, Hs, Hps. subst.
  destruct e as [iw' ih'|t]; unfold RoboticsScene.dispatch; js_run.
  - eapply wp_mono; [apply (resize_listeners_wp _ _ _ r c); reflexivity|].
    cbv beta zeta. intros [] w' ->. cbn.
    destruct (length q) eqn:Hk.
    + constructor; cbn.
      * constructor; cbn; first [assumption | reflexivity | eexists; reflexivity].
      * exists r, s, c. rewrite app_nil_r. repeat split.
      * reflexivity.
      * reflexivity.
      * reflexivity.
      * reflexivity.
      * exists ps, []. repeat split; rewrite ?frames_cons; cbn; lia.
    + constructor; cbn.
      * constructor; cbn; first [assumption | reflexivity | eexists; reflexivity].
      * exists r, s, c. rewrite !app_nil_r. repeat split.
      * reflexivity.
      * reflexivity.
      * reflexivity.
      * reflexivity.
      * exists ps, []. repeat split; rewrite ?frames_cons; cbn; lia.
  - eapply wp_mono.
    { apply (run_closures_wp r c s q _ ps); [exact Hclocks|reflexivity..]. }
    cbv beta. intros [] w' (dts & q' & clocks' & Hdts & Hq' & Hclocks' & Hok & ->). cbn.
    cbn in Hok, Hclocks'.
    constructor; cbn.
    + constructor; cbn; first [assumption | reflexivity | eexists; reflexivity | idtac].
      rewrite Hclocks'. exact Hok.
    + exists r, s, c. rewrite app_nil_r.
      repeat split; destruct (length q); reflexivity.
    + reflexivity.
    + reflexivity.
    + reflexivity.
    + reflexivity.
    + exists ps, dts. repeat split; rewrite ?frames_cons; cbn; lia.
Qed.

Lemma renderer_after_event_id (k : nat) (r : Host.Renderer) (e : RoboticsScene.Event) :
  Host.renderer_id (renderer_after_event k r e) = Host.renderer_id r.
Proof. destruct e, k; reflexivity. Qed.

Lemma camera_after_event_id (k : nat) (c : Host.Camera) (e : RoboticsScene.Event) :
  Host.camera_id (camera_after_event k c e) = Host.camera_id c.
Proof. destruct e, k; reflexivity. Qed.

Lemma robotics_after_nil (k : nat) (w : RoboticsScene.World) :
  robotics_loops k w -> robotics_after k [] w w.
Proof.
  intros Hl. pose proof Hl as [_ _ _ [r Hr] [c Hc] [s Hs] [ps Hps]].
  constructor; try reflexivity; [exact Hl| |].
  - exists r, s, c. cbn. rewrite app_nil_r. auto 7.
  - exists ps, []. cbn. rewrite Nat.mul_0_r. auto.
Qed.

Lemma robotics_after_cons (k : nat) (e : RoboticsScene.Event) (es : list RoboticsScene.Event)
      (w w1 w2 : RoboticsScene.World) :
  robotics_after k [e] w w1 -> robotics_after k es w1 w2 ->
  robotics_after k (e :: es) w w2.
Proof.
  intros [_ (r & s & c & Hr & Hs & Hc & Hcalls1 & Hr1 & Hc1) Hs1 Hcont1 Hrt1 Hwin1
            (ps & dts1 & Hps & Hdts1 & Hps1)]
         [Hl (r' & s' & c' & Hr' & Hs' & Hc' & Hcalls2 & Hr2 & Hc2) Hs2 Hcont2 Hrt2 Hwin2
            (ps' & dts2 & Hps' & Hdts2 & Hps2)].
  cbn [fold_left] in Hr1, Hc1.
  assert (r' = renderer_after_event k r e) by congruence.
  assert (c' = camera_after_event k c e) by congruence.
  assert (s' = s) by congruence.
  assert (ps' = ParticleSystem.updates dts1 ps) by congruence.
  subst r' c' s' ps'.
  rewrite renderer_after_event_id, camera_after_event_id in Hcalls2.
  constructor.
  - exact Hl.
  - exists r, s, c. repeat (split; [assumption|]).
    split; [|split; assumption].
    rewrite Hcalls2, Hcalls1. unfold robotics_trace. cbn [flat_map].
    rewrite app_nil_r, <- app_assoc. reflexivity.
  - congruence.
  - congruence.
  - congruence.
  - rewrite Hwin2, Hwin1. reflexivity.
  - exists ps, (dts1 ++ dts2). split; [exact Hps|]. split.
    + rewrite length_app, Hdts1, Hdts2, (frames_cons e es).
      unfold frames at 1. cbn [List.filter]. destruct (is_frame e); cbn [length]; lia.
    + rewrite Hps2. unfold ParticleSystem.updates. rewrite fold_left_app. reflexivity.
Qed.

(** Any events on a world with [k] loops and listeners. *)
Lemma robotics_events_after (k : nat) (es : list RoboticsScene.Event) :
  forall w : RoboticsScene.World,
    robotics_loops k w ->
    wp (Js.for_each RoboticsScene.dispatch es) (fun _ w' => robotics_after k es w w') w.
Proof.
  induction es as [|e es IH]; intros w Hl.
  - apply wp_ret, robotics_after_nil, Hl.
  - cbn [Js.for_each]. apply wp_bind.
    eapply wp_mono; [apply robotics_dispatch_after, Hl|].
    cbv beta. intros [] w1 H1.
    eapply wp_mono; [apply IH, (after_loops _ _ _ _ H1)|].
    cbv beta. intros [] w2 H2. exact (robotics_after_cons _ _ _ _ _ _ H1 H2).
Qed.

Lemma count_calls_app (p : Host.Call -> bool) (l1 l2 : list Host.Call) :
  Host.count_calls p (l1 ++ l2) = (Host.count_calls p l1 + Host.count_calls p l2)%nat.
Proof. unfold Host.count_calls. rewrite List.filter_app, length_app. reflexivity. Qed.

Lemma count_calls_replicate (p : Host.Call -> bool) (n : nat) (c : Host.Call) :
  Host.count_calls p (replicate n c) = (if p c then n else 0)%nat.
Proof.
  induction n as [|n IH]; [destruct (p c); reflexivity|].
  change (replicate (S n) c) with ([c] ++ replicate n c).
  rewrite count_calls_app, IH. unfold Host.count_calls. cbn.
  destruct (p c); reflexivity.
Qed.

Lemma count_calls_mjoin_replicate (p : Host.Call -> bool) (n : nat) (l : list Host.Call) :
  Host.count_calls p (mjoin (replicate n l)) = (n * Host.count_calls p l)%nat.
Proof.
  induction n as [|n IH]; [reflexivity|].
  change (mjoin (replicate (S n) l)) with (l ++ mjoin (replicate n l)).
  rewrite count_calls_app, IH. lia.
Qed.

Lemma robotics_trace_renders (k rid sid cid : nat) (es : list RoboticsScene.Event) :
  Host.count_calls Host.is_render (robotics_trace k rid sid cid es) = (k * frames es)%nat.
Proof.
  induction es as [|e es IH]; [cbn; lia|].
  unfold robotics_trace in *. cbn [flat_map].
  rewrite count_calls_app, IH, frames_cons. destruct e; cbn [robotics_event_calls is_frame].
  - rewrite count_calls_mjoin_replicate. cbn. lia.
  - rewrite count_calls_replicate. cbn. lia.
Qed.

Lemma robotics_trace_enters (k rid sid cid : nat) (es : list RoboticsScene.Event) :
  Host.count_calls Host.is_enter (robotics_trace k rid sid cid es) = (k * resizes es)%nat.
Proof.
  induction es as [|e es IH]; [cbn; lia|].
  unfold robotics_trace in *. cbn [flat_map].
  rewrite count_calls_app, IH, resizes_cons. destruct e; cbn [robotics_event_calls is_frame].
  - rewrite count_calls_mjoin_replicate. cbn. lia.
  - rewrite count_calls_replicate. cbn. lia.
Qed.

(** ** Mounting and re-rendering [RoboticsScene] *)

Lemma robotics_mount_full (rt : Js.Runtime) (now : R) (iw ih : Z) (dpr : R)
      (themes : RoboticsScene.ThemeId -> RoboticsScene.Theme)
      (t : RoboticsScene.Theme) (prm : bool) :
  wp (RoboticsScene.mount
        {| RoboticsScene.theme := themes; RoboticsScene.currentTheme := t;
           RoboticsScene.prefersReducedMotion := prm |})
     (fun _ w => exists r c s ps, robotics_mounted prm iw ih w r c s ps)
     (RoboticsScene.initial (Host.fresh rt now iw ih dpr)).
Proof.
  unfold RoboticsScene.mount.
  run_particles_effect ps1 rt1 Hb1.
  pose proof (built_time _ _ _ _ Hb1) as Htime.
  pose proof (built_uniform _ _ _ _ Hb1) as Huniform.
  unfold ParticleSystem.time_uniform in Huniform.
  pose proof (built_mesh _ _ _ _ Hb1) as Hmesh.
  pose proof (built_heap_length _ _ _ _ Hb1) as Hlen.
  revert Hmesh Hlen. js_eval. intros Hmesh Hlen.
  unfold_robotics. js_eval.
  destruct prm; js_eval; js_run.
  all: do 4 eexists.
  all: constructor; cbn;
    first [reflexivity
          | do 2 eexists; reflexivity
          | cbn; rewrite Htime; lra
          | unfold ParticleSystem.time_uniform; cbn; rewrite Huniform; lra
          | reflexivity
          | cbn; rewrite !length_app; cbn [length]; lia
          | idtac].
  all: constructor; cbn;
    first [reflexivity | eexists; reflexivity | repeat constructor].
Qed.

Lemma updates_uniform (dts : list R) :
  forall ps : ParticleSystem.T,
    ParticleSystem.time_uniform ps = sin (ParticleSystem.time ps) ->
    ParticleSystem.time_uniform (ParticleSystem.updates dts ps)
    = sin (ParticleSystem.time (ParticleSystem.updates dts ps)).
Proof.
  induction dts as [|dt dts IH]; intros ps Hps; [exact Hps|].
  change (ParticleSystem.updates (dt :: dts) ps)
    with (ParticleSystem.updates dts (ParticleSystem.update dt ps)).
  apply IH. reflexivity.
Qed.

Lemma renderer_after_events_size (k : nat) (es : list RoboticsScene.Event) :
  forall r : Host.Renderer,
    Host.size (fold_left (renderer_after_event (S k)) es r) = window_after (Host.size r) es
    /\ Host.renderer_id (fold_left (renderer_after_event (S k)) es r) = Host.renderer_id r.
Proof.
  unfold window_after.
  induction es as [|[w h|t] es IH]; intros r; cbn [fold_left]; [split; reflexivity|..].
  - change (renderer_after_event (S k) r (RoboticsScene.Resize w h))
      with (Host.setSize r w h).
    destruct (IH (Host.setSize r w h)) as [H1 H2]. rewrite H1, H2. split; reflexivity.
  - apply IH.
Qed.

Lemma camera_after_events (k : nat) (id : nat) (es : list RoboticsScene.Event) :
  forall size : Z * Z,
    fold_left (camera_after_event (S k)) es
      (Host.set_position
         (Host.PerspectiveCamera id 60 (IZR (fst size) / IZR (snd size)) 0.1 60)
         (0, 1.7, 0.5))
    = Host.set_position
        (Host.PerspectiveCamera id 60
           (IZR (fst (window_after size es)) / IZR (snd (window_after size es))) 0.1 60)
        (0, 1.7, 0.5).
Proof.
  unfold window_after.
  induction es as [|[w h|t] es IH]; intros size; cbn [fold_left]; [reflexivity|..].
  - rewrite <- (IH (w, h)). reflexivity.
  - apply IH.
Qed.

Lemma idle_after_events (A : Type) (f : A -> RoboticsScene.Event -> A)
      (es : list RoboticsScene.Event) (a : A) :
  (forall a e, f a e = a) -> fold_left f es a = a.
Proof. intros Hf. induction es as [|e es IH]; cbn; [reflexivity|]. rewrite Hf. exact IH. Qed.

(** A mounted [RoboticsScene] after any events. *)
Lemma robotics_life_wp (rt : Js.Runtime) (now : R) (iw ih : Z) (dpr : R)
      (themes : RoboticsScene.ThemeId -> RoboticsScene.Theme)
      (t : RoboticsScene.Theme) (prm : bool) (es : list RoboticsScene.Event) :
  wp (robotics_life
        {| RoboticsScene.theme := themes; RoboticsScene.currentTheme := t;
           RoboticsScene.prefersReducedMotion := prm |} es)
     (fun _ w' =>
        exists w r c s ps,
          robotics_mounted prm iw ih w r c s ps
          /\ robotics_after (if prm then 0 else 1) es w w')
     (RoboticsScene.initial (Host.fresh rt now iw ih dpr)).
Proof.
  unfold robotics_life. apply wp_bind.
  eapply wp_mono; [apply robotics_mount_full|].
  cbv beta. intros [] w (r & c & s & ps & Hm).
  eapply wp_mono; [apply robotics_events_after, (mounted_loops _ _ _ _ _ _ _ _ Hm)|].
  cbv beta. intros [] w' Ha. exists w, r, c, s, ps. split; assumption.
Qed.
(** X11. Mounted with motion allowed, [RoboticsScene] runs one render loop
    that never stops: after any frames and window resizes exactly one tick
    is pending; the calls made are the [setSize] of the scene effect, the
    render of the first tick, then one render per frame and one run of the
    resize routine per resize, all on the same renderer, scene and camera;
    the accumulator has advanced by 0.0001 per render, whatever the times
    of the frames, and the [time] uniform is its sine; the renderer has the
    size of the window and the camera its aspect. *)
Theorem robotics_loop_renders_each_frame
        (rt : Js.Runtime) (now : R) (iw ih : Z) (dpr : R)
        (themes : RoboticsScene.ThemeId -> RoboticsScene.Theme)
        (t : RoboticsScene.Theme) (es : list RoboticsScene.Event) :
  exists w r c s ps,
    robotics_life
      {| RoboticsScene.theme := themes; RoboticsScene.currentTheme := t;
         RoboticsScene.prefersReducedMotion := false |} es
      (RoboticsScene.initial (Host.fresh rt now iw ih dpr)) = Js.Ok tt w
    /\ RoboticsScene.renderer w = Some r /\ RoboticsScene.camera w = Some c
    /\ RoboticsScene.scene w = Some s /\ RoboticsScene.particles w = Some ps
    /\ length (Host.raf_queue (RoboticsScene.host w)) = 1%nat
    /\ Host.calls (RoboticsScene.host w)
       = Host.SetSize (Host.renderer_id r) iw ih
         :: Host.Render (Host.renderer_id r) (Host.scene_id s) (Host.camera_id c)
         :: robotics_trace 1 (Host.renderer_id r) (Host.scene_id s) (Host.camera_id c) es
    /\ Host.count_calls Host.is_render (Host.calls (RoboticsScene.host w)) = S (frames es)
    /\ ParticleSystem.time ps = 0.0001 * INR (S (frames es))
    /\ ParticleSystem.time_uniform ps = sin (0.0001 * INR (S (frames es)))
    /\ Host.size r = window_after (iw, ih) es
    /\ c = Host.set_position
             (Host.PerspectiveCamera (Host.camera_id c) 60
                (IZR (fst (window_after (iw, ih) es)) / IZR (snd (window_after (iw, ih) es)))
                0.1 60)
             (0, 1.7, 0.5).
Proof.
  destruct (wp_run _ _ _ (robotics_life_wp rt now iw ih dpr themes t false es))
    as (w' & Hrun & w & r & c & s & ps & Hm & Ha).
  pose proof (mounted_projection _ _ _ _ _ _ _ _ Hm) as Hproj.
  revert Hproj.
  destruct Hm as [_ Hr Hsize Hc _ Hs Hps _ Htime Huniform _ Hcalls _].
  destruct Ha as [Hl (r0 & s0 & c0 & Hr0 & Hs0 & Hc0 & Hcalls' & Hr' & Hc') Hs' _ _ _
                     (ps0 & dts & Hps0 & Hdts & Hps')].
  assert (r0 = r) by congruence. assert (c0 = c) by congruence.
  assert (s0 = s) by congruence. assert (ps0 = ps) by congruence. subst r0 c0 s0 ps0.
  intros Hproj.
  destruct (renderer_after_events_size 0 es r) as [Hsz Hrid].
  assert (Hcam : fold_left (camera_after_event 1) es c
                 = Host.set_position
                     (Host.PerspectiveCamera (Host.camera_id c) 60
                        (IZR (fst (window_after (iw, ih) es))
                         / IZR (snd (window_after (iw, ih) es))) 0.1 60)
                     (0, 1.7, 0.5)).
  { pose proof (camera_after_events 0 (Host.camera_id c) es (iw, ih)) as H.
    change (IZR (fst (iw, ih)) / IZR (snd (iw, ih))) with (IZR iw / IZR ih) in H.
    rewrite <- Hproj in H. exact H. }
  assert (Htime' : ParticleSystem.time (ParticleSystem.updates dts ps)
                   = 0.0001 * INR (S (frames es))).
  { rewrite updates_time, Htime, Hdts, Nat.mul_1_l, S_INR. lra. }
  exists w', (fold_left (renderer_after_event 1) es r),
    (fold_left (camera_after_event 1) es c), s, (ParticleSystem.updates dts ps).
  rewrite Hrid.
  split; [exact Hrun|]. split; [exact Hr'|]. split; [exact Hc'|].
  split; [congruence|]. split; [exact Hps'|].
  split; [apply (loops_pending _ _ Hl)|].
  assert (Hid : Host.camera_id (fold_left (camera_after_event 1) es c) = Host.camera_id c)
    by (rewrite Hcam; reflexivity).
  rewrite Hid.
  split; [rewrite Hcalls', Hcalls; reflexivity|].
  split.
  { rewrite Hcalls', Hcalls, count_calls_app, robotics_trace_renders.
    unfold Host.count_calls. cbn. lia. }
  split; [exact Htime'|].
  split; [rewrite <- Htime'; apply updates_uniform; exact Huniform|].
  split; [rewrite Hsz, Hsize; reflexivity|].
  exact Hcam.
Qed.

Lemma robotics_trace_idle (rid sid cid : nat) (es : list RoboticsScene.Event) :
  robotics_trace 0 rid sid cid es = [].
Proof.
  induction es as [|e es IH]; [reflexivity|].
  unfold robotics_trace in *. cbn [flat_map]. rewrite IH. destruct e; reflexivity.
Qed.

(** X14. Mounted with reduced motion, [RoboticsScene] registers no resize
    listener, so that no later resize of the window reaches it: whatever
    the window has become, the renderer keeps the size and the camera the
    aspect of the window at mounting, and the only call ever made is the
    [setSize] of the scene effect. *)
Theorem robotics_reduced_motion_ignores_resizes
        (rt : Js.Runtime) (now : R) (iw ih : Z) (dpr : R)
        (themes : RoboticsScene.ThemeId -> RoboticsScene.Theme)
        (t : RoboticsScene.Theme) (es : list RoboticsScene.Event) :
  exists w r c,
    robotics_life
      {| RoboticsScene.theme := themes; RoboticsScene.currentTheme := t;
         RoboticsScene.prefersReducedMotion := true |} es
      (RoboticsScene.initial (Host.fresh rt now iw ih dpr)) = Js.Ok tt w
    /\ (Host.innerWidth (RoboticsScene.host w), Host.innerHeight (RoboticsScene.host w))
       = window_after (iw, ih) es
    /\ RoboticsScene.renderer w = Some r /\ Host.size r = (iw, ih)
    /\ RoboticsScene.camera w = Some c /\ Host.aspect c = IZR iw / IZR ih
    /\ Host.projectionMatrix c = Host.makePerspective 60 (IZR iw / IZR ih) 0.1 60
    /\ Host.calls (RoboticsScene.host w) = [Host.SetSize (Host.renderer_id r) iw ih].
Proof.
  destruct (wp_run _ _ _ (robotics_life_wp rt now iw ih dpr themes t true es))
    as (w' & Hrun & w & r & c & s & ps & Hm & Ha).
  pose proof (mounted_projection _ _ _ _ _ _ _ _ Hm) as Hproj.
  revert Hproj.
  destruct Hm as [_ Hr Hsize Hc _ Hs Hps _ _ _ _ Hcalls Hwin].
  destruct Ha as [_ (r0 & s0 & c0 & Hr0 & Hs0 & Hc0 & Hcalls' & Hr' & Hc') _ _ _ Hwin' _].
  assert (r0 = r) by congruence. assert (c0 = c) by congruence. subst r0 c0.
  intros Hproj.
  rewrite idle_after_events in Hr' by (intros ? []; reflexivity).
  rewrite idle_after_events in Hc' by (intros ? []; reflexivity).
  pose proof (robotics_trace_idle (Host.renderer_id r) (Host.scene_id s0)
                                  (Host.camera_id c) es) as Htrace.
  exists w', r, c.
  split; [exact Hrun|]. split; [rewrite Hwin', Hwin; reflexivity|].
  split; [exact Hr'|]. split; [exact Hsize|]. split; [exact Hc'|].
  split; [rewrite Hproj; reflexivity|]. split; [rewrite Hproj; reflexivity|].
  rewrite Hcalls', Htrace, app_nil_r. exact Hcalls.
Qed.

(** A later render of [RoboticsScene] under the same theme: the particle
    system is replaced by a new one; a loop and a listener are added when
    the preference changed to motion allowed; nothing is ever removed. *)
Lemma robotics_rerender_wp (k : nat)
      (themes : RoboticsScene.ThemeId -> RoboticsScene.Theme) (t : RoboticsScene.Theme)
      (prm prm' : bool) (w : RoboticsScene.World)
      (r : Host.Renderer) (c : Host.Camera) (s : Host.Scene) :
  robotics_loops k w ->
  RoboticsScene.renderer w = Some r -> RoboticsScene.camera w = Some c ->
  RoboticsScene.scene w = Some s ->
  wp (RoboticsScene.rerender
        {| RoboticsScene.theme := themes; RoboticsScene.currentTheme := t;
           RoboticsScene.prefersReducedMotion := prm |}
        {| RoboticsScene.theme := themes; RoboticsScene.currentTheme := t;
           RoboticsScene.prefersReducedMotion := prm' |})
     (fun _ w' =>
        robotics_loops (if prm && negb prm' then S k else k) w'
        /\ RoboticsScene.renderer w' = Some r /\ RoboticsScene.camera w' = Some c
        /\ RoboticsScene.scene w' = Some s
        /\ RoboticsScene.container w' = RoboticsScene.container w
        /\ Host.calls (RoboticsScene.host w')
           = Host.calls (RoboticsScene.host w)
             ++ (if prm && negb prm'
                 then [Host.Render (Host.renderer_id r) (Host.scene_id s) (Host.camera_id c)]
                 else [])
        /\ exists ps,
             RoboticsScene.particles w' = Some ps
             /\ ParticleSystem.time ps = (if prm && negb prm' then 0.0001 else 0)
             /\ Three.mesh_id (ParticleSystem.mesh ps)
                = (length (Js.heap (Host.rt (RoboticsScene.host w))) + 10)%nat
             /\ length (Js.heap (Host.rt (RoboticsScene.host w')))
                = (length (Js.heap (Host.rt (RoboticsScene.host w))) + 11)%nat)
     w.
Proof.
  intros [Hpending Hclocks Hlisteners _ _ _ _] Hr Hc Hs.
  destruct w as [[rt now iw ih dpr q next calls] container listeners clocks
                   width height ? ? ? ?].
  cbn in Hpending, Hclocks, Hlisteners, Hr, Hc, Hs. subst.
  unfold RoboticsScene.rerender.
  run_particles_effect ps2 rt2 Hb2.
  pose proof (built_time _ _ _ _ Hb2) as Htime.
  pose proof (built_mesh _ _ _ _ Hb2) as Hmesh.
  pose proof (built_heap_length _ _ _ _ Hb2) as Hlen.
  revert Hmesh Hlen. js_eval. intros Hmesh Hlen.
  js_eval. destruct (decide (t = t)) as [_|Hf]; [|exfalso; apply Hf; reflexivity].
  js_step. js_eval. js_step. js_eval.
  destruct prm, prm'; js_eval.
  all: match goal with
       | |- context [decide (?a = ?a)] => destruct (decide (a = a)) as [_|He]; [|exfalso; apply He; reflexivity]
       | |- context [decide (?a = ?b)] => destruct (decide (a = b)) as [He|_]; [discriminate He|]
       end.
  all: unfold RoboticsScene.resize_effect, RoboticsScene.render_effect; js_eval; js_run.
  2: { eapply wp_mono.
       { apply (render_wp _ _ r c s ps2); try reflexivity.
         cbn. rewrite length_app. cbn. lia. }
       cbv beta. intros [] w' (dt & cl & ->). cbn.
       split.
       { constructor; cbn; try (eexists; reflexivity).
         - rewrite length_app. cbn. lia.
         - rewrite length_insert, length_app. cbn. apply Forall_app. split.
           + eapply Forall_impl; [exact Hclocks|]. cbn. intros; lia.
           + repeat constructor. cbn. lia. }
       repeat (split; [reflexivity|]).
       eexists. split; [reflexivity|]. cbn. rewrite Htime.
       split; [lra|]. split; [exact Hmesh | exact Hlen]. }
  all: split; [constructor; cbn; first [reflexivity | eexists; reflexivity | idtac]|].
  all: try (rewrite ?length_app; cbn [length]; eapply Forall_impl; [exact Hclocks|];
            cbn; intros; lia).
  all: try exact Hclocks.
  all: rewrite ?app_nil_r; repeat (split; [reflexivity|]).
  all: eexists; split; [reflexivity|]; split; [exact Htime|]; split; [exact Hmesh | exact Hlen].
Qed.

(** What the events add to the counts of a world with [k] loops. *)
Lemma robotics_after_counts (k : nat) (es : list RoboticsScene.Event)
      (w w' : RoboticsScene.World) (ps : ParticleSystem.T) :
  robotics_after k es w w' ->
  RoboticsScene.particles w = Some ps ->
  length (Host.raf_queue (RoboticsScene.host w')) = k
  /\ RoboticsScene.resize_listeners w' = k
  /\ Host.count_calls Host.is_render (Host.calls (RoboticsScene.host w'))
     = (Host.count_calls Host.is_render (Host.calls (RoboticsScene.host w))
        + k * frames es)%nat
  /\ Host.count_calls Host.is_enter (Host.calls (RoboticsScene.host w'))
     = (Host.count_calls Host.is_enter (Host.calls (RoboticsScene.host w))
        + k * resizes es)%nat
  /\ exists ps',
       RoboticsScene.particles w' = Some ps'
       /\ ParticleSystem.time ps' = ParticleSystem.time ps + 0.0001 * INR (k * frames es)
       /\ Three.mesh_id (ParticleSystem.mesh ps') = Three.mesh_id (ParticleSystem.mesh ps).
Proof.
  intros [Hl (r & s & c & _ & _ & _ & Hcalls & _) _ _ _ _ (ps0 & dts & Hps0 & Hdts & Hps')] Hps.
  assert (ps0 = ps) by (rewrite Hps in Hps0; injection Hps0; auto). subst ps0.
  split; [apply (loops_pending _ _ Hl)|]. split; [apply (loops_listeners _ _ Hl)|].
  rewrite Hcalls, !count_calls_app, robotics_trace_renders, robotics_trace_enters.
  split; [reflexivity|]. split; [reflexivity|].
  exists (ParticleSystem.updates dts ps). split; [exact Hps'|].
  rewrite updates_time, Hdts. split; [reflexivity|].
  apply (updates_keep dts ps).
Qed.

Lemma robotics_loops_refs (k : nat) (w : RoboticsScene.World) :
  robotics_loops k w ->
  exists r c s ps,
    RoboticsScene.renderer w = Some r /\ RoboticsScene.camera w = Some c
    /\ RoboticsScene.scene w = Some s /\ RoboticsScene.particles w = Some ps.
Proof. intros [_ _ _ [r Hr] [c Hc] [s Hs] [ps Hps]]. exists r, c, s, ps. auto. Qed.

(** X12. A later render of [RoboticsScene] with the same theme and
    preference (the effect without dependency list runs after every
    render) replaces [particles.current] by a new entity whose mesh is
    never added to the scene: the scene keeps the mesh of the entity built
    at mounting, the ticks that follow step the new entity only, and its
    accumulator restarts from 0. *)
Theorem robotics_rerender_strands_mesh
        (rt : Js.Runtime) (now : R) (iw ih : Z) (dpr : R)
        (themes : RoboticsScene.ThemeId -> RoboticsScene.Theme)
        (t : RoboticsScene.Theme) (prm : bool) (es1 es2 : list RoboticsScene.Event) :
  let p := {| RoboticsScene.theme := themes; RoboticsScene.currentTheme := t;
              RoboticsScene.prefersReducedMotion := prm |} in
  exists w1 w2 w3 ps1 ps3 s,
    robotics_life p es1 (RoboticsScene.initial (Host.fresh rt now iw ih dpr)) = Js.Ok tt w1
    /\ RoboticsScene.rerender p p w1 = Js.Ok tt w2
    /\ Js.for_each RoboticsScene.dispatch es2 w2 = Js.Ok tt w3
    /\ RoboticsScene.particles w1 = Some ps1
    /\ RoboticsScene.particles w3 = Some ps3
    /\ RoboticsScene.scene w3 = Some s
    /\ In (Host.ChildMesh (Three.mesh_id (ParticleSystem.mesh ps1))) (Host.children s)
    /\ ~ In (Host.ChildMesh (Three.mesh_id (ParticleSystem.mesh ps3))) (Host.children s)
    /\ ParticleSystem.time ps3 = 0.0001 * INR ((if prm then 0 else 1) * frames es2).
Proof.
  intros p. subst p.
  destruct (wp_run _ _ _ (robotics_life_wp rt now iw ih dpr themes t prm es1))
    as (w1 & Hrun1 & w0 & r & c & s & ps & Hm & Ha).
  destruct (robotics_after_counts _ _ _ _ ps Ha (mounted_particles _ _ _ _ _ _ _ _ Hm))
    as (_ & _ & _ & _ & ps1 & Hps1 & _ & Hmesh1).
  pose proof (after_loops _ _ _ _ Ha) as Hl1.
  destruct (robotics_loops_refs _ _ Hl1) as (r1 & c1 & s1 & ps1' & Hr1 & Hc1 & Hs1 & _).
  assert (Hs1' : s1 = s).
  { pose proof (after_scene _ _ _ _ Ha) as H. rewrite Hs1, (mounted_scene _ _ _ _ _ _ _ _ Hm) in H.
    injection H; auto. }
  subst s1.
  destruct (wp_run _ _ _ (robotics_rerender_wp _ themes t prm prm w1 r1 c1 s Hl1 Hr1 Hc1 Hs1))
    as (w2 & Hrun2 & Hl2 & Hr2 & Hc2 & Hs2 & _ & _ & ps2 & Hps2 & Htime2 & Hmesh2 & _).
  assert (Hsame : (if prm && negb prm then S (if prm then 0 else 1) else if prm then 0 else 1)%nat
                  = (if prm then 0 else 1)%nat) by (destruct prm; reflexivity).
  rewrite Hsame in Hl2.
  assert (Hzero : ParticleSystem.time ps2 = 0) by (rewrite Htime2; destruct prm; reflexivity).
  destruct (wp_run _ _ _ (robotics_events_after _ es2 w2 Hl2)) as (w3 & Hrun3 & Ha3).
  destruct (robotics_after_counts _ _ _ _ ps2 Ha3 Hps2)
    as (_ & _ & _ & _ & ps3 & Hps3 & Htime3 & Hmesh3).
  exists w1, w2, w3, ps1, ps3, s.
  split; [exact Hrun1|]. split; [exact Hrun2|]. split; [exact Hrun3|].
  split; [exact Hps1|]. split; [exact Hps3|].
  split; [rewrite (after_scene _ _ _ _ Ha3); exact Hs2|].
  destruct (mounted_children _ _ _ _ _ _ _ _ Hm) as (a & d & Hch).
  pose proof (mounted_mesh _ _ _ _ _ _ _ _ Hm) as Hold.
  rewrite <- (after_rt _ _ _ _ Ha) in Hold.
  rewrite Hch, Hmesh1, Hmesh3, Hmesh2.
  split; [right; right; left; reflexivity|].
  split.
  - intros [H|[H|[H|[]]]]; try discriminate H. injection H. lia.
  - rewrite Htime3, Hzero. lra.
Qed.

(** X15. Switching the preference to reduced motion after mounting does
    not stop [RoboticsScene]: its render effect returns no cleanup and its
    resize listener is never removed, so that after the render that follows
    the change the tick is still pending and the listener still registered,
    and every later frame still renders and every later resize still runs
    the resize routine. *)
Theorem robotics_loop_survives_reduced_motion
        (rt : Js.Runtime) (now : R) (iw ih : Z) (dpr : R)
        (themes : RoboticsScene.ThemeId -> RoboticsScene.Theme)
        (t : RoboticsScene.Theme) (es1 es2 : list RoboticsScene.Event) :
  let p_off := {| RoboticsScene.theme := themes; RoboticsScene.currentTheme := t;
                  RoboticsScene.prefersReducedMotion := false |} in
  let p_on := {| RoboticsScene.theme := themes; RoboticsScene.currentTheme := t;
                 RoboticsScene.prefersReducedMotion := true |} in
  exists w1 w2 w3,
    robotics_life p_off es1 (RoboticsScene.initial (Host.fresh rt now iw ih dpr))
    = Js.Ok tt w1
    /\ RoboticsScene.rerender p_off p_on w1 = Js.Ok tt w2
    /\ Js.for_each RoboticsScene.dispatch es2 w2 = Js.Ok tt w3
    /\ length (Host.raf_queue (RoboticsScene.host w2)) = 1%nat
    /\ RoboticsScene.resize_listeners w2 = 1%nat
    /\ length (Host.raf_queue (RoboticsScene.host w3)) = 1%nat
    /\ RoboticsScene.resize_listeners w3 = 1%nat
    /\ Host.count_calls Host.is_render (Host.calls (RoboticsScene.host w3))
       = (Host.count_calls Host.is_render (Host.calls (RoboticsScene.host w1))
          + frames es2)%nat
    /\ Host.count_calls Host.is_enter (Host.calls (RoboticsScene.host w3))
       = (Host.count_calls Host.is_enter (Host.calls (RoboticsScene.host w1))
          + resizes es2)%nat.
Proof.
  intros p_off p_on. subst p_off p_on.
  destruct (wp_run _ _ _ (robotics_life_wp rt now iw ih dpr themes t false es1))
    as (w1 & Hrun1 & w0 & r & c & s & ps & Hm & Ha).
  pose proof (after_loops _ _ _ _ Ha) as Hl1.
  destruct (robotics_loops_refs _ _ Hl1) as (r1 & c1 & s1 & ps1 & Hr1 & Hc1 & Hs1 & _).
  destruct (wp_run _ _ _ (robotics_rerender_wp _ themes t false true w1 r1 c1 s1 Hl1 Hr1 Hc1 Hs1))
    as (w2 & Hrun2 & Hl2 & _ & _ & _ & _ & Hcalls2 & ps2 & Hps2 & _).
  cbn [andb negb] in Hl2, Hcalls2. rewrite app_nil_r in Hcalls2.
  destruct (wp_run _ _ _ (robotics_events_after _ es2 w2 Hl2)) as (w3 & Hrun3 & Ha3).
  destruct (robotics_after_counts _ _ _ _ ps2 Ha3 Hps2)
    as (Hq3 & Hn3 & Hrenders & Henters & _).
  exists w1, w2, w3.
  split; [exact Hrun1|]. split; [exact Hrun2|]. split; [exact Hrun3|].
  split; [apply (loops_pending _ _ Hl2)|]. split; [apply (loops_listeners _ _ Hl2)|].
  split; [exact Hq3|]. split; [exact Hn3|].
  rewrite Hrenders, Henters, Hcalls2. split; lia.
Qed.

Lemma robotics_toggles_step
      (themes : RoboticsScene.ThemeId -> RoboticsScene.Theme) (t : RoboticsScene.Theme)
      (n : nat) :
  forall (start k : nat) (w : RoboticsScene.World)
         (r : Host.Renderer) (c : Host.Camera) (s : Host.Scene),
    robotics_loops k w ->
    RoboticsScene.renderer w = Some r -> RoboticsScene.camera w = Some c ->
    RoboticsScene.scene w = Some s ->
    (exists ps, RoboticsScene.particles w = Some ps /\ ParticleSystem.time ps = 0.0001) ->
    wp (Js.for_
          (fun _ _ =>
             Js.bind
               (RoboticsScene.rerender
                  {| RoboticsScene.theme := themes; RoboticsScene.currentTheme := t;
                     RoboticsScene.prefersReducedMotion := false |}
                  {| RoboticsScene.theme := themes; RoboticsScene.currentTheme := t;
                     RoboticsScene.prefersReducedMotion := true |})
               (fun _ =>
                  RoboticsScene.rerender
                    {| RoboticsScene.theme := themes; RoboticsScene.currentTheme := t;
                       RoboticsScene.prefersReducedMotion := true |}
                    {| RoboticsScene.theme := themes; RoboticsScene.currentTheme := t;
                       RoboticsScene.prefersReducedMotion := false |}))
          start n tt)
       (fun _ w' =>
          robotics_loops (k + n) w'
          /\ Host.calls (RoboticsScene.host w')
             = Host.calls (RoboticsScene.host w)
               ++ replicate n (Host.Render (Host.renderer_id r) (Host.scene_id s)
                                           (Host.camera_id c))
          /\ exists ps, RoboticsScene.particles w' = Some ps
                        /\ ParticleSystem.time ps = 0.0001)
       w.
Proof.
  induction n as [|n IH]; intros start k w r c s Hl Hr Hc Hs Hps.
  - apply wp_ret. rewrite Nat.add_0_r, app_nil_r. auto.
  - cbn [Js.for_]. apply wp_bind, wp_bind.
    eapply wp_mono; [apply (robotics_rerender_wp k themes t false true w r c s); assumption|].
    cbv beta. intros [] w1 (Hl1 & Hr1 & Hc1 & Hs1 & _ & Hcalls1 & _).
    cbn [andb negb] in Hl1, Hcalls1. rewrite app_nil_r in Hcalls1.
    eapply wp_mono; [apply (robotics_rerender_wp k themes t true false w1 r c s); assumption|].
    cbv beta. intros [] w2 (Hl2 & Hr2 & Hc2 & Hs2 & _ & Hcalls2 & ps2 & Hps2 & Htime2 & _).
    cbn [andb negb] in Hl2, Hcalls2, Htime2.
    eapply wp_mono.
    { apply (IH (S start) (S k) w2 r c s); try assumption. exists ps2. auto. }
    cbv beta. intros [] w3 (Hl3 & Hcalls3 & Hps3).
    split; [replace (k + S n)%nat with (S k + n)%nat by lia; exact Hl3|].
    split; [|exact Hps3].
    rewrite Hcalls3, Hcalls2, Hcalls1, <- app_assoc. reflexivity.
Qed.

(** X13. Each time the preference is switched to reduced motion and back,
    [RoboticsScene] starts one more render loop and registers one more
    resize listener, and stops or removes none: after [n] such switches
    [n + 1] ticks are pending and [n + 1] listeners registered; from then
    on every frame renders [n + 1] times and advances the accumulator by
    [n + 1] steps of 0.0001, and every resize runs the resize routine
    [n + 1] times. *)
Theorem robotics_toggles_accumulate_loops
        (rt : Js.Runtime) (now : R) (iw ih : Z) (dpr : R)
        (themes : RoboticsScene.ThemeId -> RoboticsScene.Theme)
        (t : RoboticsScene.Theme) (n : nat) (es : list RoboticsScene.Event) :
  let p_off := {| RoboticsScene.theme := themes; RoboticsScene.currentTheme := t;
                  RoboticsScene.prefersReducedMotion := false |} in
  let p_on := {| RoboticsScene.theme := themes; RoboticsScene.currentTheme := t;
                 RoboticsScene.prefersReducedMotion := true |} in
  exists w0 w1 w2 ps,
    RoboticsScene.mount p_off (RoboticsScene.initial (Host.fresh rt now iw ih dpr))
    = Js.Ok tt w0
    /\ robotics_toggles p_off p_on n w0 = Js.Ok tt w1
    /\ Js.for_each RoboticsScene.dispatch es w1 = Js.Ok tt w2
    /\ length (Host.raf_queue (RoboticsScene.host w1)) = S n
    /\ RoboticsScene.resize_listeners w1 = S n
    /\ length (Host.raf_queue (RoboticsScene.host w2)) = S n
    /\ RoboticsScene.resize_listeners w2 = S n
    /\ Host.count_calls Host.is_render (Host.calls (RoboticsScene.host w2))
       = (S n + S n * frames es)%nat
    /\ Host.count_calls Host.is_enter (Host.calls (RoboticsScene.host w2))
       = (S n * resizes es)%nat
    /\ RoboticsScene.particles w2 = Some ps
    /\ ParticleSystem.time ps = 0.0001 * INR (1 + S n * frames es).
Proof.
  intros p_off p_on. subst p_off p_on.
  destruct (wp_run _ _ _ (robotics_mount_full rt now iw ih dpr themes t false))
    as (w0 & Hrun0 & r & c & s & ps0 & Hm).
  pose proof (mounted_loops _ _ _ _ _ _ _ _ Hm) as Hl0.
  assert (Hps0 : exists ps, RoboticsScene.particles w0 = Some ps
                            /\ ParticleSystem.time ps = 0.0001).
  { exists ps0. split; [apply (mounted_particles _ _ _ _ _ _ _ _ Hm)
                       | apply (mounted_time _ _ _ _ _ _ _ _ Hm)]. }
  destruct (wp_run _ _ _
              (robotics_toggles_step themes t n 0 1 w0 r c s Hl0
                 (mounted_renderer _ _ _ _ _ _ _ _ Hm) (mounted_camera _ _ _ _ _ _ _ _ Hm)
                 (mounted_scene _ _ _ _ _ _ _ _ Hm) Hps0))
    as (w1 & Hrun1 & Hl1 & Hcalls1 & ps1 & Hps1 & Htime1).
  change (1 + n)%nat with (S n) in Hl1.
  destruct (wp_run _ _ _ (robotics_events_after _ es w1 Hl1)) as (w2 & Hrun2 & Ha2).
  destruct (robotics_after_counts _ _ _ _ ps1 Ha2 Hps1)
    as (Hq2 & Hn2 & Hrenders & Henters & ps2 & Hps2 & Htime2 & _).
  exists w0, w1, w2, ps2.
  split; [exact Hrun0|]. split; [exact Hrun1|]. split; [exact Hrun2|].
  split; [apply (loops_pending _ _ Hl1)|]. split; [apply (loops_listeners _ _ Hl1)|].
  split; [exact Hq2|]. split; [exact Hn2|].
  rewrite Hrenders, Henters, Hcalls1, (mounted_calls _ _ _ _ _ _ _ _ Hm).
  change (Host.SetSize (Host.renderer_id r) iw ih
          :: [Host.Render (Host.renderer_id r) (Host.scene_id s) (Host.camera_id c)])
    with ([Host.SetSize (Host.renderer_id r) iw ih]
          ++ replicate 1 (Host.Render (Host.renderer_id r) (Host.scene_id s)
                                      (Host.camera_id c))).
  rewrite !count_calls_app, !count_calls_replicate.
  split; [unfold Host.count_calls; cbn; lia|].
  split; [unfold Host.count_calls; cbn; lia|].
  split; [exact Hps2|].
  rewrite Htime2, Htime1, plus_INR. cbn [INR]. lra.
Qed.

(** ** Sessions of [Portrait] *)

Ltac open_settled w H :=
  let Hready := fresh "Hready" in
  let Hlights := fresh "Hlights" in
  let Hresize := fresh "Hresize" in
  let Hmouse := fresh "Hmouse" in
  let Hloop := fresh "Hloop" in
  destruct H as [Hready [? Hlights] Hresize Hmouse Hloop];
  destruct w as [[] ? ? ? ? ? ? ? ? ?];
  destruct Hready as ([? Hr] & [? Hc] & [? Hs]);
  cbn in Hr, Hc, Hs, Hlights, Hresize, Hmouse, Hloop; subst.

Lemma portrait_mount_settled (rt : Js.Runtime) (now : R) (iw ih : Z) (dpr : R) (cw ch : Z)
      (p : Portrait.Props) :
  wp (Portrait.mount p) (fun _ w => portrait_settled p w)
     (Portrait.initial (Host.fresh rt now iw ih dpr) cw ch).
Proof.
  destruct p as [white tid bg prm inview].
  unfold_portrait. destruct prm, inview; js_eval; js_run.
  all: constructor; cbn;
    first [reflexivity | eexists; reflexivity
          | eapply portrait_ready_intro; reflexivity
          | eexists; split; reflexivity].
Qed.

(** One event on a settled [Portrait]. *)
Lemma portrait_dispatch_settled (p : Portrait.Props) (e : Portrait.Event)
      (w : Portrait.World) (r : Host.Renderer) (s : Host.Scene) (c : Host.Camera) :
  portrait_settled p w ->
  Portrait.renderer w = Some r -> Portrait.scene w = Some s -> Portrait.camera w = Some c ->
  wp (Portrait.dispatch e)
     (fun _ w' =>
        portrait_settled p w'
        /\ Host.calls (Portrait.host w')
           = Host.calls (Portrait.host w) ++ portrait_event_calls p r s c e
        /\ (exists r', Portrait.renderer w' = Some r'
                       /\ Host.renderer_id r' = Host.renderer_id r
                       /\ Host.size r'
                          = match e with
                            | Portrait.Resize cw ch => (cw, ch)
                            | _ => Host.size r
                            end)
        /\ (exists c', Portrait.camera w' = Some c'
                       /\ Host.camera_id c' = Host.camera_id c
                       /\ match e with
                          | Portrait.Resize cw ch =>
                              Host.aspect c' = IZR cw / IZR ch
                              /\ Host.projectionMatrix c'
                                 = Host.makePerspective (Host.fov c) (IZR cw / IZR ch)
                                                        (Host.near c) (Host.far c)
                          | _ => c' = c
                          end)
        /\ (exists s', Portrait.scene w' = Some s'
                       /\ Host.scene_id s' = Host.scene_id s))
     w.
Proof.
  intros Hsettled Hr' Hs' Hc'.
  destruct p as [white tid bg prm inview].
  open_settled w Hsettled.
  cbn in Hr', Hs', Hc'. injection Hr' as <-. injection Hs' as <-. injection Hc' as <-.
  unfold portrait_animated in *. cbn [Portrait.prefersReducedMotion Portrait.isInViewport] in *.
  destruct e as [cw ch|t| |model]; destruct prm, inview; cbn [negb andb] in Hloop.
  all: try destruct Hloop as (handle & Hq & Ha); cbn in *; subst.
  all: unfold Portrait.dispatch; unfold_portrait; js_eval; js_run.
  all: split;
    [constructor; cbn;
       first [reflexivity | eexists; reflexivity
             | eapply portrait_ready_intro; reflexivity
             | eexists; split; reflexivity]|].
  all: split; [cbn; rewrite <- ?app_assoc, ?app_nil_r; reflexivity|].
  all: split; [eexists; split; [reflexivity|]; split; reflexivity|].
  all: split; [eexists; split; [reflexivity|]; split; [reflexivity|]; try split; reflexivity|].
  all: eexists; split; reflexivity.
Qed.

(** A later render of a settled [Portrait]: every effect whose dependencies
    changed is cleaned up and run again, and the view is settled under the
    new props. *)
Lemma portrait_rerender_settled (old new : Portrait.Props) (w : Portrait.World) :
  portrait_settled old w ->
  wp (Portrait.rerender old new) (fun _ w' => portrait_settled new w') w.
Proof.
  intros Hsettled.
  destruct old as [white1 tid1 bg1 prm1 inview1], new as [white2 tid2 bg2 prm2 inview2].
  open_settled w Hsettled.
  unfold portrait_animated in *. cbn [Portrait.prefersReducedMotion Portrait.isInViewport] in *.
  unfold Portrait.rerender.
  destruct (Portrait.lights_changed _ _);
    destruct prm1, inview1, prm2, inview2; cbn [negb andb] in Hloop.
  all: try destruct Hloop as (handle & Hq & Ha); cbn in *; subst.
  all: unfold Portrait.motion_changed, Portrait.view_changed;
    cbn [Portrait.prefersReducedMotion Portrait.isInViewport Bool.eqb negb orb].
  all: unfold_portrait; js_eval; js_run.
  all: constructor; cbn;
    first [reflexivity | eexists; reflexivity
          | eapply portrait_ready_intro; reflexivity
          | rewrite ?Nat.eqb_refl; cbn; eexists; split; reflexivity
          | rewrite ?Nat.eqb_refl; reflexivity
          | match goal with
            | |- context [Host.cancelAnimationFrame ?a _] => destruct a
            end; cbn; first [reflexivity | eexists; split; reflexivity]].
Qed.

Lemma portrait_settled_refs (p : Portrait.Props) (w : Portrait.World) :
  portrait_settled p w ->
  exists r s c,
    Portrait.renderer w = Some r /\ Portrait.scene w = Some s /\ Portrait.camera w = Some c.
Proof. intros [([r Hr] & [c Hc] & [s Hs]) _ _ _ _]. exists r, s, c. auto. Qed.

(** Any session keeps a [Portrait] settled, under the props of its last
    render. *)
Lemma portrait_session_settled (steps : list PortraitStep) :
  forall (p : Portrait.Props) (w : Portrait.World),
    portrait_settled p w ->
    wp (portrait_session p steps)
       (fun p' w' => p' = portrait_props_after p steps /\ portrait_settled p' w')
       w.
Proof.
  induction steps as [|[e|p'] steps IH]; intros p w Hsettled.
  - apply wp_ret. split; [reflexivity | exact Hsettled].
  - cbn [portrait_session]. apply wp_bind.
    destruct (portrait_settled_refs p w Hsettled) as (r & s & c & Hr & Hs & Hc).
    eapply wp_mono; [apply (portrait_dispatch_settled p e w r s c); assumption|].
    cbv beta. intros [] w' (Hsettled' & _). apply IH, Hsettled'.
  - cbn [portrait_session]. apply wp_bind.
    eapply wp_mono; [apply portrait_rerender_settled, Hsettled|].
    cbv beta. intros [] w' Hsettled'. apply IH, Hsettled'.
Qed.

Lemma portrait_life_settled (rt : Js.Runtime) (now : R) (iw ih : Z) (dpr : R) (cw ch : Z)
      (p0 : Portrait.Props) (steps : list PortraitStep) :
  exists w,
    Js.bind (Portrait.mount p0) (fun _ => portrait_session p0 steps)
            (Portrait.initial (Host.fresh rt now iw ih dpr) cw ch)
    = Js.Ok (portrait_props_after p0 steps) w
    /\ portrait_settled (portrait_props_after p0 steps) w.
Proof.
  assert (H : wp (Js.bind (Portrait.mount p0) (fun _ => portrait_session p0 steps))
                 (fun p' w' => p' = portrait_props_after p0 steps /\ portrait_settled p' w')
                 (Portrait.initial (Host.fresh rt now iw ih dpr) cw ch)).
  { apply wp_bind. eapply wp_mono; [apply portrait_mount_settled|].
    cbv beta. intros [] w Hsettled. apply portrait_session_settled, Hsettled. }
  destruct (proj1 (wp_ok _ _ _) H) as (p' & w & Hrun & -> & Hsettled).
  exists w. split; [exact Hrun | exact Hsettled].
Qed.

(** X16. [Portrait] cleans up after itself: after mounting and any
    sequence of events and renders with changed theme, motion preference
    or visibility, exactly one resize listener is registered, the one that
    captured the current preference; a mouse listener is registered and a
    tick is pending exactly when the current props have motion allowed and
    the canvas in view, and then exactly one of each. *)
Theorem portrait_session_leaves_no_leak
        (rt : Js.Runtime) (now : R) (iw ih : Z) (dpr : R) (cw ch : Z)
        (p0 : Portrait.Props) (steps : list PortraitStep) :
  let p := portrait_props_after p0 steps in
  exists w,
    Js.bind (Portrait.mount p0) (fun _ => portrait_session p0 steps)
            (Portrait.initial (Host.fresh rt now iw ih dpr) cw ch)
    = Js.Ok p w
    /\ Portrait.resize_listeners w = [Portrait.prefersReducedMotion p]
    /\ Portrait.mousemove_listeners w = (if portrait_animated p then 1 else 0)%nat
    /\ length (Host.raf_queue (Portrait.host w)) = (if portrait_animated p then 1 else 0)%nat
    /\ Portrait.running_loop w = portrait_animated p.
Proof.
  intros p. subst p.
  destruct (portrait_life_settled rt now iw ih dpr cw ch p0 steps) as (w & Hrun & Hsettled).
  exists w. split; [exact Hrun|].
  destruct Hsettled as [_ _ Hresize Hmouse Hloop].
  split; [exact Hresize|]. split; [exact Hmouse|].
  unfold Portrait.running_loop.
  destruct (portrait_animated (portrait_props_after p0 steps)).
  - destruct Hloop as (handle & -> & _). split; reflexivity.
  - rewrite Hloop. split; reflexivity.
Qed.

(** X17. In whatever state a session has left a [Portrait], one event
    makes exactly these calls: a frame renders once when the current props
    have motion allowed and the canvas in view, and makes no call
    otherwise; a resize enters the resize routine once, sets the renderer
    to the new size of the container and the camera to its aspect with a
    recomputed projection, and renders inside the routine exactly when
    motion is reduced; the completion of a load makes no call. The view
    stays settled. *)
Theorem portrait_event_calls_exact
        (rt : Js.Runtime) (now : R) (iw ih : Z) (dpr : R) (cw ch : Z)
        (p0 : Portrait.Props) (steps : list PortraitStep) (e : Portrait.Event) :
  let p := portrait_props_after p0 steps in
  exists w w' r s c r' c',
    Js.bind (Portrait.mount p0) (fun _ => portrait_session p0 steps)
            (Portrait.initial (Host.fresh rt now iw ih dpr) cw ch)
    = Js.Ok p w
    /\ Portrait.renderer w = Some r /\ Portrait.scene w = Some s
    /\ Portrait.camera w = Some c
    /\ Portrait.dispatch e w = Js.Ok tt w'
    /\ Host.calls (Portrait.host w')
       = Host.calls (Portrait.host w) ++ portrait_event_calls p r s c e
    /\ Portrait.renderer w' = Some r' /\ Portrait.camera w' = Some c'
    /\ Host.renderer_id r' = Host.renderer_id r /\ Host.camera_id c' = Host.camera_id c
    /\ match e with
       | Portrait.Resize cw' ch' =>
           Host.size r' = (cw', ch')
           /\ Host.aspect c' = IZR cw' / IZR ch'
           /\ Host.projectionMatrix c'
              = Host.makePerspective (Host.fov c) (IZR cw' / IZR ch')
                                     (Host.near c) (Host.far c)
       | _ => Host.size r' = Host.size r /\ c' = c
       end
    /\ Portrait.resize_listeners w' = Portrait.resize_listeners w
    /\ length (Host.raf_queue (Portrait.host w'))
       = length (Host.raf_queue (Portrait.host w)).
Proof.
  intros p. subst p.
  destruct (portrait_life_settled rt now iw ih dpr cw ch p0 steps) as (w & Hrun & Hsettled).
  destruct (portrait_settled_refs _ w Hsettled) as (r & s & c & Hr & Hs & Hc).
  destruct (wp_run _ _ _ (portrait_dispatch_settled _ e w r s c Hsettled Hr Hs Hc))
    as (w' & Hrun' & Hsettled' & Hcalls & (r' & Hr' & Hrid & Hsize)
        & (c' & Hc' & Hcid & Hcam) & _).
  exists w, w', r, s, c, r', c'.
  split; [exact Hrun|]. split; [exact Hr|]. split; [exact Hs|]. split; [exact Hc|].
  split; [exact Hrun'|]. split; [exact Hcalls|]. split; [exact Hr'|]. split; [exact Hc'|].
  split; [exact Hrid|]. split; [exact Hcid|].
  split; [destruct e; auto|].
  split; [rewrite (settled_resize _ _ Hsettled'), (settled_resize _ _ Hsettled); reflexivity|].
  pose proof (settled_loop _ _ Hsettled) as Hl. pose proof (settled_loop _ _ Hsettled') as Hl'.
  destruct (portrait_animated (portrait_props_after p0 steps)).
  - destruct Hl as (h1 & -> & _), Hl' as (h2 & -> & _). reflexivity.
  - rewrite Hl, Hl'. reflexivity.
Qed.

(** ** The class helper *)

Lemma normalised_key {V F} (d : SceneRoot.Descriptor V F) :
  SceneRoot.key (normalised d) = SceneRoot.key d.
Proof. unfold normalised, SceneRoot.set_writable. cbn. destruct (SceneRoot.value d); reflexivity. Qed.

Lemma normalised_configurable {V F} (d : SceneRoot.Descriptor V F) :
  SceneRoot.configurable (normalised d) = Some true.
Proof. unfold normalised, SceneRoot.set_writable. cbn. destruct (SceneRoot.value d); reflexivity. Qed.

(** Defining a method over a free or configurable key. *)
Lemma defineProperty_method {V F} `{EqDecision V} `{EqDecision F}
      (o : SceneRoot.Object V F) (d : SceneRoot.Descriptor V F) :
  is_method d -> installable o d ->
  SceneRoot.defineProperty (normalised d) o
  = Js.Ok tt {| SceneRoot.extensible := SceneRoot.extensible o;
                SceneRoot.own := <[SceneRoot.key d := installed d]> (SceneRoot.own o) |}.
Proof.
  intros ([v Hv] & Hg & Hs) Hinst. unfold installable in Hinst.
  destruct d as [k de dc dw dv dg ds]. cbn in Hv, Hg, Hs, Hinst. subst dv dg ds.
  unfold SceneRoot.defineProperty, normalised, SceneRoot.set_writable,
    SceneRoot.IsAccessorDescriptor, SceneRoot.IsDataDescriptor,
    SceneRoot.ValidateAndApplyPropertyDescriptor, installed.
  cbn.
  destruct (SceneRoot.own o !! k) as [[pv pw pe pc|pg ps pe pc]|].
  - cbn in Hinst. subst pc. reflexivity.
  - cbn in Hinst. subst pc. reflexivity.
  - rewrite Hinst. reflexivity.
Qed.

(** Defining anything the helper prepared over a non-configurable key. *)
Lemma defineProperty_non_configurable {V F} `{EqDecision V} `{EqDecision F}
      (o : SceneRoot.Object V F) (d : SceneRoot.Descriptor V F) (p : SceneRoot.Property V F) :
  SceneRoot.own o !! SceneRoot.key d = Some p ->
  SceneRoot.property_configurable p = false ->
  exists e, SceneRoot.defineProperty (normalised d) o = Js.Throw e o.
Proof.
  intros Hp Hc. unfold SceneRoot.defineProperty.
  destruct (SceneRoot.IsAccessorDescriptor (normalised d)
            && SceneRoot.IsDataDescriptor (normalised d)); [eexists; reflexivity|].
  rewrite normalised_key, Hp.
  unfold SceneRoot.ValidateAndApplyPropertyDescriptor.
  rewrite normalised_configurable.
  destruct p as [pv pw pe pc|pg ps pe pc]; cbn in Hc; subst pc; cbn; eexists; reflexivity.
Qed.

(** One turn of the loop of [defineProperties]. *)
Lemma defineProperties_step_run {V F} `{EqDecision V} `{EqDecision F}
      (i : nat) (s : SceneRoot.Frame V F) (d : SceneRoot.Descriptor V F) :
  SceneRoot.props s !! i = Some d ->
  defineProperties_step i tt s
  = match SceneRoot.defineProperty (normalised d) (SceneRoot.target s) with
    | Js.Ok _ o =>
        Js.Ok tt {| SceneRoot.target := o;
                    SceneRoot.props := <[i := normalised d]> (SceneRoot.props s) |}
    | Js.Throw e o =>
        Js.Throw e {| SceneRoot.target := o;
                      SceneRoot.props := <[i := normalised d]> (SceneRoot.props s) |}
    end.
Proof.
  intros Hd. unfold defineProperties_step, Js.bind, Js.gets, Js.modify, Js.zoom.
  rewrite Hd. cbn. fold (normalised d).
  unfold SceneRoot.set_target, SceneRoot.set_descriptor. cbn.
  rewrite !list_insert_insert_eq.
  destruct (SceneRoot.defineProperty (normalised d) (SceneRoot.target s)) as [[] o|e o];
    reflexivity.
Qed.

Lemma installable_after {V F} (o : SceneRoot.Object V F) (d d' : SceneRoot.Descriptor V F) :
  installable o d' ->
  installable {| SceneRoot.extensible := SceneRoot.extensible o;
                 SceneRoot.own := <[SceneRoot.key d := installed d]> (SceneRoot.own o) |} d'.
Proof.
  unfold installable. cbn.
  destruct (decide (SceneRoot.key d = SceneRoot.key d')) as [<-|Hne].
  - rewrite lookup_insert_eq. reflexivity.
  - rewrite lookup_insert_ne by exact Hne. trivial.
Qed.

(** The loop of [defineProperties] from index [start] on, over method
    descriptors that can all be installed. *)
Lemma defineProperties_loop {V F} `{EqDecision V} `{EqDecision F} (n : nat) :
  forall (start : nat) (s : SceneRoot.Frame V F),
    (start + n)%nat = length (SceneRoot.props s) ->
    Forall (fun d => is_method d /\ installable (SceneRoot.target s) d)
           (drop start (SceneRoot.props s)) ->
    Js.for_ defineProperties_step start n tt s
    = Js.Ok tt
        {| SceneRoot.target :=
             {| SceneRoot.extensible := SceneRoot.extensible (SceneRoot.target s);
                SceneRoot.own :=
                  install_all (drop start (SceneRoot.props s))
                              (SceneRoot.own (SceneRoot.target s)) |};
           SceneRoot.props :=
             take start (SceneRoot.props s)
             ++ map normalised (drop start (SceneRoot.props s)) |}.
Proof.
  induction n as [|n IH]; intros start s Hlen Hall.
  - rewrite Nat.add_0_r in Hlen. subst start.
    rewrite drop_all, take_ge, app_nil_r by lia. destruct s as [[] ?]. reflexivity.
  - destruct (lookup_lt_is_Some_2 (SceneRoot.props s) start ltac:(lia)) as [d Hd].
    rewrite (drop_S _ _ _ Hd) in Hall |- *.
    apply Forall_cons in Hall as [[Hm Hi] Hall].
    cbn [Js.for_]. unfold Js.bind at 1.
    rewrite (defineProperties_step_run _ _ _ Hd), (defineProperty_method _ _ Hm Hi).
    rewrite IH; cbn [SceneRoot.target SceneRoot.props SceneRoot.extensible SceneRoot.own].
    + rewrite drop_insert_lt by lia.
      rewrite (take_S_r _ _ (normalised d))
        by (apply list_lookup_insert_eq; lia).
      rewrite take_insert_ge by lia. rewrite <- app_assoc. reflexivity.
    + rewrite length_insert. lia.
    + rewrite drop_insert_lt by lia.
      eapply Forall_impl; [exact Hall|]. cbn. intros d' [Hm' Hi']. split; [exact Hm'|].
      apply installable_after, Hi'.
Qed.

Lemma install_all_lookup {V F} (l : list (SceneRoot.Descriptor V F))
      (own : gmap string (SceneRoot.Property V F)) (k : string) :
  install_all l own !! k
  = match last_with_key k l with
    | Some d => Some (installed d)
    | None => own !! k
    end.
Proof.
  unfold install_all, last_with_key.
  induction l as [|d l IH] using rev_ind; [reflexivity|].
  rewrite fold_left_app, rev_unit. cbn [fold_left List.find].
  destruct (decide (SceneRoot.key d = k)) as [Heq|Hne].
  - rewrite bool_decide_eq_true_2 by exact Heq. subst k. apply lookup_insert_eq.
  - rewrite bool_decide_eq_false_2 by exact Hne.
    rewrite lookup_insert_ne by exact Hne. exact IH.
Qed.

(** [defineProperties] over method descriptors that can all be installed. *)
Lemma defineProperties_methods {V F} `{EqDecision V} `{EqDecision F}
      (o : SceneRoot.Object V F) (l : list (SceneRoot.Descriptor V F)) :
  Forall is_method l -> Forall (installable o) l ->
  SceneRoot.defineProperties {| SceneRoot.target := o; SceneRoot.props := l |}
  = Js.Ok tt
      {| SceneRoot.target :=
           {| SceneRoot.extensible := SceneRoot.extensible o;
              SceneRoot.own := install_all l (SceneRoot.own o) |};
         SceneRoot.props := map normalised l |}.
Proof.
  intros Hm Hi.
  change (SceneRoot.defineProperties {| SceneRoot.target := o; SceneRoot.props := l |})
    with (Js.for_ defineProperties_step 0 (length l) tt
            {| SceneRoot.target := o; SceneRoot.props := l |}).
  rewrite defineProperties_loop; [reflexivity | reflexivity |].
  cbn. rewrite Forall_forall in Hm, Hi. apply Forall_forall. intros d Hd. auto.
Qed.

(** X18. Over descriptors that carry a value and no accessor, and whose
    keys are free on an extensible object or name configurable properties
    of it, the helper installs every method: each key ends as a writable,
    configurable data property holding the value of the last descriptor
    with that key, enumerable only when that descriptor says so; every
    other property of the prototype and of the constructor is untouched;
    and the descriptor objects of the caller come back written to
    ([enumerable] a boolean, [configurable] and [writable] true). An
    argument that is [undefined] is skipped. *)
Theorem SceneRoot_installs_methods {V F : Type} `{EqDecision V} `{EqDecision F}
        (s : SceneRoot.Call V F) :
  Forall is_method (given (SceneRoot.protoProps s)) ->
  Forall (installable (SceneRoot.prototype s)) (given (SceneRoot.protoProps s)) ->
  Forall is_method (given (SceneRoot.staticProps s)) ->
  Forall (installable (SceneRoot.Constructor s)) (given (SceneRoot.staticProps s)) ->
  exists s',
    SceneRoot.current s = Js.Ok tt s'
    /\ SceneRoot.extensible (SceneRoot.prototype s')
       = SceneRoot.extensible (SceneRoot.prototype s)
    /\ SceneRoot.extensible (SceneRoot.Constructor s')
       = SceneRoot.extensible (SceneRoot.Constructor s)
    /\ (forall k,
          SceneRoot.own (SceneRoot.prototype s') !! k
          = match last_with_key k (given (SceneRoot.protoProps s)) with
            | Some d => Some (installed d)
            | None => SceneRoot.own (SceneRoot.prototype s) !! k
            end)
    /\ (forall k,
          SceneRoot.own (SceneRoot.Constructor s') !! k
          = match last_with_key k (given (SceneRoot.staticProps s)) with
            | Some d => Some (installed d)
            | None => SceneRoot.own (SceneRoot.Constructor s) !! k
            end)
    /\ SceneRoot.protoProps s' = map normalised <$> SceneRoot.protoProps s
    /\ SceneRoot.staticProps s' = map normalised <$> SceneRoot.staticProps s.
Proof.
  destruct s as [ctor proto [pl|] [sl|]]; cbn; intros Hpm Hpi Hsm Hsi.
  all: unfold SceneRoot.current, SceneRoot.when_given, Js.bind, Js.gets, Js.zoom, Js.ret.
  all: cbn [SceneRoot.protoProps SceneRoot.staticProps SceneRoot.prototype
            SceneRoot.Constructor].
  all: rewrite ?(defineProperties_methods proto pl Hpm Hpi).
  all: cbn [SceneRoot.protoProps SceneRoot.staticProps SceneRoot.prototype
            SceneRoot.Constructor SceneRoot.target SceneRoot.props].
  all: rewrite ?(defineProperties_methods ctor sl Hsm Hsi).
  all: eexists; split; [reflexivity|]; cbn.
  all: repeat (split; [first [reflexivity | intros k; apply install_all_lookup]|]).
  all: reflexivity.
Qed.

Lemma SceneRoot_installs_methods_witness :
  Forall is_method (given (SceneRoot.protoProps fresh_class))
  /\ Forall (installable (SceneRoot.prototype fresh_class))
            (given (SceneRoot.protoProps fresh_class))
  /\ Forall is_method (given (SceneRoot.staticProps fresh_class))
  /\ Forall (installable (SceneRoot.Constructor fresh_class))
            (given (SceneRoot.staticProps fresh_class))
  /\ exists s',
       SceneRoot.current fresh_class = Js.Ok tt s'
       /\ SceneRoot.own (SceneRoot.prototype s') !! "update"
          = Some (SceneRoot.Data (Some "function update(dt)") true false true)
       /\ SceneRoot.own (SceneRoot.prototype s') !! "constructor"
          = Some (SceneRoot.Data (Some "ParticleSystem") true false true).
Proof.
  assert (H1 : Forall is_method (given (SceneRoot.protoProps fresh_class))).
  { repeat constructor. eexists. reflexivity. }
  assert (H2 : Forall (installable (SceneRoot.prototype fresh_class))
                      (given (SceneRoot.protoProps fresh_class))).
  { repeat constructor. }
  assert (H3 : Forall is_method (given (SceneRoot.staticProps fresh_class)))
    by constructor.
  assert (H4 : Forall (installable (SceneRoot.Constructor fresh_class))
                      (given (SceneRoot.staticProps fresh_class)))
    by constructor.
  repeat (split; [assumption|]).
  destruct (SceneRoot_installs_methods fresh_class H1 H2 H3 H4)
    as (s' & Hrun & _ & _ & Hlookup & _).
  exists s'. split; [exact Hrun|]. rewrite !Hlookup. split; reflexivity.
Defined.

Lemma defineProperty_throw_keeps {V F} `{EqDecision V} `{EqDecision F}
      (d : SceneRoot.Descriptor V F) (o o' : SceneRoot.Object V F) (e : Js.Error) :
  SceneRoot.defineProperty d o = Js.Throw e o' ->
  o' = o /\ exists msg, e = Js.TypeError msg.
Proof.
  unfold SceneRoot.defineProperty.
  destruct (SceneRoot.IsAccessorDescriptor d && SceneRoot.IsDataDescriptor d);
    [intros [= <- <-]; split; [reflexivity | eexists; reflexivity]|].
  destruct (SceneRoot.ValidateAndApplyPropertyDescriptor _ _ _);
    [discriminate | intros [= <- <-]; split; [reflexivity | eexists; reflexivity]].
Qed.

Lemma defineProperty_ok_inserts {V F} `{EqDecision V} `{EqDecision F}
      (d : SceneRoot.Descriptor V F) (o o' : SceneRoot.Object V F) :
  SceneRoot.defineProperty d o = Js.Ok tt o' ->
  exists p, SceneRoot.own o' = <[SceneRoot.key d := p]> (SceneRoot.own o).
Proof.
  unfold SceneRoot.defineProperty.
  destruct (SceneRoot.IsAccessorDescriptor d && SceneRoot.IsDataDescriptor d);
    [discriminate|].
  destruct (SceneRoot.ValidateAndApplyPropertyDescriptor _ _ _) as [p|];
    [intros [= <-]; exists p; reflexivity | discriminate].
Qed.

(** The loop of [defineProperties] when a descriptor still to come names a
    non-configurable property. *)
Lemma defineProperties_loop_rejects {V F} `{EqDecision V} `{EqDecision F}
      (d : SceneRoot.Descriptor V F) (p : SceneRoot.Property V F) (n : nat) :
  forall (start j : nat) (s : SceneRoot.Frame V F),
    (start <= j < start + n)%nat ->
    (start + n)%nat = length (SceneRoot.props s) ->
    SceneRoot.props s !! j = Some d ->
    SceneRoot.own (SceneRoot.target s) !! SceneRoot.key d = Some p ->
    SceneRoot.property_configurable p = false ->
    exists msg s',
      Js.for_ defineProperties_step start n tt s = Js.Throw (Js.TypeError msg) s'
      /\ SceneRoot.own (SceneRoot.target s') !! SceneRoot.key d = Some p.
Proof.
  induction n as [|n IH]; intros start j s Hj Hlen Hd Hp Hc; [lia|].
  destruct (lookup_lt_is_Some_2 (SceneRoot.props s) start ltac:(lia)) as [ds Hds].
  cbn [Js.for_]. unfold Js.bind at 1.
  rewrite (defineProperties_step_run _ _ _ Hds).
  destruct (SceneRoot.defineProperty (normalised ds) (SceneRoot.target s))
    as [[] o'|e o'] eqn:Hdef.
  - destruct (decide (SceneRoot.key ds = SceneRoot.key d)) as [Hkey|Hkey].
    + rewrite <- Hkey in Hp.
      destruct (defineProperty_non_configurable _ ds p Hp Hc) as [e He].
      rewrite He in Hdef. discriminate Hdef.
    + assert (Hne : start <> j) by (intros ->; rewrite Hds in Hd; injection Hd as ->; auto).
      destruct (defineProperty_ok_inserts _ _ _ Hdef) as [p' Hown].
      rewrite normalised_key in Hown.
      apply (IH (S start) j); cbn [SceneRoot.target SceneRoot.props].
      * lia.
      * rewrite length_insert. lia.
      * rewrite list_lookup_insert_ne by exact Hne. exact Hd.
      * rewrite Hown, lookup_insert_ne by exact Hkey. exact Hp.
      * exact Hc.
  - apply defineProperty_throw_keeps in Hdef as [-> [msg ->]].
    eexists _, _. split; [reflexivity | exact Hp].
Qed.

(** X19. The helper can never redefine a non-configurable property, such
    as the [prototype] of a function: because it writes
    [configurable = true] into every descriptor, [defineProperties] throws
    a [TypeError] whenever a descriptor of [props] names a non-configurable
    own property of the target, whatever else the descriptor holds, and
    the property is left as it was. *)
Theorem defineProperties_rejects_non_configurable {V F : Type}
        `{EqDecision V} `{EqDecision F}
        (o : SceneRoot.Object V F) (l : list (SceneRoot.Descriptor V F))
        (d : SceneRoot.Descriptor V F) (p : SceneRoot.Property V F) :
  d ∈ l ->
  SceneRoot.own o !! SceneRoot.key d = Some p ->
  SceneRoot.property_configurable p = false ->
  exists msg s',
    SceneRoot.defineProperties {| SceneRoot.target := o; SceneRoot.props := l |}
    = Js.Throw (Js.TypeError msg) s'
    /\ SceneRoot.own (SceneRoot.target s') !! SceneRoot.key d = Some p.
Proof.
  intros Hin Hp Hc.
  apply list_elem_of_lookup_1 in Hin as [j Hj].
  pose proof (lookup_lt_Some _ _ _ Hj) as Hlt.
  change (SceneRoot.defineProperties {| SceneRoot.target := o; SceneRoot.props := l |})
    with (Js.for_ defineProperties_step 0 (length l) tt
            {| SceneRoot.target := o; SceneRoot.props := l |}).
  apply (defineProperties_loop_rejects d p (length l) 0 j);
    [lia | reflexivity | exact Hj | exact Hp | exact Hc].
Qed.

Lemma defineProperties_rejects_non_configurable_witness :
  prototype_descriptor ∈ [update_descriptor; prototype_descriptor]
  /\ SceneRoot.own (SceneRoot.Constructor fresh_class)
       !! SceneRoot.key prototype_descriptor
     = Some (SceneRoot.Data (Some "ParticleSystem.prototype") true false false)
  /\ exists msg s',
       SceneRoot.defineProperties
         {| SceneRoot.target := SceneRoot.Constructor fresh_class;
            SceneRoot.props := [update_descriptor; prototype_descriptor] |}
       = Js.Throw (Js.TypeError msg) s'
       /\ SceneRoot.own (SceneRoot.target s') !! "prototype"
          = Some (SceneRoot.Data (Some "ParticleSystem.prototype") true false false).
Proof.
  assert (H1 : prototype_descriptor ∈ [update_descriptor; prototype_descriptor])
    by (right; left).
  assert (H2 : SceneRoot.own (SceneRoot.Constructor fresh_class)
                 !! SceneRoot.key prototype_descriptor
               = Some (SceneRoot.Data (Some "ParticleSystem.prototype") true false false))
    by reflexivity.
  split; [exact H1|]. split; [exact H2|].
  exact (defineProperties_rejects_non_configurable
           (SceneRoot.Constructor fresh_class) [update_descriptor; prototype_descriptor]
           prototype_descriptor _ H1 H2 eq_refl).
Defined.
